(** * Job lifecycle of the image-generation API

    A shallow embedding of the request handlers and service wrappers of
    the API:

    - [services/api/src/services/dynamodb.ts] (class [DynamoDBService]),
    - [services/api/src/services/sagemaker.ts] (class [SageMakerService]),
    - [services/api/src/utils/auth.ts] and [utils/response.ts],
    - [services/api/src/handlers/submit-job.ts] and [get-job.ts],
    - [packages/shared/src/types/api.ts] ([SubmitJobRequestSchema]),
    - [infra/terraform/modules/api/lambda-src/submit-job.js] and
      [get-job.js] (the inline Lambda variants).

    The managed services (DynamoDB, S3, SageMaker), the clock and the
    identifier generator are external: their state is part of an explicit
    [World] that every operation threads, and their answers are read from
    an environment [Env] over which all theorems quantify. *)

From Stdlib Require Import QArith Ascii.
From stdpp Require Import gmap strings list fin_maps sorting.

Close Scope Q_scope.
Open Scope string_scope.
Open Scope list_scope.

Set Warnings "-register-all,-clear-no-such-hyp".

(** ** Errors *)

(** One violation found by the request schema.  [message] is the text
    the schema gives for the check; [None] stands for the default text of
    the validation library. *)
Inductive issue_code : Type :=
  invalid_type | too_small | too_big | custom | invalid_enum_value.

Record issue : Type := {
  code : issue_code;
  path : list string;
  message : option string
}.

(** The error classes of [types/api.ts], and the plain [Error] of the
    platform and of the service clients ([name], [message]). *)
Inductive error : Type :=
  | ValidationError (message : string) (details : option (list issue))
  | NotFoundError (message : string)
  | UnauthorizedError (message : string)
  | InternalError (message : string) (cause : error)
  | Error (name message : string).

Definition error_message (e : error) : string :=
  match e with
  | ValidationError m _ | NotFoundError m | UnauthorizedError m
  | InternalError m _ | Error _ m => m
  end.

Definition error_name (e : error) : string :=
  match e with
  | ValidationError _ _ => "ValidationError"
  | NotFoundError _ => "NotFoundError"
  | UnauthorizedError _ => "UnauthorizedError"
  | InternalError _ _ => "InternalError"
  | Error n _ => n
  end.

(** The outcome of a call that may throw. *)
Inductive outcome (A : Type) : Type :=
  | Return (a : A)
  | Throw (e : error).
Arguments Return {A} a.
Arguments Throw {A} e.

(** ** JavaScript values *)

(** The values [JSON.parse] produces.  A number is a rational: every
    finite double is one, and the infinities fail each of the range
    checks below just as a rational outside the range does.  A string is
    its sequence of code units.  The value [undefined] (a missing
    property) is [None] in an [option json]. *)
Inductive json : Type :=
  | JNull
  | JBool (b : bool)
  | JNum (q : Q)
  | JStr (s : string)
  | JArr (l : list json)
  | JObj (fields : list (string * json)).

Module Js.

(** [obj.key] on the result of [JSON.parse]: the last binding of a
    repeated key wins. *)
Fixpoint assoc (key : string) (fields : list (string * json)) : option json :=
  match fields with
  | [] => None
  | (k, v) :: rest =>
      match assoc key rest with
      | Some w => Some w
      | None => if decide (k = key) then Some v else None
      end
  end.

(** Truthiness of [v] in [if (v)], [v && ...] and [v || ...]. *)
Definition truthy (v : option json) : bool :=
  match v with
  | None | Some JNull => false
  | Some (JBool b) => b
  | Some (JNum q) => negb (Qeq_bool q 0%Q)
  | Some (JStr s) => negb (bool_decide (s = ""))
  | Some (JArr _) | Some (JObj _) => true
  end.

(** [Number.isInteger]. *)
Definition is_integer (q : Q) : bool :=
  Z.eqb (Z.rem (Qnum q) (Z.pos (Qden q))) 0.

(** [q % m === 0] for a positive integer [m]: the remainder of the
    truncated division vanishes exactly when [q / m] is an integer. *)
Definition rem_is_zero (q : Q) (m : Z) : bool :=
  Z.eqb (Z.rem (Qnum q) (Z.pos (Qden q) * m)) 0.

(** [a < b] and [a > b] on numbers. *)
Definition lt (a b : Q) : bool := negb (Qle_bool b a).
Definition gt (a b : Q) : bool := negb (Qle_bool a b).

Definition of_Z (z : Z) : Q := inject_Z z.
Definition of_nat (n : nat) : Q := inject_Z (Z.of_nat n).

(** [a || b] *)
Definition or (a b : option json) : option json :=
  if truthy a then a else b.

(** [a === b].  Two arrays or objects read from different places are
    different references, hence never identical. *)
Definition strict_eq (a b : option json) : bool :=
  match a, b with
  | None, None => true
  | Some JNull, Some JNull => true
  | Some (JBool x), Some (JBool y) => bool_decide (x = y)
  | Some (JNum x), Some (JNum y) => Qeq_bool x y
  | Some (JStr x), Some (JStr y) => bool_decide (x = y)
  | _, _ => false
  end.

(** [list.includes(v)] for a list of string literals. *)
Definition includes (literals : list string) (v : option json) : bool :=
  match v with
  | Some (JStr s) => bool_decide (s ∈ literals)
  | _ => false
  end.

Definition is_string (v : option json) : bool :=
  match v with Some (JStr _) => true | _ => false end.

Definition is_number (v : option json) : bool :=
  match v with Some (JNum _) => true | _ => false end.

(** An object literal as [JSON.stringify] and [marshall] with
    [removeUndefinedValues] see it: properties whose value is
    [undefined] are left out. *)
Definition obj (properties : list (string * option json)) : json :=
  JObj (omap (fun kv => pair kv.1 <$> kv.2) properties).

(** [v.key] for a key other than [length]: [null] has no properties,
    an object has its own, any other value none of the keys read here. *)
Definition get (v : json) (key : string) : outcome (option json) :=
  match v with
  | JNull => Throw (Error "TypeError" ("Cannot read properties of null (reading '" +:+ key +:+ "')"))
  | JObj fields => Return (assoc key fields)
  | _ => Return None
  end.

(** [v.key] where [v] is known not to be [null]. *)
Definition field (v : json) (key : string) : option json :=
  match v with
  | JObj fields => assoc key fields
  | _ => None
  end.

(** [v.length] of a truthy value. *)
Definition length_of (v : option json) : option json :=
  match v with
  | Some (JStr s) => Some (JNum (of_nat (String.length s)))
  | Some (JArr l) => Some (JNum (of_nat (List.length l)))
  | Some (JObj fields) => assoc "length" fields
  | _ => None
  end.

(** [ToNumber(v)], [None] for [NaN].  The conversion of a string, an
    array or an object goes through the grammar of numeric literals and
    is left out: such an operand occurs below only as the [length]
    property of an object given where a string is expected, after the
    type check has already refused the request. *)
Definition to_number (v : option json) : option Q :=
  match v with
  | Some JNull => Some 0%Q
  | Some (JBool b) => Some (if b then 1%Q else 0%Q)
  | Some (JNum q) => Some q
  | _ => None
  end.

(** [v > limit] *)
Definition exceeds (v : option json) (limit : Q) : bool :=
  match to_number v with
  | Some q => gt q limit
  | None => false
  end.

(** White space among the code units below 256. *)
Definition is_space (c : ascii) : bool :=
  let n := nat_of_ascii c in
  bool_decide (n ∈ [9; 10; 11; 12; 13; 32; 160]%nat).

Fixpoint trim_start (s : string) : string :=
  match s with
  | String c rest => if is_space c then trim_start rest else s
  | EmptyString => EmptyString
  end.

Fixpoint rev_onto (s acc : string) : string :=
  match s with
  | String c rest => rev_onto rest (String c acc)
  | EmptyString => acc
  end.

(** [s.trim()] *)
Definition trim (s : string) : string :=
  rev_onto (trim_start (rev_onto (trim_start s) "")) "".

(** [String(v)], as in a template literal; [number_text] gives the
    text of a number. *)
Fixpoint to_string (number_text : Q -> string) (v : json) : string :=
  match v with
  | JNull => "null"
  | JBool true => "true"
  | JBool false => "false"
  | JNum q => number_text q
  | JStr s => s
  | JArr l =>
      (fix join (l : list json) : string :=
         match l with
         | [] => ""
         | x :: rest =>
             let element :=
               match x with
               | JNull => ""
               | _ => to_string number_text x
               end in
             match rest with
             | [] => element
             | _ => element +:+ "," +:+ join rest
             end
         end) l
  | JObj _ => "[object Object]"
  end.

(** [hay.includes(needle)] on strings. *)
Fixpoint contains (needle hay : string) : bool :=
  String.prefix needle hay ||
  match hay with
  | String _ rest => contains needle rest
  | EmptyString => false
  end.

(** [s] without its first [n] code units. *)
Fixpoint skip (n : nat) (s : string) : string :=
  match n, s with
  | S m, String _ rest => skip m rest
  | _, _ => s
  end.

(** [s.replace(needle, replacement)] for a string [needle]: the first
    occurrence only. *)
Fixpoint replace_first (needle replacement s : string) : string :=
  if String.prefix needle s
  then replacement +:+ skip (String.length needle) s
  else match s with
       | String c rest => String c (replace_first needle replacement rest)
       | EmptyString => EmptyString
       end.

(** [s.split('.').pop()]: what follows the last full stop, or all of
    [s] when it has none. *)
Fixpoint last_segment (s : string) : string :=
  match s with
  | EmptyString => EmptyString
  | String c rest =>
      if contains "." rest then last_segment rest
      else if Ascii.eqb c "." then rest
      else s
  end.

End Js.

(** ** Job status *)

Inductive JobStatusType : Type := PENDING | RUNNING | SUCCEEDED | FAILED.

Global Instance JobStatusType_eq_dec : EqDecision JobStatusType.
Proof. solve_decision. Defined.

Definition status_name (s : JobStatusType) : string :=
  match s with
  | PENDING => "PENDING"
  | RUNNING => "RUNNING"
  | SUCCEEDED => "SUCCEEDED"
  | FAILED => "FAILED"
  end.

(** [status === 'SUCCEEDED' || status === 'FAILED']. *)
Definition is_final (s : JobStatusType) : bool :=
  match s with
  | SUCCEEDED | FAILED => true
  | PENDING | RUNNING => false
  end.

(** ** The world of a handler invocation *)

(** A DynamoDB item: attribute name to value.  An attribute whose value
    is [undefined] is dropped by [marshall], hence absent. *)
Abbreviation item := (gmap string json).

(** The body of an event or of a reply: [null] or the empty text, a
    text that [JSON.parse] refuses, or a text that parses to a value. *)
Inductive Body : Type :=
  | NoBody
  | Malformed
  | Parsed (j : json).

(** A request issued to a managed service, logged whether or not the
    service answers it. *)
Inductive request : Type :=
  | PutItem (it : item) (conditional : bool)
  | GetItem (jobId : string)
  | UpdateItem (jobId : string) (sets : list (string * json))
  | PutObject (key : string) (body : json)
  | InvokeEndpointAsync (inputLocation inferenceId : string)
  | InvokeEndpoint (body : json)
  | GetObject (bucket key : string)
  | CopyObject (copySource bucket key : string)
  | UpdateItemUnconditional (key : json) (sets : list (string * json)).

(** What the surroundings answer.  Requests are numbered in the order in
    which the invocation issues them, clock readings likewise. *)
Record Env : Type := {
  (** [new Date().toISOString()] at the n-th reading of the clock *)
  clock : nat -> string;
  (** [Date.now()] *)
  epoch_millis : Z;
  (** [new Date(v).getTime()], [None] for [NaN] *)
  date_millis : option json -> option Z;
  (** the identifier [ulid()] / [generateULID()] returns *)
  fresh_id : string;
  (** [Math.floor(Math.random() * 2147483647)] *)
  random_seed : Z;
  (** the n-th request fails in the service or on the way to it *)
  fault : nat -> option error;
  (** [OutputLocation] of the reply to the n-th request *)
  output_location : nat -> option string;
  (** [Body] of the reply to the n-th request, decoded and parsed *)
  reply_body : nat -> Body;
  (** [JSON.stringify(v)] of a defined value *)
  json_text : json -> string;
  (** [JSON.parse(v)], [None] when it throws *)
  json_parse : json -> option json;
  (** [getSignedUrl] for an object key of the images bucket, [None]
      when it throws *)
  presigned_url : json -> option string;
  (** [process.env.INFERENCE_INPUT_BUCKET] *)
  input_bucket : string;
  (** [process.env.NODE_ENV === 'development'] *)
  development : bool
}.

Record World : Type := {
  (** the jobs table, by partition key [jobId] *)
  db : gmap string item;
  (** the inference input bucket, by object key *)
  staging : gmap string json;
  (** requests issued so far, the latest first *)
  sent : list request;
  (** clock readings so far *)
  ticks : nat
}.

(** A computation over the world that returns or throws. *)
Definition M (A : Type) : Type := World -> outcome A * World.

Definition ret {A} (a : A) : M A := fun w => (Return a, w).
Definition throw {A} (e : error) : M A := fun w => (Throw e, w).
Definition bind {A B} (m : M A) (k : A -> M B) : M B :=
  fun w => match m w with
           | (Return a, w') => k a w'
           | (Throw e, w') => (Throw e, w')
           end.
(** [try { m } catch (error) { h error }] *)
Definition try_catch {A} (m : M A) (h : error -> M A) : M A :=
  fun w => match m w with
           | (Return a, w') => (Return a, w')
           | (Throw e, w') => h e w'
           end.

Notation "x <- m ;; k" := (bind m (fun x => k))
  (at level 100, m at next level, right associativity).
Notation "m ;;; k" := (bind m (fun _ => k))
  (at level 100, right associativity).

Definition lift {A} (o : outcome A) : M A := fun w => (o, w).

Section Services.

Context (env : Env).

(** [new Date().toISOString()] *)
Definition now : M string :=
  fun w => (Return (clock env (ticks w)),
            {| db := db w; staging := staging w; sent := sent w;
               ticks := S (ticks w) |}).

(** [client.send(command)]: the request is logged; it fails when the
    environment says so, and otherwise [apply] decides its effect. *)
Definition send {A} (r : request)
    (apply : nat -> World -> outcome A * World) : M A :=
  fun w =>
    let n := length (sent w) in
    let w1 := {| db := db w; staging := staging w; sent := r :: sent w;
                 ticks := ticks w |} in
    match fault env n with
    | Some e => (Throw e, w1)
    | None => apply n w1
    end.

Definition set_db (d : gmap string item) (w : World) : World :=
  {| db := d; staging := staging w; sent := sent w; ticks := ticks w |}.

Definition set_staging (s : gmap string json) (w : World) : World :=
  {| db := db w; staging := s; sent := sent w; ticks := ticks w |}.

Definition ConditionalCheckFailed : error :=
  Error "ConditionalCheckFailedException" "The conditional request failed".

Definition ValidationException (m : string) : error :=
  Error "ValidationException" m.

(** The partition key of an item to put. *)
Definition item_key (it : item) : option string :=
  match it !! "jobId" with
  | Some (JStr k) => Some k
  | _ => None
  end.

(** [PutItemCommand], with [attribute_not_exists(jobId)] as its
    condition when [conditional] is set. *)
Definition put_item (it : item) (conditional : bool) : M unit :=
  send (PutItem it conditional) (fun _ w =>
    match item_key it with
    | None => (Throw (ValidationException "Missing the key jobId in the item"), w)
    | Some k =>
        if conditional && bool_decide (is_Some (db w !! k))
        then (Throw ConditionalCheckFailed, w)
        else (Return tt, set_db (<[k := it]> (db w)) w)
    end).

(** [GetItemCommand]. *)
Definition get_item (jobId : string) : M (option item) :=
  send (GetItem jobId) (fun _ w => (Return (db w !! jobId), w)).

(** [UpdateItemCommand] with the update expression [SET a = :a, ...]
    of the clauses [sets] and the condition [attribute_exists(jobId)].
    DynamoDB refuses an expression that sets one attribute twice; the
    attributes named are overwritten, the others kept. *)
Definition update_item (jobId : string) (sets : list (string * json)) : M unit :=
  send (UpdateItem jobId sets) (fun _ w =>
    if negb (bool_decide (NoDup sets.*1))
    then (Throw (ValidationException "Two document paths overlap with each other"), w)
    else
      match db w !! jobId with
      | None => (Throw ConditionalCheckFailed, w)
      | Some it =>
          (Return tt,
           set_db (<[jobId := (list_to_map sets : item) ∪ it]> (db w)) w)
      end).

(** [PutObjectCommand] on the inference input bucket. *)
Definition put_object (key : string) (body : json) : M unit :=
  send (PutObject key body) (fun _ w =>
    (Return tt, set_staging (<[key := body]> (staging w)) w)).

(** [GetObjectCommand] on the output bucket of the worker pool: the
    reply carries a body, if any.  An object that is missing is a request
    that fails. *)
Definition get_object (bucket key : string) : M Body :=
  send (GetObject bucket key) (fun n w => (Return (reply_body env n), w)).

(** [CopyObjectCommand] into the images bucket, which is not part of
    the world: the handlers read it through presigned addresses only. *)
Definition copy_object (copySource bucket key : string) : M unit :=
  send (CopyObject copySource bucket key) (fun _ w => (Return tt, w)).

Definition SerializationException (m : string) : error :=
  Error "SerializationException" m.

(** [UpdateItemCommand] with the update expression [SET a = :a, ...],
    no condition, and the key and every value given as [{ S: v }].  The
    table refuses a key or value that is not a string, and an empty key;
    it creates the record when there is none. *)
Definition update_item_unconditional (key : json) (sets : list (string * json))
  : M unit :=
  send (UpdateItemUnconditional key sets) (fun _ w =>
    if negb (bool_decide (NoDup sets.*1))
    then (Throw (ValidationException "Two document paths overlap with each other"), w)
    else
      match key with
      | JStr k =>
          if negb (forallb (fun kv => Js.is_string (Some kv.2)) sets)
          then (Throw (SerializationException "Expected a string value"), w)
          else if decide (k = "")
          then (Throw (ValidationException
                         "The AttributeValue for a key attribute cannot contain an empty string value"),
                w)
          else
            (Return tt,
             set_db (<[k := (list_to_map sets : item)
                            ∪ default {["jobId" := JStr k]} (db w !! k)]> (db w)) w)
      | _ => (Throw (SerializationException "Expected a string value"), w)
      end).

End Services.

(** ** [DynamoDBService] *)

Module DynamoDBService.
Section DynamoDBService.

Context (env : Env).

(** [createJob(job)]: a put conditional on [attribute_not_exists(jobId)];
    whatever the client throws is rethrown as an [InternalError]. *)
Definition createJob (job : item) : M unit :=
  try_catch
    (put_item env job true)
    (fun error => throw (InternalError "Failed to create job" error)).

(** [getJob(jobId)]: the item, or [null]. *)
Definition getJob (jobId : string) : M (option item) :=
  try_catch
    (get_item env jobId)
    (fun error => throw (InternalError "Failed to retrieve job" error)).

(** The optional updates that [updateJobStatus] copies into its update
    expression: the defined entries of [updates] whose key is none of
    [jobId], [status], [updatedAt]. *)
Definition optional_updates (updates : item) : list (string * json) :=
  map_to_list
    (filter (fun kv => kv.1 <> "jobId" /\ kv.1 <> "status" /\ kv.1 <> "updatedAt")
            updates).

(** [updateJobStatus(jobId, status, updates)]. *)
Definition updateJobStatus (jobId : string) (status : JobStatusType)
    (updates : item) : M unit :=
  try_catch
    (updatedAt <- now env ;;
     completion <-
       (if is_final status
        then (completedAt <- now env ;;
              ret [("completedAt", JStr completedAt)])
        else ret []) ;;
     update_item env jobId
       ([("status", JStr (status_name status)); ("updatedAt", JStr updatedAt)]
          ++ completion ++ optional_updates updates))
    (fun error =>
       if decide (error_name error = "ConditionalCheckFailedException")
       then throw (NotFoundError ("Job " +:+ jobId +:+ " not found"))
       else throw (InternalError "Failed to update job status" error)).

End DynamoDBService.
End DynamoDBService.

(** ** Events and responses *)

Record Event : Type := {
  httpMethod : string;
  requestId : string;
  (** [event.requestContext.authorizer.jwt.claims], [None] when a link
      of that chain is missing *)
  claims : option (list (string * json));
  body : Body;
  (** [event.pathParameters?.id] *)
  pathId : option string
}.

(** The value a response body is the JSON text of. *)
Inductive payload : Type :=
  | Empty
  | Json (j : json)
  | Failure (error : string) (message : string) (details : option (list issue)).

Record Response : Type := {
  statusCode : Z;
  headers : list (string * string);
  payload_of : payload
}.

(** ** [utils/auth.ts] *)

Record UserContext : Type := {
  userId : json;
  email : option json;
  username : option json;
  isAdmin : bool
}.

(** [Array.isArray(groups) && groups.includes('admin')] *)
Definition groups_include_admin (groups : option json) : bool :=
  match groups with
  | Some (JArr l) => existsb (fun g => Js.strict_eq (Some g) (Some (JStr "admin"))) l
  | _ => false
  end.

(** [extractUserContext(event)].  Whatever is thrown inside is caught
    and replaced by [UnauthorizedError('Invalid authentication')]. *)
Definition extractUserContext (event : Event) : outcome UserContext :=
  let attempt : outcome UserContext :=
    match claims event with
    | None => Throw (UnauthorizedError "No authentication claims found")
    | Some claims =>
        let userId := Js.or (Js.assoc "sub" claims) (Js.assoc "cognito:username" claims) in
        match userId with
        | Some id =>
            if Js.truthy userId
            then Return {| userId := id;
                           email := Js.assoc "email" claims;
                           username := Js.or (Js.assoc "cognito:username" claims)
                                             (Js.assoc "preferred_username" claims);
                           isAdmin := groups_include_admin
                                        (Js.or (Js.assoc "cognito:groups" claims)
                                               (Some (JArr []))) |}
            else Throw (UnauthorizedError "No user ID found in claims")
        | None => Throw (UnauthorizedError "No user ID found in claims")
        end
    end in
  match attempt with
  | Return ctx => Return ctx
  | Throw _ => Throw (UnauthorizedError "Invalid authentication")
  end.

(** [validateResourceAccess(userContext, resourceUserId)] *)
Definition validateResourceAccess (userContext : UserContext)
    (resourceUserId : option json) : outcome unit :=
  if isAdmin userContext then Return tt
  else if negb (Js.strict_eq (Some (userId userContext)) resourceUserId)
       then Throw (UnauthorizedError "Access denied to this resource")
       else Return tt.

(** [getUserId(event)] of the inline Lambda variants. *)
Definition getUserId (event : Event) : option json :=
  match claims event with
  | Some claims =>
      Js.or (Js.or (Js.assoc "sub" claims) (Js.assoc "cognito:username" claims))
            (Some (JStr "anonymous"))
  | None => Some (JStr "anonymous")
  end.

(** ** [utils/response.ts] *)

Definition CORS_HEADERS : list (string * string) :=
  [("Content-Type", "application/json");
   ("Access-Control-Allow-Origin", "*");
   ("Access-Control-Allow-Headers",
    "Content-Type,X-Amz-Date,Authorization,X-Api-Key,X-Amz-Security-Token");
   ("Access-Control-Allow-Methods", "OPTIONS,GET,POST,PUT,DELETE")].

Definition successResponse (data : json) (statusCode : Z) : Response :=
  {| statusCode := statusCode; headers := CORS_HEADERS; payload_of := Json data |}.

Definition errorResponse (env : Env) (error : error) : Response :=
  match error with
  | ValidationError m details =>
      {| statusCode := 400; headers := CORS_HEADERS;
         payload_of := Failure "Validation failed" m details |}
  | UnauthorizedError m =>
      {| statusCode := 403; headers := CORS_HEADERS;
         payload_of := Failure "Access denied" m None |}
  | NotFoundError m =>
      {| statusCode := 404; headers := CORS_HEADERS;
         payload_of := Failure "Not found" m None |}
  | InternalError _ _ | Error _ _ =>
      {| statusCode := 500; headers := CORS_HEADERS;
         payload_of := Failure "Internal server error"
                         (if development env then error_message error
                          else "An unexpected error occurred") None |}
  end.

Definition optionsResponse : Response :=
  {| statusCode := 200;
     headers := (CORS_HEADERS ++ [("Access-Control-Max-Age", "86400")])%list;
     payload_of := Empty |}.

(** ** The validation library

    The part of zod (version 3) that [SubmitJobRequestSchema] uses.  A
    schema maps the path of a value and the value to an output and the
    issues found.  A failed check of a string or number marks the value
    without stopping the parse, a value of the wrong type stops it. *)

Module Zod.

Record result : Type := {
  aborted : bool;
  output : option json;
  issues : list issue
}.

Definition schema : Type := list string -> option json -> result.

Definition valid (v : option json) : result :=
  {| aborted := false; output := v; issues := [] |}.

Definition wrong_type (path : list string) : result :=
  {| aborted := true; output := None;
     issues := [{| code := invalid_type; path := path; message := None |}] |}.

Inductive string_check : Type :=
  | str_min (n : nat) (message : option string)
  | str_max (n : nat) (message : option string).

Inductive number_check : Type :=
  | num_int
  | num_min (limit : Q) (message : option string)
  | num_max (limit : Q) (message : option string).

Definition string_issue (path : list string) (s : string) (c : string_check)
  : list issue :=
  match c with
  | str_min n m =>
      if Nat.ltb (String.length s) n
      then [{| code := too_small; path := path; message := m |}] else []
  | str_max n m =>
      if Nat.ltb n (String.length s)
      then [{| code := too_big; path := path; message := m |}] else []
  end.

Definition number_issue (path : list string) (q : Q) (c : number_check)
  : list issue :=
  match c with
  | num_int =>
      if Js.is_integer q then []
      else [{| code := invalid_type; path := path; message := None |}]
  | num_min limit m =>
      if Js.lt q limit
      then [{| code := too_small; path := path; message := m |}] else []
  | num_max limit m =>
      if Js.gt q limit
      then [{| code := too_big; path := path; message := m |}] else []
  end.

(** [z.string()] followed by its checks *)
Definition string (checks : list string_check) : schema :=
  fun path v =>
    match v with
    | Some (JStr s) =>
        {| aborted := false; output := v;
           issues := concat (map (string_issue path s) checks) |}
    | _ => wrong_type path
    end.

(** [z.number()] followed by its checks *)
Definition number (checks : list number_check) : schema :=
  fun path v =>
    match v with
    | Some (JNum q) =>
        {| aborted := false; output := v;
           issues := concat (map (number_issue path q) checks) |}
    | _ => wrong_type path
    end.

(** [inner.refine(test, message)] on a number schema *)
Definition refine (test : Q -> bool) (message : String.string) (inner : schema) : schema :=
  fun path v =>
    let r := inner path v in
    if aborted r then r
    else match output r with
         | Some (JNum q) =>
             if test q then r
             else {| aborted := false; output := output r;
                     issues := (issues r ++
                       [{| code := custom; path := path;
                           message := Some message |}])%list |}
         | _ => r
         end.

(** [z.enum(values)] *)
Definition enum (values : list String.string) : schema :=
  fun path v =>
    match v with
    | Some (JStr s) =>
        if bool_decide (s ∈ values) then valid v
        else {| aborted := true; output := None;
                issues := [{| code := invalid_enum_value; path := path;
                              message := None |}] |}
    | _ => wrong_type path
    end.

(** [inner.optional()] *)
Definition optional (inner : schema) : schema :=
  fun path v =>
    match v with
    | None => valid None
    | Some _ => inner path v
    end.

(** [inner.default(value)] *)
Definition default (value : json) (inner : schema) : schema :=
  fun path v =>
    match v with
    | None => inner path (Some value)
    | Some _ => inner path v
    end.

(** The fields of an object schema, in the order of its shape; keys
    the shape does not name are dropped from the output. *)
Fixpoint fields (shape : list (String.string * schema)) (path : list String.string)
    (input : list (String.string * json))
  : bool * list (String.string * json) * list issue :=
  match shape with
  | [] => (false, [], [])
  | (key, s) :: rest =>
      let r := s (path ++ [key])%list (Js.assoc key input) in
      let '(stop, out, found) := fields rest path input in
      (aborted r || stop,
       match output r with
       | Some v => (key, v) :: out
       | None => out
       end,
       (issues r ++ found)%list)
  end.

(** [z.object(shape)] *)
Definition object (shape : list (String.string * schema)) : schema :=
  fun path v =>
    match v with
    | Some (JObj input) =>
        let '(stop, out, found) := fields shape path input in
        {| aborted := stop; output := Some (JObj out); issues := found |}
    | _ => wrong_type path
    end.

(** [schema.safeParse(data)]: the parsed data, or the issues. *)
Definition safeParse (s : schema) (data : json) : list issue + json :=
  let r := s [] (Some data) in
  match issues r, output r with
  | [], Some parsed => inr parsed
  | found, _ => inl found
  end.

End Zod.

(** ** [types/api.ts] *)

Definition divisible_by_64 (val : Q) : bool := Js.rem_is_zero val 64.

Definition dimension (lower upper multiple : string) : Zod.schema :=
  Zod.default (JNum 1024%Q)
    (Zod.optional
       (Zod.refine divisible_by_64 multiple
          (Zod.number [Zod.num_int;
                       Zod.num_min 256%Q (Some lower);
                       Zod.num_max 1024%Q (Some upper)]))).

(** The shape of [SubmitJobRequestSchema]. *)
Definition SubmitJobRequestShape : list (string * Zod.schema) :=
  [("prompt",
    Zod.string [Zod.str_min 1 (Some "Prompt cannot be empty");
                Zod.str_max 1000 (Some "Prompt too long (max 1000 characters)")]);
   ("modelId",
    Zod.default (JStr "stable-diffusion-xl") (Zod.optional (Zod.string [])));
   ("steps",
    Zod.default (JNum 20%Q)
      (Zod.optional
         (Zod.number [Zod.num_int;
                      Zod.num_min 1%Q (Some "Steps must be at least 1");
                      Zod.num_max 50%Q (Some "Steps cannot exceed 50")])));
   ("guidanceScale",
    Zod.default (JNum 7.5%Q)
      (Zod.optional
         (Zod.number [Zod.num_min 1%Q (Some "Guidance scale must be at least 1.0");
                      Zod.num_max 20%Q (Some "Guidance scale cannot exceed 20.0")])));
   ("width",
    dimension "Width must be at least 256" "Width cannot exceed 1024"
              "Width must be divisible by 64");
   ("height",
    dimension "Height must be at least 256" "Height cannot exceed 1024"
              "Height must be divisible by 64");
   ("seed",
    Zod.optional
      (Zod.number [Zod.num_int; Zod.num_min 0%Q None; Zod.num_max 2147483647%Q None]));
   ("quality", Zod.default (JStr "medium") (Zod.optional (Zod.enum ["low"; "medium"; "high"])));
   ("mode", Zod.default (JStr "async") (Zod.optional (Zod.enum ["async"; "sync"])));
   ("negativePrompt", Zod.optional (Zod.string [Zod.str_max 500 None]))].

Definition SubmitJobRequestSchema : Zod.schema :=
  Zod.object SubmitJobRequestShape.

(** ** [SageMakerService] *)

Module SageMakerService.
Section SageMakerService.

Context (env : Env).

Definition createInferenceInput (request : json) : json :=
  Js.obj
    [("inputs", Js.field request "prompt");
     ("parameters",
      Some (Js.obj
              [("num_inference_steps", Js.field request "steps");
               ("guidance_scale", Js.field request "guidanceScale");
               ("width", Js.field request "width");
               ("height", Js.field request "height");
               ("seed", Js.field request "seed");
               ("negative_prompt", Js.field request "negativePrompt")]))].

(** [InvokeEndpointAsyncCommand]: the reply carries the output
    location, if any. *)
Definition invoke_endpoint_async (inputLocation inferenceId : string)
  : M (option string) :=
  send env (InvokeEndpointAsync inputLocation inferenceId)
       (fun n w => (Return (output_location env n), w)).

(** [InvokeEndpointCommand]: the reply carries a body, if any. *)
Definition invoke_endpoint (body : json) : M Body :=
  send env (InvokeEndpoint body) (fun n w => (Return (reply_body env n), w)).

(** [invokeAsync(jobId, request)]: stage the input, start the
    inference, return the output location. *)
Definition invokeAsync (jobId : string) (request : json) : M string :=
  try_catch
    (let inputData := createInferenceInput request in
     let inputKey := "jobs/" +:+ jobId +:+ "/input.json" in
     created_at <- now env ;;
     put_object env inputKey inputData ;;;
     outputLocation <-
       invoke_endpoint_async
         ("s3://" +:+ input_bucket env +:+ "/" +:+ inputKey) jobId ;;
     match outputLocation with
     | Some location =>
         if decide (location = "")
         then throw (Error "Error" "No output location returned from SageMaker")
         else ret location
     | None => throw (Error "Error" "No output location returned from SageMaker")
     end)
    (fun error => throw (InternalError "Failed to start inference" error)).

(** [invokeSync(request)]: run the inference, return the parsed reply. *)
Definition invokeSync (request : json) : M json :=
  try_catch
    (let inputData := createInferenceInput request in
     reply <- invoke_endpoint inputData ;;
     match reply with
     | NoBody => throw (Error "Error" "No response body from SageMaker")
     | Malformed => throw (Error "SyntaxError" "Unexpected token in JSON")
     | Parsed response =>
         (* the log line reads [response.metadata?.generation_time_seconds] *)
         lift (Js.get response "metadata") ;;;
         ret response
     end)
    (fun error => throw (InternalError "Failed to complete inference" error)).

(** The input of the health check. *)
Definition healthCheckInput : json :=
  JObj [("inputs", JStr "test");
        ("parameters",
         JObj [("num_inference_steps", JNum 1%Q); ("guidance_scale", JNum 1%Q);
               ("width", JNum 512%Q); ("height", JNum 512%Q)])].

(** [checkEndpointHealth()]: whether a minimal inference goes through. *)
Definition checkEndpointHealth : M bool :=
  try_catch
    (invoke_endpoint healthCheckInput ;;; ret true)
    (fun error => ret false).

End SageMakerService.
End SageMakerService.

(** ** [handlers/submit-job.ts] *)

Module SubmitJob.
Section SubmitJob.

Context (env : Env).

Definition TTL_SECONDS : Z := 7 * 24 * 60 * 60.

(** The job record written at submission. *)
Definition jobItem (jobId : string) (userContext : UserContext)
    (timestamp : string) (request : json) : item :=
  list_to_map
    [("jobId", JStr jobId);
     ("userId", userId userContext);
     ("status", JStr (status_name PENDING));
     ("createdAt", JStr timestamp);
     ("updatedAt", JStr timestamp);
     ("inputParams", request);
     ("ttl", JNum (Js.of_Z (epoch_millis env / 1000 + TTL_SECONDS)))]
  ∪ from_option (fun mode => {["mode" := mode]}) ∅ (Js.field request "mode").

(** [{ metadata: JSON.stringify(result.metadata) }] *)
Definition metadata_update (result : json) : item :=
  match Js.field result "metadata" with
  | Some metadata => {["metadata" := JStr (json_text env metadata)]}
  | None => ∅
  end.

(** [result.metadata.generation_time_seconds], read for the log line *)
Definition generation_time (result : json) : outcome (option json) :=
  match Js.field result "metadata" with
  | Some metadata => Js.get metadata "generation_time_seconds"
  | None =>
      Throw (Error "TypeError"
        "Cannot read properties of undefined (reading 'generation_time_seconds')")
  end.

Definition sync_response (jobId : string) (result : json) : json :=
  Js.obj
    [("jobId", Some (JStr jobId));
     ("status", Some (JStr (status_name SUCCEEDED)));
     ("result",
      Some (Js.obj [("generated_image", Js.field result "generated_image");
                    ("metadata", Js.field result "metadata")]))].

Definition async_response (jobId : string) : json :=
  Js.obj
    [("jobId", Some (JStr jobId));
     ("status", Some (JStr (status_name PENDING)));
     ("message",
      Some (JStr "Job submitted successfully. First inference may take up to 60 seconds due to cold start."));
     ("estimatedWaitTime", Some (JStr "60-120 seconds"))].

(** [{ error: error.message }] *)
Definition error_update (error : error) : item :=
  {["error" := JStr (error_message error)]}.

(** What precedes the first write: authentication, the request body,
    the schema. *)
Definition validated (event : Event) : outcome (UserContext * json) :=
  match extractUserContext event with
  | Throw e => Throw e
  | Return userContext =>
      match body event with
      | NoBody => Throw (ValidationError "Request body is required" None)
      | Malformed => Throw (ValidationError "Invalid JSON in request body" None)
      | Parsed requestBody =>
          match Zod.safeParse SubmitJobRequestSchema requestBody with
          | inl found =>
              Throw (ValidationError "Invalid request parameters" (Some found))
          | inr request => Return (userContext, request)
          end
      end
  end.

(** The synchronous branch. *)
Definition synchronous (jobId : string) (request : json) : M Response :=
  try_catch
    (result <- SageMakerService.invokeSync env request ;;
     DynamoDBService.updateJobStatus env jobId SUCCEEDED
       (metadata_update result) ;;;
     lift (generation_time result) ;;;
     ret (successResponse (sync_response jobId result) 200))
    (fun error =>
       DynamoDBService.updateJobStatus env jobId FAILED (error_update error) ;;;
       throw error).

(** The asynchronous branch. *)
Definition asynchronous (jobId : string) (request : json) : M Response :=
  try_catch
    (outputLocation <- SageMakerService.invokeAsync env jobId request ;;
     DynamoDBService.updateJobStatus env jobId RUNNING ∅ ;;;
     ret (successResponse (async_response jobId) 202))
    (fun error =>
       DynamoDBService.updateJobStatus env jobId FAILED (error_update error) ;;;
       throw error).

(** The record is created, then the inference dispatched. *)
Definition create_and_dispatch (userContext : UserContext) (request : json)
  : M Response :=
  let jobId := fresh_id env in
  timestamp <- now env ;;
  DynamoDBService.createJob env (jobItem jobId userContext timestamp request) ;;;
  if Js.strict_eq (Js.field request "mode") (Some (JStr "sync"))
  then synchronous jobId request
  else asynchronous jobId request.

(** The body of the handler's [try]. *)
Definition submit (event : Event) : M Response :=
  if decide (httpMethod event = "OPTIONS") then ret optionsResponse
  else
    admitted <- lift (validated event) ;;
    create_and_dispatch admitted.1 admitted.2.

(** [handler(event)]: whatever [submit] throws becomes a response. *)
Definition handler (event : Event) (w : World) : Response * World :=
  match submit event w with
  | (Return response, w') => (response, w')
  | (Throw error, w') => (errorResponse env error, w')
  end.

End SubmitJob.
End SubmitJob.

(** ** [handlers/get-job.ts] *)

Module GetJob.
Section GetJob.

Context (env : Env).

(** [Math.floor((Date.now() - new Date(createdAt).getTime()) / 60000)],
    [None] for [NaN] *)
Definition elapsedMinutes (createdAt : option json) : option Z :=
  (fun createdTime => (epoch_millis env - createdTime) / 60000)%Z
    <$> date_millis env createdAt.

Definition below (minutes : option Z) (limit : Z) : bool :=
  match minutes with
  | Some m => (m <? limit)%Z
  | None => false
  end.

Definition status_is (job : item) (s : JobStatusType) : bool :=
  Js.strict_eq (job !! "status") (Some (JStr (status_name s))).

(** The fields added to the response according to the job's status. *)
Definition status_fields (job : item) : list (string * option json) :=
  if status_is job SUCCEEDED then
    [("imageUrl",
      if Js.truthy (job !! "imageUrl") then job !! "imageUrl"
      else if Js.truthy (job !! "outputKey")
           then JStr <$> (job !! "outputKey" ≫= presigned_url env)
           else None);
     ("metadata",
      if Js.truthy (job !! "metadata")
      then job !! "metadata" ≫= json_parse env else None);
     ("timings",
      if Js.truthy (job !! "timings")
      then job !! "timings" ≫= json_parse env else None)]
  else if status_is job FAILED then
    [("error", if Js.truthy (job !! "error") then job !! "error" else None)]
  else if status_is job PENDING || status_is job RUNNING then
    let elapsed := elapsedMinutes (job !! "createdAt") in
    [("estimatedCompletion",
      Some (JStr
        (if below elapsed 2
         then "Processing... First inference may take up to 60 seconds due to cold start."
         else if below elapsed 5
         then "Processing... Should complete within the next few minutes."
         else "Processing is taking longer than expected. Please check back in a few minutes.")))]
  else [].

Definition job_view (job : item) : json :=
  Js.obj ([("jobId", job !! "jobId");
           ("status", job !! "status");
           ("createdAt", job !! "createdAt");
           ("updatedAt", job !! "updatedAt");
           ("inputParams", job !! "inputParams")] ++ status_fields job).

Definition get (event : Event) : M Response :=
  if decide (httpMethod event = "OPTIONS") then ret optionsResponse
  else
    match pathId event with
    | None | Some "" => throw (ValidationError "Job ID is required" None)
    | Some jobId =>
        userContext <- lift (extractUserContext event) ;;
        found <- DynamoDBService.getJob env jobId ;;
        match found with
        | None => throw (NotFoundError "Job not found")
        | Some job =>
            lift (validateResourceAccess userContext (job !! "userId")) ;;;
            ret (successResponse (job_view job) 200)
        end
    end.

Definition handler (event : Event) (w : World) : Response * World :=
  match get event w with
  | (Return response, w') => (response, w')
  | (Throw error, w') => (errorResponse env error, w')
  end.

End GetJob.
End GetJob.

(** ** The inline Lambda variants *)

Definition LAMBDA_HEADERS (methods : string) : list (string * string) :=
  [("Content-Type", "application/json");
   ("Access-Control-Allow-Origin", "*");
   ("Access-Control-Allow-Headers",
    "Content-Type,X-Amz-Date,Authorization,X-Api-Key,X-Amz-Security-Token");
   ("Access-Control-Allow-Methods", methods)].

Definition reply (methods : string) (statusCode : Z)
    (properties : list (string * option json)) : Response :=
  {| statusCode := statusCode; headers := LAMBDA_HEADERS methods;
     payload_of := Json (Js.obj properties) |}.

(** *** [lambda-src/submit-job.js] *)

Module SubmitJobLambda.
Section SubmitJobLambda.

Context (env : Env).

(** [value && (typeof value !== 'number' || value < lower || value > upper)] *)
Definition out_of_range (value : option json) (lower upper : Q) : bool :=
  Js.truthy value &&
  match value with
  | Some (JNum q) => Js.lt q lower || Js.gt q upper
  | _ => true
  end.

(** [value && (typeof value !== 'number' || value < 256 || value > 1024
    || value % 64 !== 0)] *)
Definition bad_dimension (value : option json) : bool :=
  Js.truthy value &&
  match value with
  | Some (JNum q) =>
      Js.lt q 256%Q || Js.gt q 1024%Q || negb (Js.rem_is_zero q 64)
  | _ => true
  end.

(** [!prompt || typeof prompt !== 'string' || prompt.trim().length === 0] *)
Definition blank_prompt (prompt : option json) : bool :=
  negb (Js.truthy prompt) ||
  match prompt with
  | Some (JStr s) => bool_decide (String.length (Js.trim s) = 0%nat)
  | _ => true
  end.

Definition when (condition : bool) (message : string) : list string :=
  if condition then [message] else [].

(** [validateInput(body)]: the messages of the checks that fail, in
    the order of the checks.  Reading a property of [null] throws. *)
Definition validateInput (body : json) : outcome (list string) :=
  match Js.get body "prompt" with
  | Throw e => Throw e
  | Return prompt =>
      let get := Js.field body in
      Return
        (when (blank_prompt prompt)
              "prompt is required and must be a non-empty string"
         ++ when (Js.truthy prompt && Js.exceeds (Js.length_of prompt) 1000%Q)
              "prompt must be less than 1000 characters"
         ++ when (out_of_range (get "steps") 1%Q 50%Q)
              "steps must be a number between 1 and 50"
         ++ when (out_of_range (get "guidanceScale") 1%Q 20%Q)
              "guidanceScale must be a number between 1 and 20"
         ++ when (bad_dimension (get "width"))
              "width must be a number between 256 and 1024, divisible by 64"
         ++ when (bad_dimension (get "height"))
              "height must be a number between 256 and 1024, divisible by 64"
         ++ when (out_of_range (get "seed") 0%Q 2147483647%Q)
              "seed must be a number between 0 and 2147483647"
         ++ when (Js.truthy (get "quality")
                  && negb (Js.includes ["low"; "medium"; "high"] (get "quality")))
              "quality must be one of: low, medium, high"
         ++ when (Js.truthy (get "mode")
                  && negb (Js.includes ["async"; "sync"] (get "mode")))
              "mode must be one of: async, sync")%list
  end.

Definition POST : string := "OPTIONS,POST".

(** [body.prompt.trim()] *)
Definition trimmed_prompt (body : json) : outcome json :=
  match Js.field body "prompt" with
  | Some (JStr s) => Return (JStr (Js.trim s))
  | _ => Throw (Error "TypeError" "body.prompt.trim is not a function")
  end.

Definition inferenceParams (body prompt : json) : json :=
  Js.obj
    [("prompt", Some prompt);
     ("steps", Js.or (Js.field body "steps") (Some (JNum 20%Q)));
     ("guidance_scale", Js.or (Js.field body "guidanceScale") (Some (JNum 7.5%Q)));
     ("width", Js.or (Js.field body "width") (Some (JNum 512%Q)));
     ("height", Js.or (Js.field body "height") (Some (JNum 512%Q)));
     ("seed", Js.or (Js.field body "seed") (Some (JNum (Js.of_Z (random_seed env)))));
     ("quality", Js.or (Js.field body "quality") (Some (JStr "medium")))].

Definition inputData (params : json) : json :=
  Js.obj
    [("inputs", Js.field params "prompt");
     ("parameters",
      Some (Js.obj [("num_inference_steps", Js.field params "steps");
                    ("guidance_scale", Js.field params "guidance_scale");
                    ("width", Js.field params "width");
                    ("height", Js.field params "height");
                    ("seed", Js.field params "seed")]))].

Definition jobItem (jobId : string) (userId : option json) (timestamp : string)
    (params : json) (mode : option json) : list (string * option json) :=
  [("jobId", Some (JStr jobId));
   ("userId", userId);
   ("status", Some (JStr "PENDING"));
   ("createdAt", Some (JStr timestamp));
   ("updatedAt", Some (JStr timestamp));
   ("inputParams", Some params);
   ("mode", mode);
   ("ttl", Some (JNum (Js.of_Z (epoch_millis env / 1000 + 7 * 24 * 60 * 60))))].

(** [marshall({ ...jobItem, ...changes })] *)
Definition marshall (properties changes : list (string * option json)) : item :=
  list_to_map (omap (fun kv => pair kv.1 <$> kv.2) changes)
  ∪ list_to_map (omap (fun kv => pair kv.1 <$> kv.2) properties).

(** [Number.MAX_SAFE_INTEGER] *)
Definition MAX_SAFE_INTEGER : Q := 9007199254740991%Q.

(** The first number of a value, in the order of its elements and
    properties, that lies beyond the safe integers. *)
Fixpoint unsafe_number (v : json) : option Q :=
  match v with
  | JNum q =>
      if Js.gt q MAX_SAFE_INTEGER || Js.lt q (- MAX_SAFE_INTEGER)%Q
      then Some q else None
  | JArr l =>
      (fix among (l : list json) : option Q :=
         match l with
         | [] => None
         | x :: rest =>
             match unsafe_number x with
             | Some q => Some q
             | None => among rest
             end
         end) l
  | JObj fields =>
      (fix among (l : list (string * json)) : option Q :=
         match l with
         | [] => None
         | (_, x) :: rest =>
             match unsafe_number x with
             | Some q => Some q
             | None => among rest
             end
         end) fields
  | _ => None
  end.

(** What [marshall] throws on such a number. *)
Definition marshall_refusal (q : Q) : error :=
  Error "Error"
    ("Number " +:+ json_text env (JNum q) +:+
     (if Js.gt q MAX_SAFE_INTEGER
      then " is greater than Number.MAX_SAFE_INTEGER. Use BigInt."
      else " is lesser than Number.MIN_SAFE_INTEGER. Use BigInt.")).

(** [marshall] refuses a number beyond the safe integers.  The values of
    the job item are strings, and numbers that [validateInput] bounds or
    the runtime produces; what the changes bring is checked here. *)
Definition marshall_check (changes : list (string * option json)) : outcome unit :=
  match head (omap (fun kv => kv.2 ≫= unsafe_number) changes) with
  | Some q => Throw (marshall_refusal q)
  | None => Return tt
  end.

(** The synchronous branch, with its own [try] and [catch]. *)
Definition synchronous (jobId : string) (job : list (string * option json))
    (input : json) : M Response :=
  try_catch
    (result <- SageMakerService.invoke_endpoint env input ;;
     responseBody <-
       match result with
       | Parsed j => ret j
       | NoBody | Malformed =>
           throw (Error "SyntaxError" "Unexpected end of JSON input")
       end ;;
     updatedAt <- now env ;;
     lift (marshall_check [("status", Some (JStr "SUCCEEDED"));
                           ("updatedAt", Some (JStr updatedAt));
                           ("result", Some responseBody)]) ;;;
     put_item env
       (marshall job [("status", Some (JStr "SUCCEEDED"));
                      ("updatedAt", Some (JStr updatedAt));
                      ("result", Some responseBody)]) false ;;;
     ret (reply POST 200 [("jobId", Some (JStr jobId));
                          ("status", Some (JStr "SUCCEEDED"));
                          ("result", Some responseBody)]))
    (fun error =>
       updatedAt <- now env ;;
       lift (marshall_check [("status", Some (JStr "FAILED"));
                             ("updatedAt", Some (JStr updatedAt));
                             ("error", Some (JStr (error_message error)))]) ;;;
       put_item env
         (marshall job [("status", Some (JStr "FAILED"));
                        ("updatedAt", Some (JStr updatedAt));
                        ("error", Some (JStr (error_message error)))]) false ;;;
       ret (reply POST 500 [("error", Some (JStr "Inference failed"));
                            ("details", Some (JStr (error_message error)))])).

(** The asynchronous branch. *)
Definition asynchronous (jobId : string) (input : json) : M Response :=
  let inputKey := "jobs/" +:+ jobId +:+ "/input.json" in
  put_object env inputKey input ;;;
  SageMakerService.invoke_endpoint_async env
    ("s3://" +:+ input_bucket env +:+ "/" +:+ inputKey) jobId ;;;
  ret (reply POST 202
         [("jobId", Some (JStr jobId));
          ("status", Some (JStr "PENDING"));
          ("message",
           Some (JStr "Job submitted successfully. First inference may take up to 60 seconds due to cold start."));
          ("estimatedWaitTime", Some (JStr "60-120 seconds"))]).

(** The record is created, then the inference dispatched. *)
Definition create_and_dispatch (event : Event) (body : json) : M Response :=
  let jobId := fresh_id env in
  let userId := getUserId event in
  timestamp <- now env ;;
  prompt <- lift (trimmed_prompt body) ;;
  let params := inferenceParams body prompt in
  let mode := Js.or (Js.field body "mode") (Some (JStr "async")) in
  let job := jobItem jobId userId timestamp params mode in
  put_item env (marshall job []) false ;;;
  if Js.strict_eq mode (Some (JStr "async"))
  then asynchronous jobId (inputData params)
  else synchronous jobId job (inputData params).

(** [JSON.parse(event.body || '{}')] *)
Definition parsed_body (event : Event) : option json :=
  match body event with
  | NoBody => Some (JObj [])
  | Malformed => None
  | Parsed j => Some j
  end.

(** The body of the handler's outer [try]. *)
Definition submit (event : Event) : M Response :=
  match parsed_body event with
  | None =>
      ret (reply POST 400 [("error", Some (JStr "Invalid JSON in request body"))])
  | Some body =>
      validationErrors <- lift (validateInput body) ;;
      match validationErrors with
      | _ :: _ =>
          ret (reply POST 400
                 [("error", Some (JStr "Validation failed"));
                  ("details", Some (JArr (JStr <$> validationErrors)))])
      | [] => create_and_dispatch event body
      end
  end.

Definition handler (event : Event) (w : World) : Response * World :=
  match submit event w with
  | (Return response, w') => (response, w')
  | (Throw error, w') =>
      (reply POST 500 [("error", Some (JStr "Internal server error"));
                       ("details", Some (JStr (error_message error)))], w')
  end.

End SubmitJobLambda.
End SubmitJobLambda.

(** *** [lambda-src/get-job.js] *)

Module GetJobLambda.
Section GetJobLambda.

Context (env : Env).

Definition GET : string := "OPTIONS,GET".

(** [job.userId !== userId && userId !== 'admin'] *)
Definition denied (job : item) (userId : option json) : bool :=
  negb (Js.strict_eq (job !! "userId") userId)
  && negb (Js.strict_eq userId (Some (JStr "admin"))).

Definition status_fields (job : item) : list (string * option json) :=
  if GetJob.status_is job SUCCEEDED then
    [("imageUrl",
      if Js.truthy (job !! "imageUrl") then job !! "imageUrl"
      else if Js.truthy (job !! "outputKey")
           then match job !! "outputKey" ≫= presigned_url env with
                | Some url => if decide (url = "") then None else Some (JStr url)
                | None => None
                end
           else None);
     ("metadata", if Js.truthy (job !! "metadata") then job !! "metadata" else None);
     ("timings", if Js.truthy (job !! "timings") then job !! "timings" else None)]
  else if GetJob.status_is job FAILED then
    [("error", if Js.truthy (job !! "error") then job !! "error" else None)]
  else if GetJob.status_is job PENDING || GetJob.status_is job RUNNING then
    [("estimatedCompletion",
      Some (JStr
        (if GetJob.below (GetJob.elapsedMinutes env (job !! "createdAt")) 2
         then "Processing... First inference may take up to 60 seconds due to cold start."
         else "Processing... Should complete within the next few minutes.")))]
  else [].

Definition get (event : Event) : M Response :=
  match pathId event with
  | None | Some "" => ret (reply GET 400 [("error", Some (JStr "Job ID is required"))])
  | Some jobId =>
      let userId := getUserId event in
      found <- get_item env jobId ;;
      match found with
      | None => ret (reply GET 404 [("error", Some (JStr "Job not found"))])
      | Some job =>
          if denied job userId
          then ret (reply GET 403 [("error", Some (JStr "Access denied"))])
          else ret (reply GET 200
                      ([("jobId", job !! "jobId");
                        ("status", job !! "status");
                        ("createdAt", job !! "createdAt");
                        ("updatedAt", job !! "updatedAt");
                        ("inputParams", job !! "inputParams")]
                         ++ status_fields job))
      end
  end.

Definition handler (event : Event) (w : World) : Response * World :=
  match get event w with
  | (Return response, w') => (response, w')
  | (Throw error, w') =>
      (reply GET 500 [("error", Some (JStr "Internal server error"));
                      ("details", Some (JStr (error_message error)))], w')
  end.

End GetJobLambda.
End GetJobLambda.

(** *** The callback handler of the worker pool

    The handler that the notifications of the asynchronous endpoint
    invoke; in [src] it is the JavaScript text that follows
    [modules/auth/outputs.tf]. *)

(** [record.EventSource], [record.Sns.TopicArn] and
    [JSON.parse(record.Sns.Message)] of a record of the event. *)
Record SnsRecord : Type := {
  EventSource : string;
  TopicArn : string;
  Message : Body
}.

(** [event.Records], [None] when the event has none. *)
Record SnsEvent : Type := {
  Records : option (list SnsRecord)
}.

Module Callback.
Section Callback.

(** [IMAGES_BUCKET] is [process.env.IMAGES_BUCKET]. *)
Context (env : Env) (IMAGES_BUCKET : string).

(** The text up to the first solidus, and the text after it. *)
Fixpoint up_to_solidus (s : string) : option (string * string) :=
  match s with
  | EmptyString => None
  | String c rest =>
      if Ascii.eqb c "/" then Some (EmptyString, rest)
      else (fun found => (String c found.1, found.2)) <$> up_to_solidus rest
  end.

(** No line terminator, which [.] of a regular expression does not
    match. *)
Fixpoint one_line (s : string) : bool :=
  match s with
  | EmptyString => true
  | String c rest =>
      negb (Ascii.eqb c "010" || Ascii.eqb c "013") && one_line rest
  end.

(** [parseS3Uri(s3Uri)]: the match of [^s3:\/\/([^\/]+)\/(.+)$]. *)
Definition parseS3Uri (s3Uri : json) : outcome (string * string) :=
  match s3Uri with
  | JStr s =>
      let invalid := Throw (Error "Error" ("Invalid S3 URI: " +:+ s)) in
      if String.prefix "s3://" s then
        match up_to_solidus (Js.skip 5 s) with
        | Some (bucket, key) =>
            if negb (bool_decide (bucket = "")) && negb (bool_decide (key = ""))
               && one_line key
            then Return (bucket, key)
            else invalid
        | None => invalid
        end
      else invalid
  | _ => Throw (Error "TypeError" "s3Uri.match is not a function")
  end.

(** [generateImageFilename(jobId, originalFilename)] *)
Definition generateImageFilename (jobId : json) (originalFilename : string)
  : string :=
  let number_text := fun q => json_text env (JNum q) in
  let timestamp := number_text (Js.of_Z (epoch_millis env)) in
  let popped := Js.last_segment originalFilename in
  let extension := if decide (popped = "") then "png" else popped in
  "generated/" +:+ Js.to_string number_text jobId +:+ "/" +:+ timestamp
    +:+ "." +:+ extension.

(** The names under which the image is looked for. *)
Definition possibleImageKeys (key : string) : list string :=
  [key +:+ "/generated_image.png";
   key +:+ "/output.png";
   key +:+ "/image.png";
   key +:+ "/result.png";
   Js.replace_first ".out" "" key +:+ ".png";
   key +:+ "/0.png"].

(** The loop over the possible keys: the first that can be read. *)
Fixpoint find_image (bucket : string) (candidates : list string)
  : M (option string) :=
  match candidates with
  | [] => ret None
  | possibleKey :: rest =>
      try_catch
        (get_object env bucket possibleKey ;;; ret (Some possibleKey))
        (fun error => find_image bucket rest)
  end.

(** [Object.keys(metadata).length > 0] *)
Definition has_keys (metadata : json) : outcome bool :=
  match metadata with
  | JNull => Throw (Error "TypeError" "Cannot convert undefined or null to object")
  | JObj fields => Return (negb (bool_decide (fields = [])))
  | JArr l => Return (negb (bool_decide (l = [])))
  | JStr s => Return (negb (bool_decide (s = "")))
  | JBool _ | JNum _ => Return false
  end.

(** The update that marks a job as failed. *)
Definition failed_update (jobId : json) (message : json) : M unit :=
  updatedAt <- now env ;;
  update_item_unconditional env jobId
    [("status", JStr "FAILED"); ("updatedAt", JStr updatedAt);
     ("error", message)].

(** [processSuccess(jobId, outputLocation)].  The key of the copied
    image is declared inside the block that copies it; the later block
    that adds the image to the update reads it out of scope, which
    throws. *)
Definition processSuccess (jobId outputLocation : json) : M unit :=
  try_catch
    (location <- lift (parseS3Uri outputLocation) ;;
     let bucket := location.1 in
     let key := location.2 in
     metadata <-
       try_catch
         (reply <- get_object env bucket (key +:+ "/output.json") ;;
          match reply with
          | Parsed content => ret content
          | NoBody =>
              throw (Error "TypeError"
                       "Cannot read properties of undefined (reading 'transformToString')")
          | Malformed => throw (Error "SyntaxError" "Unexpected token in JSON")
          end)
         (fun error => ret (JObj [])) ;;
     imageKey <- find_image bucket (possibleImageKeys key) ;;
     imageUrl <-
       match imageKey with
       | Some imageKey =>
           let publicImageKey := generateImageFilename jobId imageKey in
           (createdAt <- now env ;;
            copy_object env (bucket +:+ "/" +:+ imageKey) IMAGES_BUCKET
              publicImageKey ;;;
            ret (Some ("https://" +:+ IMAGES_BUCKET +:+ ".s3.amazonaws.com/"
                         +:+ publicImageKey)))
       | None => ret None
       end ;;
     updatedAt <- now env ;;
     completedAt <- now env ;;
     match imageUrl with
     | Some url =>
         throw (Error "ReferenceError" "publicImageKey is not defined")
     | None =>
         described <- lift (has_keys metadata) ;;
         update_item_unconditional env jobId
           ([("status", JStr "SUCCEEDED"); ("updatedAt", JStr updatedAt);
             ("completedAt", JStr completedAt)]
              ++ (if described : bool
                  then [("metadata", JStr (json_text env metadata))]
                  else []))
     end)
    (fun error =>
       failed_update jobId
         (JStr ("Failed to process inference result: " +:+ error_message error))).

(** [processError(jobId, errorMessage)]: a failure of the update is
    logged and dropped. *)
Definition processError (jobId errorMessage : json) : M unit :=
  try_catch (failed_update jobId errorMessage) (fun error => ret tt).

(** The body of the loop over the records. *)
Definition process (record : SnsRecord) : M unit :=
  if negb (bool_decide (EventSource record = "aws:sns")) then ret tt
  else
    message <-
      match Message record with
      | Parsed message => ret message
      | NoBody | Malformed =>
          throw (Error "SyntaxError" "Unexpected token in JSON")
      end ;;
    inferenceId <- lift (Js.get message "inferenceId") ;;
    match Js.or inferenceId (Js.field message "InferenceId") with
    | Some jobId =>
        if negb (Js.truthy (Some jobId)) then ret tt
        else if Js.contains "success" (TopicArn record) then
          match Js.or (Js.field message "outputLocation")
                      (Js.field message "OutputLocation") with
          | Some outputLocation =>
              if Js.truthy (Some outputLocation)
              then processSuccess jobId outputLocation
              else processError jobId
                     (JStr "No output location provided in success notification")
          | None =>
              processError jobId
                (JStr "No output location provided in success notification")
          end
        else if Js.contains "error" (TopicArn record) then
          match Js.or (Js.or (Js.field message "errorMessage")
                             (Js.field message "ErrorMessage"))
                      (Some (JStr "Inference failed")) with
          | Some errorMessage => processError jobId errorMessage
          | None => ret tt
          end
        else ret tt
    | None => ret tt
    end.

Fixpoint process_all (records : list SnsRecord) : M unit :=
  match records with
  | [] => ret tt
  | record :: rest => process record ;;; process_all rest
  end.

(** [handler(event)] *)
Definition handler (event : SnsEvent) (w : World) : Response * World :=
  let attempt :=
    match Records event with
    | Some records => process_all records
    | None => throw (Error "TypeError" "event.Records is not iterable")
    end in
  match attempt w with
  | (Return _, w') =>
      ({| statusCode := 200; headers := [];
          payload_of :=
            Json (Js.obj [("message",
                           Some (JStr "Callback processed successfully"))]) |},
       w')
  | (Throw error, w') =>
      ({| statusCode := 500; headers := [];
          payload_of :=
            Json (Js.obj [("error", Some (JStr "Failed to process callback"));
                          ("details", Some (JStr (error_message error)))]) |},
       w')
  end.

End Callback.
End Callback.

(** * Properties *)

(** ** Relations that every step of a computation maintains *)

(** [maintains R m]: every run of [m] relates the world it starts in to
    the world it ends in, whether it returns or throws. *)
Definition maintains (R : relation World) {A} (m : M A) : Prop :=
  forall w r w', m w = (r, w') -> R w w'.

Section Maintains.

Context (R : relation World) `{!PreOrder R}.

Lemma maintains_ret {A} (a : A) : maintains R (ret a).
Proof. intros w r w' [= _ <-]. reflexivity. Qed.

Lemma maintains_throw {A} e : maintains R (@throw A e).
Proof. intros w r w' [= _ <-]. reflexivity. Qed.

Lemma maintains_lift {A} (o : outcome A) : maintains R (lift o).
Proof. intros w r w' [= _ <-]. reflexivity. Qed.

Lemma maintains_bind {A B} (m : M A) (k : A -> M B) :
  maintains R m -> (forall a, maintains R (k a)) -> maintains R (bind m k).
Proof.
  intros Hm Hk w r w'. unfold bind.
  destruct (m w) as [[a|e] w1] eqn:E; intros H.
  - etrans; [exact (Hm _ _ _ E) | exact (Hk _ _ _ _ H)].
  - injection H as _ <-. exact (Hm _ _ _ E).
Qed.

Lemma maintains_try_catch {A} (m : M A) (h : error -> M A) :
  maintains R m -> (forall e, maintains R (h e)) -> maintains R (try_catch m h).
Proof.
  intros Hm Hh w r w'. unfold try_catch.
  destruct (m w) as [[a|e] w1] eqn:E; intros H.
  - injection H as _ <-. exact (Hm _ _ _ E).
  - etrans; [exact (Hm _ _ _ E) | exact (Hh _ _ _ _ H)].
Qed.

End Maintains.

(** The jobs table and the staging bucket are as before and no request
    was issued: only the clock may have been read. *)
Definition untouched (w w' : World) : Prop :=
  db w' = db w /\ staging w' = staging w /\ sent w' = sent w.

(** The jobs table is as before except, possibly, under [k]. *)
Definition same_but (k : string) (w w' : World) : Prop :=
  forall j, j <> k -> db w' !! j = db w !! j.

(** The jobs table is as before. *)
Definition same_db (w w' : World) : Prop := db w' = db w.

Global Instance untouched_preorder : PreOrder untouched.
Proof.
  split.
  - intros w. by repeat split.
  - intros a b c (?&?&?) (?&?&?). repeat split; congruence.
Qed.

Global Instance same_but_preorder k : PreOrder (same_but k).
Proof.
  split.
  - by intros w j _.
  - intros a b c H1 H2 j Hj. rewrite (H2 j Hj). by apply H1.
Qed.

Global Instance same_db_preorder : PreOrder same_db.
Proof. split; [by intros w | intros a b c; unfold same_db; congruence]. Qed.

Lemma same_db_same_but k w w' : same_db w w' -> same_but k w w'.
Proof. intros H j _. by rewrite H. Qed.

Lemma untouched_same_db w w' : untouched w w' -> same_db w w'.
Proof. by intros (?&_). Qed.

Section Primitives.

Context (env : Env).

Lemma now_untouched : maintains untouched (now env).
Proof. intros w r w' [= _ <-]. by repeat split. Qed.

Lemma send_fault {A} r (apply : nat -> World -> outcome A * World) w e :
  fault env (length (sent w)) = Some e ->
  send env r apply w
  = (Throw e, {| db := db w; staging := staging w; sent := r :: sent w;
                 ticks := ticks w |}).
Proof. unfold send. by intros ->. Qed.

Lemma send_ok {A} r (apply : nat -> World -> outcome A * World) w :
  fault env (length (sent w)) = None ->
  send env r apply w
  = apply (length (sent w))
      {| db := db w; staging := staging w; sent := r :: sent w;
         ticks := ticks w |}.
Proof. unfold send. by intros ->. Qed.

(** A request that leaves the table alone. *)
Lemma send_same_db {A} r (apply : nat -> World -> outcome A * World) :
  (forall n w, db (apply n w).2 = db w) -> maintains same_db (send env r apply).
Proof.
  intros H w o w'. unfold send.
  destruct (fault env _).
  - by intros [= _ <-].
  - intros E. unfold same_db.
    specialize (H (length (sent w))
                  {| db := db w; staging := staging w; sent := r :: sent w;
                     ticks := ticks w |}).
    by rewrite E in H.
Qed.

Lemma put_item_same_but it c k :
  item_key it = Some k -> maintains (same_but k) (put_item env it c).
Proof.
  intros Hk w o w'. unfold put_item, send. rewrite Hk.
  destruct (fault env _); [by intros [= _ <-]|].
  simpl. case_match; intros [= _ <-]; intros j Hj; simpl; [done|].
  by rewrite lookup_insert_ne.
Qed.

Lemma update_item_same_but k sets : maintains (same_but k) (update_item env k sets).
Proof.
  intros w o w'. unfold update_item, send.
  destruct (fault env _); [by intros [= _ <-]|].
  simpl. repeat case_match; intros [= _ <-]; intros j Hj; simpl; try done.
  by rewrite lookup_insert_ne.
Qed.

Lemma get_item_same_db k : maintains same_db (get_item env k).
Proof. by apply send_same_db. Qed.

Lemma put_object_same_db k v : maintains same_db (put_object env k v).
Proof. by apply send_same_db. Qed.

End Primitives.

(** ** What [updateJobStatus] writes *)

Section UpdateJobStatus.

Context (env : Env).

(** The clauses of the update expression when the clock has been read
    [n] times before. *)
Definition assignments (status : JobStatusType) (updates : item) (n : nat)
  : list (string * json) :=
  [("status", JStr (status_name status)); ("updatedAt", JStr (clock env n))]
    ++ (if is_final status then [("completedAt", JStr (clock env (S n)))] else [])
    ++ DynamoDBService.optional_updates updates.

(** The record after the update. *)
Definition updated (status : JobStatusType) (updates : item) (n : nat)
    (it : item) : item :=
  list_to_map (assignments status updates n) ∪ it.

(** Clock readings of one call. *)
Definition readings (status : JobStatusType) : nat :=
  if is_final status then 2 else 1.

Definition after_update (jobId : string) (status : JobStatusType)
    (updates : item) (w : World) (d : gmap string item) : World :=
  {| db := d; staging := staging w;
     sent := UpdateItem jobId (assignments status updates (ticks w)) :: sent w;
     ticks := readings status + ticks w |}.

Lemma optional_updates_lookup updates k :
  (list_to_map (DynamoDBService.optional_updates updates) : item) !! k
  = if decide (k = "jobId" \/ k = "status" \/ k = "updatedAt") then None
    else updates !! k.
Proof.
  unfold DynamoDBService.optional_updates.
  rewrite list_to_map_to_list, map_lookup_filter.
  destruct (updates !! k) as [v|] eqn:E; simpl.
  - case_guard as G; simpl in G; case_decide; naive_solver.
  - by case_decide.
Qed.

Lemma optional_updates_keys updates k :
  k ∈ (DynamoDBService.optional_updates updates).*1 ->
  k <> "jobId" /\ k <> "status" /\ k <> "updatedAt" /\ is_Some (updates !! k).
Proof.
  intros ((k'&v)&->&Hin)%list_elem_of_fmap. simpl.
  apply elem_of_map_to_list, map_lookup_filter_Some in Hin.
  naive_solver.
Qed.

(** The update expression names no attribute twice, unless [updates]
    itself brings a completion time to a final status. *)
Lemma assignments_NoDup status updates n :
  (is_final status = true -> updates !! "completedAt" = None) ->
  NoDup (assignments status updates n).*1.
Proof.
  intros Hc. unfold assignments.
  assert (NoDup (DynamoDBService.optional_updates updates).*1) as Hopt
    by apply NoDup_fst_map_to_list.
  assert (forall k, k ∈ (DynamoDBService.optional_updates updates).*1 ->
                    k <> "status" /\ k <> "updatedAt"
                    /\ (is_final status = true -> k <> "completedAt")) as Hk.
  { intros k (?&?&?&[v Hv])%optional_updates_keys. repeat split; try done.
    intros Hf ->. rewrite (Hc Hf) in Hv. done. }
  destruct (is_final status); simpl; repeat (apply NoDup_cons; split);
    try done; rewrite ?elem_of_cons; intros Hin;
    repeat (destruct Hin as [Hin|Hin]; [done|]);
    apply Hk in Hin; naive_solver.
Qed.

Lemma updated_status status updates n it :
  updated status updates n it !! "status" = Some (JStr (status_name status)).
Proof. unfold updated, assignments. simpl. apply lookup_union_Some_l, lookup_insert_eq. Qed.

Lemma updated_completedAt status updates n it :
  is_final status = true ->
  updates !! "completedAt" = None ->
  updated status updates n it !! "completedAt" = Some (JStr (clock env (S n))).
Proof.
  intros Hf Hc. unfold updated, assignments. rewrite Hf. simpl.
  apply lookup_union_Some_l. by simplify_map_eq.
Qed.

(** An attribute other than the stamps is the one given in [updates]
    (the key [jobId] apart), and otherwise the one the record had. *)
Lemma updated_other status updates n it k :
  k <> "status" -> k <> "updatedAt" -> k <> "completedAt" ->
  updated status updates n it !! k
  = if decide (k = "jobId") then it !! k
    else match updates !! k with Some v => Some v | None => it !! k end.
Proof.
  intros H1 H2 H3. unfold updated, assignments.
  rewrite lookup_union. simpl.
  rewrite !lookup_insert_ne by done.
  rewrite list_to_map_app, lookup_union.
  assert ((list_to_map (if is_final status
                        then [("completedAt", JStr (clock env (S n)))]
                        else []) : item) !! k = None) as ->.
  { destruct (is_final status); simpl; by simplify_map_eq. }
  rewrite optional_updates_lookup.
  repeat case_decide; try naive_solver;
    destruct (updates !! k), (it !! k); done.
Qed.

(** A final status apart, the completion time is handled like any
    other attribute. *)
Lemma updated_completedAt_kept status updates n it :
  is_final status = false ->
  updated status updates n it !! "completedAt"
  = match updates !! "completedAt" with
    | Some v => Some v
    | None => it !! "completedAt"
    end.
Proof.
  intros Hf. unfold updated, assignments. rewrite Hf. simpl.
  rewrite lookup_union, !lookup_insert_ne by done.
  rewrite optional_updates_lookup. case_decide; [naive_solver|].
  destruct (updates !! "completedAt"), (it !! "completedAt"); done.
Qed.

Lemma updateJobStatus_clock jobId status updates w :
  DynamoDBService.updateJobStatus env jobId status updates w
  = try_catch
      (update_item env jobId (assignments status updates (ticks w)))
      (fun error =>
         if decide (error_name error = "ConditionalCheckFailedException")
         then throw (NotFoundError ("Job " +:+ jobId +:+ " not found"))
         else throw (InternalError "Failed to update job status" error))
      {| db := db w; staging := staging w; sent := sent w;
         ticks := readings status + ticks w |}.
Proof.
  unfold DynamoDBService.updateJobStatus, try_catch, bind, now, assignments, readings.
  destruct (is_final status); reflexivity.
Qed.

(** On an existing record, whatever its status, the update is applied. *)
Lemma updateJobStatus_existing jobId status updates w it :
  fault env (length (sent w)) = None ->
  (is_final status = true -> updates !! "completedAt" = None) ->
  db w !! jobId = Some it ->
  DynamoDBService.updateJobStatus env jobId status updates w
  = (Return tt,
     after_update jobId status updates w
       (<[jobId := updated status updates (ticks w) it]> (db w))).
Proof.
  intros Hfault Hc Hit. rewrite updateJobStatus_clock.
  unfold try_catch, update_item. rewrite send_ok by done. simpl.
  rewrite bool_decide_eq_true_2 by by apply assignments_NoDup.
  simpl. by rewrite Hit.
Qed.

(** With no record under the identifier, nothing is written. *)
Lemma updateJobStatus_missing jobId status updates w :
  fault env (length (sent w)) = None ->
  (is_final status = true -> updates !! "completedAt" = None) ->
  db w !! jobId = None ->
  DynamoDBService.updateJobStatus env jobId status updates w
  = (Throw (NotFoundError ("Job " +:+ jobId +:+ " not found")),
     after_update jobId status updates w (db w)).
Proof.
  intros Hfault Hc Hit. rewrite updateJobStatus_clock.
  unfold try_catch, update_item. rewrite send_ok by done. simpl.
  rewrite bool_decide_eq_true_2 by by apply assignments_NoDup.
  simpl. by rewrite Hit.
Qed.

Lemma updateJobStatus_same_but jobId status updates :
  maintains (same_but jobId)
            (DynamoDBService.updateJobStatus env jobId status updates).
Proof.
  unfold DynamoDBService.updateJobStatus.
  apply maintains_try_catch; [apply _| |].
  - apply maintains_bind; [apply _| |intros t].
    + intros ???. intros H%now_untouched%untouched_same_db. by apply same_db_same_but.
    + apply maintains_bind; [apply _| |intros c; apply update_item_same_but].
      destruct (is_final status); [|apply maintains_ret; apply _].
      apply maintains_bind; [apply _| |intros; apply maintains_ret; apply _].
      intros ???. intros H%now_untouched%untouched_same_db. by apply same_db_same_but.
  - intros e. case_decide; apply maintains_throw; apply _.
Qed.

End UpdateJobStatus.

(** ** Sample surroundings *)

(** A clock that advances with each reading. *)
Definition sample_clock (n : nat) : string :=
  match n with
  | 0 => "2024-01-01T00:00:00.000Z"
  | 1 => "2024-01-01T00:00:00.001Z"
  | 2 => "2024-01-01T00:00:05.000Z"
  | 3 => "2024-01-01T00:00:05.001Z"
  | _ => "2024-01-01T00:01:00.000Z"
  end%nat.

(** Surroundings in which every service answers. *)
Definition calm : Env :=
  {| clock := sample_clock;
     epoch_millis := 1704067200000;
     date_millis := fun _ => Some 1704067200000%Z;
     fresh_id := "01HK153X00";
     random_seed := 42;
     fault := fun _ => None;
     output_location := fun _ => Some "s3://output/location";
     reply_body := fun _ =>
       Parsed (JObj [("generated_image", JStr "base64-encoded-image");
                     ("metadata", JObj [("generation_time_seconds", JNum 15.5%Q)])]);
     json_text := fun _ => "{}";
     json_parse := fun _ => Some (JObj []);
     presigned_url := fun _ => Some "https://images.example/signed";
     input_bucket := "inference-input";
     development := false |}.

(** The same surroundings, except that the request numbered [n] fails. *)
Definition failing (n : nat) (e : error) : Env :=
  {| clock := clock calm; epoch_millis := epoch_millis calm;
     date_millis := date_millis calm; fresh_id := fresh_id calm;
     random_seed := random_seed calm;
     fault := fun i => if decide (i = n) then Some e else None;
     output_location := output_location calm; reply_body := reply_body calm;
     json_text := json_text calm; json_parse := json_parse calm;
     presigned_url := presigned_url calm; input_bucket := input_bucket calm;
     development := development calm |}.

Definition empty_world : World :=
  {| db := ∅; staging := ∅; sent := []; ticks := 0 |}.

(** A job record as the submit handler creates it. *)
Definition sample_job (jobId owner : string) (status : JobStatusType) : item :=
  list_to_map
    [("jobId", JStr jobId); ("userId", JStr owner);
     ("status", JStr (status_name status));
     ("createdAt", JStr "2023-12-31T23:59:00.000Z");
     ("updatedAt", JStr "2023-12-31T23:59:00.000Z");
     ("mode", JStr "async")].

Definition world_with (job : item) : World :=
  {| db := from_option (fun k => {[k := job]}) ∅ (item_key job);
     staging := ∅; sent := []; ticks := 0 |}.

(** The status a record carries. *)
Definition status_of (job : option item) : option string :=
  match job ≫= (.!! "status") with
  | Some (JStr s) => Some s
  | _ => None
  end.

(** ** C1: the condition of [updateJobStatus] *)

(** A success signal for a job: the status and the result reference. *)
Definition success_signal : item := {["imageUrl" := JStr "https://images.example/a.png"]}.

(** C1 as stated fails: [updateJobStatus] accepts a completion for a job
    that is PENDING, not RUNNING; and a second delivery of the same
    completion against the then terminal job is accepted as well and
    changes the stored record: it carries a new completion time. *)
Lemma completion_not_keyed_on_state :
  let w := world_with (sample_job "J1" "alice" PENDING) in
  let first := DynamoDBService.updateJobStatus calm "J1" SUCCEEDED success_signal w in
  let second :=
    DynamoDBService.updateJobStatus calm "J1" SUCCEEDED success_signal first.2 in
  status_of (db w !! "J1") = Some "PENDING"
  /\ first.1 = Return tt
  /\ status_of (db first.2 !! "J1") = Some "SUCCEEDED"
  /\ second.1 = Return tt
  /\ db second.2 !! "J1" ≫= (.!! "completedAt")
     <> db first.2 !! "J1" ≫= (.!! "completedAt").
Proof. vm_compute. repeat split; done. Qed.

(** The clause for [updatedAt] is the first reading of the clock. *)
Lemma updated_updatedAt env status updates n it :
  updated env status updates n it !! "updatedAt" = Some (JStr (clock env n)).
Proof.
  unfold updated, assignments. simpl. apply lookup_union_Some_l.
  rewrite lookup_insert_ne by done. apply lookup_insert_eq.
Qed.

(** An update that brings a completion time of its own to a final status
    names [completedAt] twice; the table refuses the expression, whether
    or not the record exists, and nothing is written. *)
Lemma updateJobStatus_overlapping env jobId status updates w :
  fault env (length (sent w)) = None ->
  is_final status = true ->
  is_Some (updates !! "completedAt") ->
  DynamoDBService.updateJobStatus env jobId status updates w
  = (Throw (InternalError "Failed to update job status"
              (ValidationException "Two document paths overlap with each other")),
     after_update env jobId status updates w (db w)).
Proof.
  intros Hfault Hf [v Hv]. rewrite updateJobStatus_clock.
  unfold try_catch, update_item. rewrite send_ok by done. simpl.
  rewrite bool_decide_eq_false_2; [done|].
  unfold assignments. rewrite Hf. simpl.
  intros Hnd. apply NoDup_cons in Hnd as [_ Hnd]. apply NoDup_cons in Hnd as [_ Hnd].
  apply NoDup_cons in Hnd as [Hnin _]. apply Hnin.
  apply list_elem_of_fmap. exists ("completedAt", v). split; [done|].
  unfold DynamoDBService.optional_updates.
  apply elem_of_map_to_list, map_lookup_filter_Some. by repeat split.
Qed.

(** C1 (amended).  [updateJobStatus] is a conditional update keyed on the
    existence of the record, not on its state.  When the request reaches
    the table:
    - an update that itself brings a completion time to a final status
      is refused by the table and surfaces as an [InternalError]; nothing
      is written;
    - otherwise, with no record under the identifier it throws
      [NotFoundError] and the table is as before;
    - otherwise, on an existing record, whatever its status, it returns;
      the record then carries the new status, the first clock reading of
      the call as [updatedAt], for a final status the second reading as
      [completedAt] (and else the completion time given in [updates], or
      the one it had), the attributes given in [updates] (the key apart)
      and otherwise the attributes it had;
    - delivered a second time it returns again; the record then carries
      the clock reading of the second call as [updatedAt] and differs from
      the one after the first delivery in [updatedAt] and [completedAt]
      at most: same status, same result reference. *)
Theorem updateJobStatus_keyed_on_existence env jobId status updates w :
  fault env (length (sent w)) = None ->
  exists r w',
    DynamoDBService.updateJobStatus env jobId status updates w = (r, w')
    /\ if is_final status && bool_decide (is_Some (updates !! "completedAt"))
       then r = Throw (InternalError "Failed to update job status"
                         (ValidationException
                            "Two document paths overlap with each other"))
            /\ db w' = db w
       else
         match db w !! jobId with
         | None =>
             r = Throw (NotFoundError ("Job " +:+ jobId +:+ " not found"))
             /\ db w' = db w
         | Some it =>
             r = Return tt
             /\ exists it',
                  db w' = <[jobId := it']> (db w)
                  /\ it' !! "status" = Some (JStr (status_name status))
                  /\ it' !! "updatedAt" = Some (JStr (clock env (ticks w)))
                  /\ it' !! "completedAt"
                     = (if is_final status
                        then Some (JStr (clock env (S (ticks w))))
                        else match updates !! "completedAt" with
                             | Some v => Some v
                             | None => it !! "completedAt"
                             end)
                  /\ (forall k, k <> "status" -> k <> "updatedAt" ->
                                k <> "completedAt" ->
                        it' !! k = if decide (k = "jobId") then it !! k
                                   else match updates !! k with
                                        | Some v => Some v
                                        | None => it !! k
                                        end)
                  /\ (fault env (S (length (sent w))) = None ->
                      exists w'' it'',
                        DynamoDBService.updateJobStatus env jobId status updates w'
                        = (Return tt, w'')
                        /\ db w'' = <[jobId := it'']> (db w)
                        /\ it'' !! "updatedAt" = Some (JStr (clock env (ticks w')))
                        /\ (forall k, k <> "updatedAt" -> k <> "completedAt" ->
                                      it'' !! k = it' !! k)
                        /\ (is_final status = false ->
                            it'' !! "completedAt" = it' !! "completedAt"))
         end.
Proof.
  intros Hfault.
  destruct (is_final status && bool_decide (is_Some (updates !! "completedAt")))
    eqn:Hover.
  { apply andb_true_iff in Hover as [Hf Hc%bool_decide_eq_true].
    eexists _, _. split; [by apply updateJobStatus_overlapping|]. by split. }
  assert (is_final status = true -> updates !! "completedAt" = None) as Hc.
  { intros Hf. rewrite Hf in Hover. simpl in Hover.
    apply bool_decide_eq_false in Hover. by apply eq_None_not_Some. }
  destruct (db w !! jobId) as [it|] eqn:Hit.
  - eexists _, _. split; [by apply updateJobStatus_existing|].
    split; [done|]. eexists. split; [reflexivity|].
    split; [apply updated_status|]. split; [apply updated_updatedAt|].
    split.
    { destruct (is_final status) eqn:Hf.
      - by apply updated_completedAt; [|apply Hc].
      - by apply updated_completedAt_kept. }
    split; [intros k ???; by apply updated_other|].
    intros Hfault'. eexists _, _.
    split.
    { apply updateJobStatus_existing; [done|done|]. simpl. apply lookup_insert_eq. }
    split; [simpl; by rewrite insert_insert_eq|].
    split; [apply updated_updatedAt|]. split.
    + intros k Hu Hcomp. destruct (decide (k = "status")) as [->|Hs].
      { by rewrite !updated_status. }
      rewrite !(updated_other _ _ _ _ _ k) by done.
      case_decide; [|destruct (updates !! k)]; done.
    + intros Hf. rewrite !updated_completedAt_kept by done.
      by destruct (updates !! "completedAt").
  - eexists _, _. split; [by apply updateJobStatus_missing|]. by split.
Qed.

Lemma updateJobStatus_keyed_on_existence_witness :
  let w := world_with (sample_job "J1" "alice" SUCCEEDED) in
  fault calm (length (sent w)) = None
  /\ exists w' it',
       DynamoDBService.updateJobStatus calm "J1" FAILED ∅ w = (Return tt, w')
       /\ db w' = <["J1" := it']> (db w)
       /\ it' !! "status" = Some (JStr "FAILED")
       /\ it' !! "updatedAt" = Some (JStr "2024-01-01T00:00:00.000Z")
       /\ it' !! "completedAt" = Some (JStr "2024-01-01T00:00:00.001Z").
Proof.
  split; [reflexivity|].
  destruct (updateJobStatus_keyed_on_existence calm "J1" FAILED ∅
              (world_with (sample_job "J1" "alice" SUCCEEDED)) eq_refl)
    as (r & w' & Hrun & H).
  change (is_final FAILED && bool_decide (is_Some ((∅ : item) !! "completedAt")))
    with false in H.
  change (db (world_with (sample_job "J1" "alice" SUCCEEDED)) !! "J1")
    with (Some (sample_job "J1" "alice" SUCCEEDED)) in H.
  destruct H as (-> & it' & H1 & H2 & H3 & H4 & _).
  exists w', it'. repeat split; assumption.
Defined.

(** ** Which records an invocation can change *)

Lemma maintains_weaken (R R' : relation World) {A} (m : M A) :
  (forall w w', R w w' -> R' w w') -> maintains R m -> maintains R' m.
Proof. intros HR Hm w r w' E. eapply HR, Hm, E. Qed.

(** Splits a goal [maintains R m] along the structure of [m]. *)
Ltac maintain :=
  repeat match goal with
    | |- maintains _ (ret _) => apply maintains_ret; apply _
    | |- maintains _ (throw _) => apply maintains_throw; apply _
    | |- maintains _ (lift _) => apply maintains_lift; apply _
    | |- maintains _ (bind _ _) => apply maintains_bind; [apply _ | | intros ?]
    | |- maintains _ (try_catch _ _) =>
        apply maintains_try_catch; [apply _ | | intros ?]
    | |- maintains _ (match _ with _ => _ end) => case_match; simplify_eq
    end.

Section Frames.

Context (env : Env).

Lemma now_same_db : maintains same_db (now env).
Proof. eapply maintains_weaken, now_untouched. apply untouched_same_db. Qed.

Lemma now_same_but k : maintains (same_but k) (now env).
Proof. eapply maintains_weaken, now_same_db. apply same_db_same_but. Qed.

Lemma createJob_same_but job k :
  item_key job = Some k ->
  maintains (same_but k) (DynamoDBService.createJob env job).
Proof.
  intros Hk. unfold DynamoDBService.createJob. maintain.
  by apply put_item_same_but.
Qed.

(** Creation is write-once: under an identifier that is taken,
    [createJob] throws and the table is as before. *)
Lemma createJob_existing job k w r w' :
  item_key job = Some k ->
  is_Some (db w !! k) ->
  DynamoDBService.createJob env job w = (r, w') ->
  db w' = db w /\ exists e, r = Throw (InternalError "Failed to create job" e).
Proof.
  intros Hk Hex. unfold DynamoDBService.createJob, try_catch, put_item, send.
  rewrite Hk. destruct (fault env _); simpl.
  - intros [= <- <-]. eauto.
  - rewrite bool_decide_eq_true_2 by done. intros [= <- <-]. eauto.
Qed.

(** On a free identifier, and when the request reaches the table, the
    record is stored. *)
Lemma createJob_fresh job k w :
  item_key job = Some k ->
  db w !! k = None ->
  fault env (length (sent w)) = None ->
  DynamoDBService.createJob env job w
  = (Return tt, {| db := <[k := job]> (db w); staging := staging w;
                   sent := PutItem job true :: sent w; ticks := ticks w |}).
Proof.
  intros Hk Hfree Hfault.
  unfold DynamoDBService.createJob, try_catch, put_item.
  rewrite send_ok by done. simpl. rewrite Hk, Hfree. reflexivity.
Qed.

Lemma invoke_endpoint_async_same_db l i :
  maintains same_db (SageMakerService.invoke_endpoint_async env l i).
Proof. by apply send_same_db. Qed.

Lemma invoke_endpoint_same_db b :
  maintains same_db (SageMakerService.invoke_endpoint env b).
Proof. by apply send_same_db. Qed.

Lemma invokeAsync_same_db jobId request :
  maintains same_db (SageMakerService.invokeAsync env jobId request).
Proof.
  unfold SageMakerService.invokeAsync. maintain;
    auto using now_same_db, put_object_same_db, invoke_endpoint_async_same_db.
Qed.

Lemma invokeSync_same_db request :
  maintains same_db (SageMakerService.invokeSync env request).
Proof.
  unfold SageMakerService.invokeSync. maintain;
    auto using invoke_endpoint_same_db.
Qed.

Lemma jobItem_key jobId userContext timestamp request :
  item_key (SubmitJob.jobItem env jobId userContext timestamp request)
  = Some jobId.
Proof.
  unfold item_key, SubmitJob.jobItem.
  by rewrite (lookup_union_Some_l _ _ _ (JStr jobId)) by by simplify_map_eq.
Qed.

Lemma synchronous_same_but jobId request :
  maintains (same_but jobId) (SubmitJob.synchronous env jobId request).
Proof.
  unfold SubmitJob.synchronous. maintain;
    auto using updateJobStatus_same_but.
  eapply maintains_weaken, invokeSync_same_db. apply same_db_same_but.
Qed.

Lemma asynchronous_same_but jobId request :
  maintains (same_but jobId) (SubmitJob.asynchronous env jobId request).
Proof.
  unfold SubmitJob.asynchronous. maintain;
    auto using updateJobStatus_same_but.
  eapply maintains_weaken, invokeAsync_same_db. apply same_db_same_but.
Qed.

Lemma create_and_dispatch_same_but userContext request :
  maintains (same_but (fresh_id env))
            (SubmitJob.create_and_dispatch env userContext request).
Proof.
  unfold SubmitJob.create_and_dispatch. maintain;
    auto using now_same_but, synchronous_same_but, asynchronous_same_but.
  apply createJob_same_but, jobItem_key.
Qed.

(** Under an identifier that is taken, nothing is written at all. *)
Lemma create_and_dispatch_existing userContext request w r w' :
  is_Some (db w !! fresh_id env) ->
  SubmitJob.create_and_dispatch env userContext request w = (r, w') ->
  db w' = db w /\ exists e, r = Throw (InternalError "Failed to create job" e).
Proof.
  intros Hex. unfold SubmitJob.create_and_dispatch, bind at 1, now. simpl.
  unfold bind.
  destruct (DynamoDBService.createJob _ _ _) as [o w1] eqn:E.
  eapply createJob_existing in E as [Hdb [e ->]];
    [|apply jobItem_key|done].
  intros [= <- <-]. eauto.
Qed.

Lemma submit_same_but event :
  maintains (same_but (fresh_id env)) (SubmitJob.submit env event).
Proof.
  unfold SubmitJob.submit. maintain. apply create_and_dispatch_same_but.
Qed.

(** A submit invocation leaves every record that exists as it is. *)
Lemma submit_keeps_existing event w j it :
  db w !! j = Some it ->
  db (SubmitJob.handler env event w).2 !! j = Some it.
Proof.
  intros Hj. unfold SubmitJob.handler.
  destruct (SubmitJob.submit env event w) as [r w'] eqn:E.
  assert (db w' !! j = Some it) as H; [|by destruct r].
  destruct (decide (j = fresh_id env)) as [->|Hne].
  - revert E. unfold SubmitJob.submit. case_decide.
    { by intros [= _ <-]. }
    unfold bind, lift. destruct (SubmitJob.validated event) as [a|e].
    + intros [Hdb _]%create_and_dispatch_existing; [|by eexists].
      by rewrite Hdb.
    + by intros [= _ <-].
  - rewrite <-Hj. by eapply submit_same_but.
Qed.

End Frames.

Section LambdaFrames.

Context (env : Env).

Lemma marshall_key jobId userId timestamp params mode changes :
  (forall v, ("jobId", v) ∉ changes) ->
  item_key (SubmitJobLambda.marshall
              (SubmitJobLambda.jobItem env jobId userId timestamp params mode)
              changes)
  = Some jobId.
Proof.
  intros Hc. unfold item_key, SubmitJobLambda.marshall.
  rewrite lookup_union_r.
  - unfold SubmitJobLambda.jobItem. simpl. by simplify_map_eq.
  - apply not_elem_of_list_to_map_1. intros Hin.
    apply list_elem_of_fmap in Hin as ((k&v)&Hk&Hin).
    apply list_elem_of_omap in Hin as ((k'&o)&Hin&Ho). simpl in *.
    destruct o; simplify_eq/=. by eapply Hc.
Qed.

Lemma lambda_synchronous_same_but jobId userId timestamp params mode input :
  maintains (same_but jobId)
    (SubmitJobLambda.synchronous env jobId
       (SubmitJobLambda.jobItem env jobId userId timestamp params mode) input).
Proof.
  unfold SubmitJobLambda.synchronous. maintain;
    try (apply now_same_but);
    try (apply put_item_same_but, marshall_key;
         intros v Hin; set_solver).
  eapply maintains_weaken, invoke_endpoint_same_db. apply same_db_same_but.
Qed.

Lemma lambda_asynchronous_same_db jobId input :
  maintains same_db (SubmitJobLambda.asynchronous env jobId input).
Proof.
  unfold SubmitJobLambda.asynchronous. maintain;
    auto using put_object_same_db, invoke_endpoint_async_same_db.
Qed.

Lemma lambda_submit_same_but event :
  maintains (same_but (fresh_id env)) (SubmitJobLambda.submit env event).
Proof.
  unfold SubmitJobLambda.submit, SubmitJobLambda.create_and_dispatch.
  maintain; try (apply now_same_but);
    try (apply put_item_same_but, marshall_key; intros v Hin; set_solver);
    try (apply lambda_synchronous_same_but).
  eapply maintains_weaken, lambda_asynchronous_same_db. apply same_db_same_but.
Qed.

Lemma get_same_db event : maintains same_db (GetJob.get env event).
Proof.
  unfold GetJob.get, DynamoDBService.getJob. maintain.
  apply get_item_same_db.
Qed.

Lemma lambda_get_same_db event : maintains same_db (GetJobLambda.get env event).
Proof. unfold GetJobLambda.get. maintain. apply get_item_same_db. Qed.

End LambdaFrames.

(** ** C3: the order of the states of a job *)

Definition is_terminal (job : item) : Prop :=
  status_of (Some job) = Some "SUCCEEDED" \/ status_of (Some job) = Some "FAILED".

(** C3 as stated fails: the job store moves a job that SUCCEEDED back to
    RUNNING when asked to. *)
Lemma terminal_job_moved_back :
  let w := world_with (sample_job "J1" "alice" SUCCEEDED) in
  let run := DynamoDBService.updateJobStatus calm "J1" RUNNING ∅ w in
  status_of (db w !! "J1") = Some "SUCCEEDED"
  /\ run.1 = Return tt
  /\ status_of (db run.2 !! "J1") = Some "RUNNING".
Proof. vm_compute. repeat split; done. Qed.

Lemma updated_terminal env status updates n it :
  is_final status = true -> is_terminal (updated env status updates n it).
Proof.
  intros Hf. unfold is_terminal, status_of. simpl. rewrite updated_status.
  destruct status; try done; auto.
Qed.

Lemma jobItem_no_completion env jobId userContext timestamp request :
  SubmitJob.jobItem env jobId userContext timestamp request !! "completedAt" = None.
Proof.
  unfold SubmitJob.jobItem. apply lookup_union_None_2; [by simplify_map_eq|].
  destruct (Js.field request "mode"); simpl; by simplify_map_eq.
Qed.

(** When [updateJobStatus] returns, the record was there and is updated. *)
Lemma updateJobStatus_returns env jobId status updates w w' :
  (is_final status = true -> updates !! "completedAt" = None) ->
  DynamoDBService.updateJobStatus env jobId status updates w = (Return tt, w') ->
  exists it, db w !! jobId = Some it
             /\ db w' = <[jobId := updated env status updates (ticks w) it]> (db w).
Proof.
  intros Hc. rewrite updateJobStatus_clock.
  unfold try_catch, update_item, send. simpl.
  destruct (fault env _); simpl.
  { by case_decide. }
  rewrite bool_decide_eq_true_2 by by apply assignments_NoDup.
  simpl. destruct (db w !! jobId) as [it|] eqn:Hit; simpl; [|done].
  intros [= <-]. eauto.
Qed.

(** *** The statuses one invocation writes *)

(** The place of a status along PENDING, RUNNING, then SUCCEEDED or
    FAILED. *)
Definition rank (status : string) : nat :=
  if decide (status = "PENDING") then 0
  else if decide (status = "RUNNING") then 1
  else 2.

(** The status a request asks the table to store. *)
Definition written_status (r : request) : option string :=
  match r with
  | PutItem it _ => status_of (Some it)
  | UpdateItem _ sets | UpdateItemUnconditional _ sets =>
      status_of (Some (list_to_map sets))
  | _ => None
  end.

(** The statuses asked for by a list of requests, the latest first. *)
Definition statuses (l : list request) : list string := omap written_status l.

(** No status is followed by one of lower rank. *)
Definition forward (latest_first : list string) : Prop :=
  StronglySorted (fun later earlier => rank earlier <= rank later) latest_first.

(** The requests issued from [w] to [w'], the latest first. *)
Definition issued (w w' : World) : list request :=
  take (length (sent w') - length (sent w)) (sent w').

(** Since [w0], statuses were asked for in forward order and none
    beyond rank [hi]. *)
Definition within (w0 : World) (hi : nat) (w : World) : Prop :=
  exists new, sent w = new ++ sent w0
              /\ forward (statuses new)
              /\ Forall (fun s => rank s <= hi) (statuses new).

(** [steps w0 a b m]: a run of [m] that starts within rank [a] ends
    within rank [b]. *)
Definition steps (w0 : World) (a b : nat) {A} (m : M A) : Prop :=
  forall w r w', within w0 a w -> m w = (r, w') -> within w0 b w'.

Section Steps.

Context (env : Env) (w0 : World).

Lemma within_start : within w0 0 w0.
Proof. exists []. repeat split; constructor. Qed.

Lemma within_weaken a b w : a <= b -> within w0 a w -> within w0 b w.
Proof.
  intros Hab (new & ? & ? & Hall). exists new. repeat split; try done.
  eapply Forall_impl; [exact Hall|]. simpl. lia.
Qed.

Lemma within_issued hi w : within w0 hi w -> forward (statuses (issued w0 w)).
Proof.
  intros (new & Hs & Hf & _). unfold issued. rewrite Hs, length_app.
  replace (length new + length (sent w0) - length (sent w0)) with (length new) by lia.
  by rewrite take_app_length.
Qed.

Lemma within_log_silent hi w r :
  written_status r = None ->
  within w0 hi w ->
  within w0 hi {| db := db w; staging := staging w; sent := r :: sent w;
                  ticks := ticks w |}.
Proof.
  intros Hr (new & Hs & Hf & Hall). exists (r :: new). simpl.
  unfold statuses in *. simpl. rewrite Hr, Hs. done.
Qed.

Lemma within_log_write hi w r s :
  written_status r = Some s ->
  hi <= rank s ->
  within w0 hi w ->
  within w0 (rank s) {| db := db w; staging := staging w; sent := r :: sent w;
                        ticks := ticks w |}.
Proof.
  intros Hr Hhi (new & Hs & Hf & Hall). exists (r :: new). simpl.
  unfold statuses in *. simpl. rewrite Hr, Hs. repeat split.
  - constructor; [done|]. eapply Forall_impl; [exact Hall|]. simpl. lia.
  - constructor; [done|]. eapply Forall_impl; [exact Hall|]. simpl. lia.
Qed.

Lemma steps_weaken {A} (m : M A) a b c :
  b <= c -> steps w0 a b m -> steps w0 a c m.
Proof. intros Hbc Hm w r w' Hw E. eapply within_weaken, Hm; eauto. Qed.

Lemma steps_ret {A} (x : A) a : steps w0 a a (ret x).
Proof. by intros w r w' Hw [= _ <-]. Qed.

Lemma steps_throw {A} e a : steps w0 a a (@throw A e).
Proof. by intros w r w' Hw [= _ <-]. Qed.

Lemma steps_lift {A} (o : outcome A) a : steps w0 a a (lift o).
Proof. by intros w r w' Hw [= _ <-]. Qed.

Lemma steps_now a : steps w0 a a (now env).
Proof. intros w r w' (new&?&?&?) [= _ <-]. by exists new. Qed.

Lemma steps_bind {A B} (m : M A) (k : A -> M B) a b c :
  b <= c -> steps w0 a b m -> (forall x, steps w0 b c (k x)) ->
  steps w0 a c (bind m k).
Proof.
  intros Hbc Hm Hk w r w' Hw. unfold bind.
  destruct (m w) as [[x|e] w1] eqn:E; intros H.
  - eapply Hk; [|exact H]. eapply Hm; eauto.
  - injection H as _ <-. eapply within_weaken, Hm; eauto.
Qed.

Lemma steps_try_catch {A} (m : M A) (h : error -> M A) a b c :
  b <= c -> steps w0 a b m -> (forall e, steps w0 b c (h e)) ->
  steps w0 a c (try_catch m h).
Proof.
  intros Hbc Hm Hh w r w' Hw. unfold try_catch.
  destruct (m w) as [[x|e] w1] eqn:E; intros H.
  - injection H as _ <-. eapply within_weaken, Hm; eauto.
  - eapply Hh; [|exact H]. eapply Hm; eauto.
Qed.

(** A request that asks for no status. *)
Lemma steps_send_silent {A} r (apply : nat -> World -> outcome A * World) a :
  written_status r = None ->
  (forall n w, sent (apply n w).2 = sent w) ->
  steps w0 a a (send env r apply).
Proof.
  intros Hr Happly w o w' Hw. unfold send.
  pose proof (within_log_silent a w r Hr Hw) as H1.
  destruct (fault env _); [by intros [= _ <-]|].
  intros E. specialize (Happly (length (sent w))
    {| db := db w; staging := staging w; sent := r :: sent w; ticks := ticks w |}).
  rewrite E in Happly. simpl in Happly.
  destruct H1 as (new & Hs & ?). exists new. by rewrite Happly.
Qed.

(** A request that asks for the status [s]. *)
Lemma steps_send_write {A} r (apply : nat -> World -> outcome A * World) a s :
  written_status r = Some s ->
  a <= rank s ->
  (forall n w, sent (apply n w).2 = sent w) ->
  steps w0 a (rank s) (send env r apply).
Proof.
  intros Hr Ha Happly w o w' Hw. unfold send.
  pose proof (within_log_write a w r s Hr Ha Hw) as H1.
  destruct (fault env _); [by intros [= _ <-]|].
  intros E. specialize (Happly (length (sent w))
    {| db := db w; staging := staging w; sent := r :: sent w; ticks := ticks w |}).
  rewrite E in Happly. simpl in Happly.
  destruct H1 as (new & Hs & ?). exists new. by rewrite Happly.
Qed.

Lemma steps_put_item it c a s :
  status_of (Some it) = Some s -> a <= rank s ->
  steps w0 a (rank s) (put_item env it c).
Proof.
  intros Hs Ha. apply steps_send_write; [done|done|].
  intros n w. repeat case_match; done.
Qed.

Lemma steps_update_item jobId sets a s :
  status_of (Some (list_to_map sets)) = Some s -> a <= rank s ->
  steps w0 a (rank s) (update_item env jobId sets).
Proof.
  intros Hs Ha. apply steps_send_write; [done|done|].
  intros n w. repeat case_match; done.
Qed.

Lemma steps_put_object k v a : steps w0 a a (put_object env k v).
Proof. by apply steps_send_silent. Qed.

Lemma steps_get_item k a : steps w0 a a (get_item env k).
Proof. by apply steps_send_silent. Qed.

Lemma steps_invoke_endpoint b a :
  steps w0 a a (SageMakerService.invoke_endpoint env b).
Proof. by apply steps_send_silent. Qed.

Lemma steps_invoke_endpoint_async l i a :
  steps w0 a a (SageMakerService.invoke_endpoint_async env l i).
Proof. by apply steps_send_silent. Qed.

End Steps.

(** Splits a goal [steps w0 a c m] along the structure of [m]; the rank
    reached in between is left to the first leaf that fixes it. *)
Ltac step_through :=
  repeat match goal with
    | |- steps _ _ _ (ret _) => eapply steps_weaken; [|apply steps_ret]
    | |- steps _ _ _ (throw _) => eapply steps_weaken; [|apply steps_throw]
    | |- steps _ _ _ (lift _) => eapply steps_weaken; [|apply steps_lift]
    | |- steps _ _ _ (now _) => eapply steps_weaken; [|apply steps_now]
    | |- steps _ _ _ (match _ with _ => _ end) => case_match; simplify_eq
    end.

Section StatusOrder.

Context (env : Env) (w0 : World).

Lemma steps_updateJobStatus jobId status updates a :
  a <= rank (status_name status) ->
  steps w0 a (rank (status_name status))
        (DynamoDBService.updateJobStatus env jobId status updates).
Proof.
  intros Ha. unfold DynamoDBService.updateJobStatus.
  eapply (steps_try_catch _ _ _ _ (rank (status_name status))); [done| |].
  - eapply (steps_bind _ _ _ _ a); [done|apply steps_now|intros t].
    eapply (steps_bind _ _ _ _ a); [done| |intros c].
    + destruct (is_final status); [|apply steps_ret].
      eapply (steps_bind _ _ _ _ a); [done|apply steps_now|intros; apply steps_ret].
    + apply steps_update_item; [|done].
      unfold status_of. simpl. by rewrite lookup_insert_eq.
  - intros e. case_decide; apply steps_throw.
Qed.

Lemma steps_createJob job s a :
  status_of (Some job) = Some s -> a <= rank s ->
  steps w0 a (rank s) (DynamoDBService.createJob env job).
Proof.
  intros Hs Ha. unfold DynamoDBService.createJob.
  eapply (steps_try_catch _ _ _ _ (rank s)); [done| |intros; apply steps_throw].
  by apply steps_put_item.
Qed.

Lemma steps_invokeAsync jobId request a :
  steps w0 a a (SageMakerService.invokeAsync env jobId request).
Proof.
  unfold SageMakerService.invokeAsync.
  eapply (steps_try_catch _ _ _ _ a); [done| |intros; apply steps_throw].
  eapply (steps_bind _ _ _ _ a); [done|apply steps_now|intros t].
  eapply (steps_bind _ _ _ _ a); [done|apply steps_put_object|intros _].
  eapply (steps_bind _ _ _ _ a);
    [done|apply steps_invoke_endpoint_async|intros l].
  step_through; done.
Qed.

Lemma steps_invokeSync request a :
  steps w0 a a (SageMakerService.invokeSync env request).
Proof.
  unfold SageMakerService.invokeSync.
  eapply (steps_try_catch _ _ _ _ a); [done| |intros; apply steps_throw].
  eapply (steps_bind _ _ _ _ a); [done|apply steps_invoke_endpoint|intros b].
  destruct b; try apply steps_throw.
  eapply (steps_bind _ _ _ _ a); [done|apply steps_lift|intros; apply steps_ret].
Qed.

Lemma jobItem_status jobId userContext timestamp request :
  status_of (Some (SubmitJob.jobItem env jobId userContext timestamp request))
  = Some "PENDING".
Proof.
  unfold status_of, SubmitJob.jobItem. simpl.
  by rewrite (lookup_union_Some_l _ _ _ (JStr "PENDING")) by by simplify_map_eq.
Qed.

Lemma steps_synchronous jobId request :
  steps w0 0 2 (SubmitJob.synchronous env jobId request).
Proof.
  unfold SubmitJob.synchronous.
  eapply (steps_try_catch _ _ _ _ 2); [done| |intros e].
  - eapply (steps_bind _ _ _ _ 0); [lia|apply steps_invokeSync|intros result].
    eapply (steps_bind _ _ _ _ 2);
      [done|apply (steps_updateJobStatus _ SUCCEEDED); vm_compute; lia|intros _].
    eapply (steps_bind _ _ _ _ 2); [done|apply steps_lift|intros; apply steps_ret].
  - eapply (steps_bind _ _ _ _ 2);
      [done|by apply (steps_updateJobStatus _ FAILED)|intros; apply steps_throw].
Qed.

Lemma steps_asynchronous jobId request :
  steps w0 0 2 (SubmitJob.asynchronous env jobId request).
Proof.
  unfold SubmitJob.asynchronous.
  eapply (steps_try_catch _ _ _ _ 1); [lia| |intros e].
  - eapply (steps_bind _ _ _ _ 0); [lia|apply steps_invokeAsync|intros l].
    eapply (steps_bind _ _ _ _ 1);
      [done|apply (steps_updateJobStatus _ RUNNING); vm_compute; lia
      |intros; apply steps_ret].
  - eapply (steps_bind _ _ _ _ 2);
      [done|apply (steps_updateJobStatus _ FAILED); vm_compute; lia
      |intros; apply steps_throw].
Qed.

Lemma steps_submit event : steps w0 0 2 (SubmitJob.submit env event).
Proof.
  unfold SubmitJob.submit. case_decide.
  { eapply steps_weaken; [|apply steps_ret]. lia. }
  eapply (steps_bind _ _ _ _ 0); [lia|apply steps_lift|intros [ctx request]].
  unfold SubmitJob.create_and_dispatch. simpl.
  eapply (steps_bind _ _ _ _ 0); [lia|apply steps_now|intros t].
  eapply (steps_bind _ _ _ _ 0); [lia| |intros _].
  - apply (steps_createJob _ "PENDING"); [apply jobItem_status|done].
  - case_match; [apply steps_synchronous|apply steps_asynchronous].
Qed.

Lemma steps_get event : steps w0 0 0 (GetJob.get env event).
Proof.
  unfold GetJob.get, DynamoDBService.getJob. case_decide; [apply steps_ret|].
  repeat case_match; try apply steps_throw.
  eapply (steps_bind _ _ _ _ 0); [lia|apply steps_lift|intros ctx].
  eapply (steps_bind _ _ _ _ 0); [lia| |intros found].
  - eapply (steps_try_catch _ _ _ _ 0);
      [done|apply steps_get_item|intros; apply steps_throw].
  - destruct found; [|apply steps_throw].
    eapply (steps_bind _ _ _ _ 0); [lia|apply steps_lift|intros; apply steps_ret].
Qed.

Lemma marshall_status properties changes s :
  (list_to_map (omap (fun kv : string * option json => pair kv.1 <$> kv.2) changes)
     : item) !! "status" = Some (JStr s) ->
  status_of (Some (SubmitJobLambda.marshall properties changes)) = Some s.
Proof.
  intros H. unfold status_of, SubmitJobLambda.marshall. simpl.
  by rewrite (lookup_union_Some_l _ _ _ _ H).
Qed.

Lemma steps_lambda_synchronous jobId job input :
  steps w0 0 2 (SubmitJobLambda.synchronous env jobId job input).
Proof.
  unfold SubmitJobLambda.synchronous.
  eapply (steps_try_catch _ _ _ _ 2); [done| |intros e].
  - eapply (steps_bind _ _ _ _ 0); [lia|apply steps_invoke_endpoint|intros b].
    eapply (steps_bind _ _ _ _ 0); [lia| |intros body].
    { destruct b; first [apply steps_throw|apply steps_ret]. }
    eapply (steps_bind _ _ _ _ 0); [lia|apply steps_now|intros t].
    eapply (steps_bind _ _ _ _ 0); [lia|apply steps_lift|intros _].
    eapply (steps_bind _ _ _ _ 2); [done| |intros; apply steps_ret].
    apply (steps_put_item _ _ _ _ _ "SUCCEEDED"); [|vm_compute; lia].
    apply marshall_status. by simplify_map_eq.
  - eapply (steps_bind _ _ _ _ 2); [done|apply steps_now|intros t].
    eapply (steps_bind _ _ _ _ 2); [done|apply steps_lift|intros _].
    eapply (steps_bind _ _ _ _ 2); [done| |intros; apply steps_ret].
    apply (steps_put_item _ _ _ _ _ "FAILED"); [|done].
    apply marshall_status. by simplify_map_eq.
Qed.

Lemma steps_lambda_asynchronous jobId input :
  steps w0 0 0 (SubmitJobLambda.asynchronous env jobId input).
Proof.
  unfold SubmitJobLambda.asynchronous.
  eapply (steps_bind _ _ _ _ 0); [lia|apply steps_put_object|intros _].
  eapply (steps_bind _ _ _ _ 0);
    [lia|apply steps_invoke_endpoint_async|intros; apply steps_ret].
Qed.

Lemma steps_lambda_submit event : steps w0 0 2 (SubmitJobLambda.submit env event).
Proof.
  unfold SubmitJobLambda.submit.
  destruct (SubmitJobLambda.parsed_body event) as [body|];
    [|eapply steps_weaken; [|apply steps_ret]; lia].
  eapply (steps_bind _ _ _ _ 0); [lia|apply steps_lift|intros errors].
  destruct errors; [|eapply steps_weaken; [|apply steps_ret]; lia].
  unfold SubmitJobLambda.create_and_dispatch.
  eapply (steps_bind _ _ _ _ 0); [lia|apply steps_now|intros t].
  eapply (steps_bind _ _ _ _ 0); [lia|apply steps_lift|intros prompt].
  eapply (steps_bind _ _ _ _ 0); [lia| |intros _].
  - apply (steps_put_item _ _ _ _ _ "PENDING"); [|done].
    unfold status_of, SubmitJobLambda.marshall, SubmitJobLambda.jobItem. simpl.
    rewrite lookup_union_r by done.
    destruct (getUserId event); simpl; by simplify_map_eq.
  - case_match; [|apply steps_lambda_synchronous].
    eapply steps_weaken; [|apply steps_lambda_asynchronous]. lia.
Qed.

Lemma steps_lambda_get event : steps w0 0 0 (GetJobLambda.get env event).
Proof.
  unfold GetJobLambda.get. repeat case_match; try apply steps_ret.
  eapply (steps_bind _ _ _ _ 0); [lia|apply steps_get_item|intros found].
  repeat case_match; apply steps_ret.
Qed.

End StatusOrder.

(** *** Sample events *)

Definition post_as (user : string) (b : json) : Event :=
  {| httpMethod := "POST"; requestId := "test-request-id";
     claims := Some [("sub", JStr user); ("email", JStr "test@example.com")];
     body := Parsed b; pathId := None |}.

Definition get_as (user jobId : string) : Event :=
  {| httpMethod := "GET"; requestId := "test-request-id";
     claims := Some [("sub", JStr user)];
     body := NoBody; pathId := Some jobId |}.

Definition sync_sunset : json :=
  JObj [("prompt", JStr "a beautiful sunset"); ("mode", JStr "sync");
        ("steps", JNum 10%Q)].

Definition async_sunset : json :=
  JObj [("prompt", JStr "a beautiful sunset over mountains");
        ("mode", JStr "async"); ("steps", JNum 20%Q)].

(** *** Requests that land on the table one by one

    Invocations of the handlers run side by side: between two requests
    of one invocation, requests of others may reach the table.  The
    table applies each request by itself.  What follows therefore speaks
    of one request and of the table it lands on, whatever that table
    holds by then. *)

(** The table after a request has landed on it. *)
Definition lands (r : request) (d : gmap string item) : gmap string item :=
  match r with
  | PutItem it conditional =>
      match item_key it with
      | Some k =>
          if conditional && bool_decide (is_Some (d !! k)) then d
          else <[k := it]> d
      | None => d
      end
  | UpdateItem k sets =>
      if bool_decide (NoDup sets.*1) then
        match d !! k with
        | Some it => <[k := (list_to_map sets : item) ∪ it]> d
        | None => d
        end
      else d
  | UpdateItemUnconditional (JStr k) sets =>
      if bool_decide (NoDup sets.*1)
         && forallb (fun kv => Js.is_string (Some kv.2)) sets
         && negb (bool_decide (k = ""))
      then <[k := (list_to_map sets : item)
                  ∪ default {["jobId" := JStr k]} (d !! k)]> d
      else d
  | _ => d
  end.

(** The table after the requests of a history, the earliest first. *)
Definition table_after (history : list request) (d : gmap string item)
  : gmap string item :=
  foldl (fun d r => lands r d) d history.

(** A run replays its requests: the table at its end is the table at
    its start after those of its requests landed, in order, that the
    surroundings let through. *)
Definition replayed (w w' : World) : Prop :=
  exists new through,
    sent w' = new ++ sent w
    /\ sublist through new
    /\ db w' = foldr lands (db w) through.

Global Instance replayed_preorder : PreOrder replayed.
Proof.
  split.
  - intros w. exists [], []. by repeat split.
  - intros a b c (n1 & t1 & Hs1 & Hsub1 & Hd1) (n2 & t2 & Hs2 & Hsub2 & Hd2).
    exists (n2 ++ n1), (t2 ++ t1). repeat split.
    + by rewrite Hs2, Hs1, app_assoc.
    + by apply sublist_app.
    + by rewrite Hd2, Hd1, foldr_app.
Qed.

(** The requests that a run adds to the log all satisfy [Q]. *)
Definition emitted (Q : request -> Prop) (w w' : World) : Prop :=
  exists new, sent w' = new ++ sent w /\ Forall Q new.

Global Instance emitted_preorder Q : PreOrder (emitted Q).
Proof.
  split.
  - intros w. by exists [].
  - intros a b c (n1 & Hs1 & H1) (n2 & Hs2 & H2).
    exists (n2 ++ n1). split; [by rewrite Hs2, Hs1, app_assoc|].
    by apply Forall_app.
Qed.

Lemma emitted_issued Q w w' : emitted Q w w' -> Forall Q (issued w w').
Proof.
  intros (new & Hs & H). unfold issued. rewrite Hs, length_app.
  replace (length new + length (sent w) - length (sent w)) with (length new) by lia.
  by rewrite take_app_length.
Qed.

Lemma emitted_weaken (Q Q' : request -> Prop) w w' :
  (forall r, Q r -> Q' r) -> emitted Q w w' -> emitted Q' w w'.
Proof.
  intros HQ (new & Hs & H). exists new. split; [done|].
  eapply Forall_impl; [exact H|exact HQ].
Qed.

Section Landing.

Context (env : Env).

Lemma now_replayed : maintains replayed (now env).
Proof. intros w r w' [= _ <-]. exists [], []. by repeat split. Qed.

Lemma now_emitted Q : maintains (emitted Q) (now env).
Proof. intros w r w' [= _ <-]. by exists []. Qed.

(** A request whose effect on the table, when the surroundings let it
    through, is the one of [lands]. *)
Lemma send_replayed {A} r (apply : nat -> World -> outcome A * World) :
  (forall n w, sent (apply n w).2 = sent w /\ db (apply n w).2 = lands r (db w)) ->
  maintains replayed (send env r apply).
Proof.
  intros H w o w'. unfold send. destruct (fault env _).
  - intros [= _ <-]. exists [r], []. simpl. repeat split.
    apply sublist_nil_l.
  - intros E.
    destruct (H (length (sent w))
                {| db := db w; staging := staging w; sent := r :: sent w;
                   ticks := ticks w |}) as [Hs Hd].
    rewrite E in Hs, Hd. simpl in Hs, Hd.
    exists [r], [r]. by repeat split.
Qed.

Lemma send_emitted {A} Q r (apply : nat -> World -> outcome A * World) :
  Q r ->
  (forall n w, sent (apply n w).2 = sent w) ->
  maintains (emitted Q) (send env r apply).
Proof.
  intros HQ H w o w'. unfold send. destruct (fault env _).
  - intros [= _ <-]. exists [r]. split; [done|]. by constructor.
  - intros E.
    pose proof (H (length (sent w))
                  {| db := db w; staging := staging w; sent := r :: sent w;
                     ticks := ticks w |}) as Hs.
    rewrite E in Hs. simpl in Hs.
    exists [r]. split; [done|]. by constructor.
Qed.

Lemma put_item_replayed it c : maintains replayed (put_item env it c).
Proof.
  apply send_replayed. intros n w. simpl.
  destruct (item_key it); [|done]. by case_match.
Qed.

Lemma update_item_replayed k sets : maintains replayed (update_item env k sets).
Proof.
  apply send_replayed. intros n w. simpl.
  case_bool_decide; simpl; [|done]. by destruct (db w !! k).
Qed.

Lemma update_item_unconditional_replayed key sets :
  maintains replayed (update_item_unconditional env key sets).
Proof.
  apply send_replayed. intros n w. simpl.
  case_bool_decide; simpl; [|by destruct key].
  destruct key; try done.
  destruct (forallb _ sets); simpl; [|done].
  by case_decide; case_bool_decide.
Qed.

Lemma get_item_replayed k : maintains replayed (get_item env k).
Proof. by apply send_replayed. Qed.

Lemma put_object_replayed k v : maintains replayed (put_object env k v).
Proof. by apply send_replayed. Qed.

Lemma get_object_replayed b k : maintains replayed (get_object env b k).
Proof. by apply send_replayed. Qed.

Lemma copy_object_replayed c b k : maintains replayed (copy_object env c b k).
Proof. by apply send_replayed. Qed.

Lemma invoke_endpoint_replayed b :
  maintains replayed (SageMakerService.invoke_endpoint env b).
Proof. by apply send_replayed. Qed.

Lemma invoke_endpoint_async_replayed l i :
  maintains replayed (SageMakerService.invoke_endpoint_async env l i).
Proof. by apply send_replayed. Qed.

End Landing.

Create HintDb replay.
#[export] Hint Resolve now_replayed put_item_replayed update_item_replayed
  update_item_unconditional_replayed get_item_replayed put_object_replayed
  get_object_replayed copy_object_replayed invoke_endpoint_replayed
  invoke_endpoint_async_replayed : replay.

(** *** Every handler replays its requests *)

Section Replays.

Context (env : Env).

Lemma updateJobStatus_replayed jobId status updates :
  maintains replayed (DynamoDBService.updateJobStatus env jobId status updates).
Proof.
  unfold DynamoDBService.updateJobStatus. maintain; auto with replay.
Qed.

Lemma createJob_replayed job : maintains replayed (DynamoDBService.createJob env job).
Proof. unfold DynamoDBService.createJob. maintain; auto with replay. Qed.

Lemma submit_replayed event : maintains replayed (SubmitJob.submit env event).
Proof.
  unfold SubmitJob.submit, SubmitJob.create_and_dispatch, SubmitJob.synchronous,
    SubmitJob.asynchronous, SageMakerService.invokeSync,
    SageMakerService.invokeAsync.
  maintain; auto using updateJobStatus_replayed, createJob_replayed with replay.
Qed.

Lemma get_replayed event : maintains replayed (GetJob.get env event).
Proof.
  unfold GetJob.get, DynamoDBService.getJob. maintain; auto with replay.
Qed.

Lemma lambda_submit_replayed event :
  maintains replayed (SubmitJobLambda.submit env event).
Proof.
  unfold SubmitJobLambda.submit, SubmitJobLambda.create_and_dispatch,
    SubmitJobLambda.synchronous, SubmitJobLambda.asynchronous.
  maintain; auto with replay.
Qed.

Lemma lambda_get_replayed event : maintains replayed (GetJobLambda.get env event).
Proof. unfold GetJobLambda.get. maintain; auto with replay. Qed.

Lemma find_image_replayed bucket candidates :
  maintains replayed (Callback.find_image env bucket candidates).
Proof.
  induction candidates as [|k rest IH]; simpl; maintain; auto with replay.
Qed.

Lemma failed_update_replayed jobId message :
  maintains replayed (Callback.failed_update env jobId message).
Proof. unfold Callback.failed_update. maintain; auto with replay. Qed.

Lemma process_replayed bucket record :
  maintains replayed (Callback.process env bucket record).
Proof.
  unfold Callback.process, Callback.processSuccess, Callback.processError.
  maintain;
    auto using find_image_replayed, failed_update_replayed with replay.
Qed.

Lemma process_all_replayed bucket records :
  maintains replayed (Callback.process_all env bucket records).
Proof.
  induction records as [|record rest IH]; simpl; maintain;
    auto using process_replayed.
Qed.

End Replays.

(** *** What the handlers ask of the table *)

(** Who issues a request: a handler of the service, an inline handler,
    the callback handler of the worker pool, or a caller of
    [updateJobStatus]. *)
Inductive origin : Type :=
  | service_submit
  | service_get
  | inline_submit
  | inline_get
  | callback
  | job_store.

(** One invocation, run on its own in some surroundings.  Which
    requests an invocation issues depends on the table only through the
    success or failure of its own requests, and the surroundings let any
    of them fail; so the requests of a run on its own are the requests
    the invocation can issue when others run beside it. *)
Inductive invocation : origin -> World -> World -> Prop :=
  | invoke_submit env event w :
      invocation service_submit w (SubmitJob.handler env event w).2
  | invoke_get env event w :
      invocation service_get w (GetJob.handler env event w).2
  | invoke_lambda_submit env event w :
      invocation inline_submit w (SubmitJobLambda.handler env event w).2
  | invoke_lambda_get env event w :
      invocation inline_get w (GetJobLambda.handler env event w).2
  | invoke_callback env bucket event w :
      invocation callback w (Callback.handler env bucket event w).2
  | invoke_updateJobStatus env jobId status updates w :
      invocation job_store w
        (DynamoDBService.updateJobStatus env jobId status updates w).2.

(** A request that does not write to the table. *)
Definition reads_only (r : request) : Prop :=
  match r with
  | PutItem _ _ | UpdateItem _ _ | UpdateItemUnconditional _ _ => False
  | _ => True
  end.

(** The conditional put of a PENDING record under [j]. *)
Definition creates (j : string) (r : request) : Prop :=
  exists it,
    r = PutItem it true /\ item_key it = Some j
    /\ status_of (Some it) = Some "PENDING" /\ it !! "completedAt" = None.

(** The update of [updateJobStatus] for the record under [j]. *)
Definition updates_to (env : Env) (j : string) (status : JobStatusType)
    (r : request) : Prop :=
  exists updates n, r = UpdateItem j (assignments env status updates n).

(** The unconditional put of a record under [j], with the status [s]
    and no completion time. *)
Definition replaces (j : string) (s : string) (r : request) : Prop :=
  exists it,
    r = PutItem it false /\ item_key it = Some j
    /\ status_of (Some it) = Some s /\ it !! "completedAt" = None.

(** The unconditional update that marks a job as succeeded. *)
Definition completes (r : request) : Prop :=
  exists key updatedAt completedAt more,
    r = UpdateItemUnconditional key
          ([("status", JStr "SUCCEEDED"); ("updatedAt", JStr updatedAt);
            ("completedAt", JStr completedAt)] ++ more)
    /\ (more = [] \/ exists text, more = [("metadata", JStr text)]).

(** The unconditional update that marks a job as failed. *)
Definition fails (r : request) : Prop :=
  exists key updatedAt message,
    r = UpdateItemUnconditional key
          [("status", JStr "FAILED"); ("updatedAt", JStr updatedAt);
           ("error", message)].

Definition asks (o : origin) (r : request) : Prop :=
  reads_only r \/
  match o with
  | service_submit =>
      exists env,
        creates (fresh_id env) r
        \/ exists status, status <> PENDING /\ updates_to env (fresh_id env) status r
  | inline_submit =>
      exists env s,
        s ∈ ["PENDING"; "SUCCEEDED"; "FAILED"] /\ replaces (fresh_id env) s r
  | callback => completes r \/ fails r
  | job_store => exists env j status, updates_to env j status r
  | service_get | inline_get => False
  end.

Section Asks.

Context (env : Env).

Lemma updateJobStatus_emitted Q jobId status updates :
  (forall n, Q (UpdateItem jobId (assignments env status updates n))) ->
  maintains (emitted Q) (DynamoDBService.updateJobStatus env jobId status updates).
Proof.
  intros HQ w r w'. rewrite updateJobStatus_clock.
  unfold try_catch, update_item, send. cbn [sent db staging ticks].
  assert (forall o (wf : World),
             sent wf = UpdateItem jobId (assignments env status updates (ticks w))
                         :: sent w ->
             (o, wf) = (r, w') -> emitted Q w w') as Hend.
  { intros o wf Hs [= _ <-]. exists [UpdateItem jobId
      (assignments env status updates (ticks w))]. split; [done|].
    constructor; [apply HQ|constructor]. }
  destruct (fault env _); simpl.
  { case_decide; by apply Hend. }
  case_bool_decide; simpl.
  - destruct (db w !! jobId); simpl; [by apply Hend|].
    by apply Hend.
  - by apply Hend.
Qed.

(** Closes the leaves of a goal [maintains (emitted Q) m] that issue
    no write. *)
Ltac silent :=
  first [ apply now_emitted
        | apply send_emitted; [by left|by intros] ].

Lemma invokeAsync_emitted o jobId request :
  maintains (emitted (asks o)) (SageMakerService.invokeAsync env jobId request).
Proof.
  unfold SageMakerService.invokeAsync, put_object,
    SageMakerService.invoke_endpoint_async.
  maintain; silent.
Qed.

Lemma invokeSync_emitted o request :
  maintains (emitted (asks o)) (SageMakerService.invokeSync env request).
Proof.
  unfold SageMakerService.invokeSync, SageMakerService.invoke_endpoint.
  maintain; silent.
Qed.

Lemma submit_emitted event :
  maintains (emitted (asks service_submit)) (SubmitJob.submit env event).
Proof.
  assert (forall status updates,
             status <> PENDING ->
             maintains (emitted (asks service_submit))
               (DynamoDBService.updateJobStatus env (fresh_id env) status updates))
    as Hupdate.
  { intros status updates Hs. apply updateJobStatus_emitted. intros n.
    right. exists env. right. exists status. split; [done|]. by exists updates, n. }
  unfold SubmitJob.submit, SubmitJob.create_and_dispatch, SubmitJob.synchronous,
    SubmitJob.asynchronous, DynamoDBService.createJob.
  maintain; try silent;
    try (by apply Hupdate);
    try apply invokeAsync_emitted; try apply invokeSync_emitted.
  apply send_emitted; [|intros; by repeat case_match].
  right. exists env. left. eexists. split; [reflexivity|].
  split; [apply jobItem_key|]. split; [apply jobItem_status|].
  apply jobItem_no_completion.
Qed.

Lemma get_emitted event :
  maintains (emitted (asks service_get)) (GetJob.get env event).
Proof.
  unfold GetJob.get, DynamoDBService.getJob, get_item. maintain; silent.
Qed.

Lemma lambda_get_emitted event :
  maintains (emitted (asks inline_get)) (GetJobLambda.get env event).
Proof. unfold GetJobLambda.get, get_item. maintain; silent. Qed.

Lemma marshall_no_completion jobId userId timestamp params mode changes :
  (forall v, ("completedAt", v) ∉ changes) ->
  SubmitJobLambda.marshall
    (SubmitJobLambda.jobItem env jobId userId timestamp params mode) changes
  !! "completedAt" = None.
Proof.
  intros Hc. unfold SubmitJobLambda.marshall. apply lookup_union_None. split.
  - apply not_elem_of_list_to_map_1. intros Hin.
    apply list_elem_of_fmap in Hin as ((k&v)&Hk&Hin).
    apply list_elem_of_omap in Hin as ((k'&o)&Hin&Ho). simpl in *.
    destruct o; simplify_eq/=. by eapply Hc.
  - apply not_elem_of_list_to_map_1. intros Hin.
    apply list_elem_of_fmap in Hin as ((k&v)&Hk&Hin).
    apply list_elem_of_omap in Hin as ((k'&o)&Hin&Ho). simpl in *.
    destruct o; simplify_eq/=. unfold SubmitJobLambda.jobItem in Hin.
    set_solver.
Qed.

Lemma lambda_put_emitted jobId userId timestamp params mode changes s :
  (forall v, ("jobId", v) ∉ changes) ->
  (forall v, ("completedAt", v) ∉ changes) ->
  status_of (Some (SubmitJobLambda.marshall
                     (SubmitJobLambda.jobItem env jobId userId timestamp params mode)
                     changes)) = Some s ->
  s ∈ ["PENDING"; "SUCCEEDED"; "FAILED"] ->
  jobId = fresh_id env ->
  maintains (emitted (asks inline_submit))
    (put_item env
       (SubmitJobLambda.marshall
          (SubmitJobLambda.jobItem env jobId userId timestamp params mode)
          changes) false).
Proof.
  intros Hk Hc Hs Hin ->. apply send_emitted; [|intros; by repeat case_match].
  right. exists env, s. split; [done|]. eexists. split; [reflexivity|].
  split; [by apply marshall_key|]. split; [done|].
  by apply marshall_no_completion.
Qed.

Lemma lambda_submit_emitted event :
  maintains (emitted (asks inline_submit)) (SubmitJobLambda.submit env event).
Proof.
  unfold SubmitJobLambda.submit, SubmitJobLambda.create_and_dispatch,
    SubmitJobLambda.synchronous, SubmitJobLambda.asynchronous, put_object,
    SageMakerService.invoke_endpoint, SageMakerService.invoke_endpoint_async.
  maintain; try silent.
  - apply (lambda_put_emitted _ _ _ _ _ _ "PENDING"); try done;
      try (intros v Hin; set_solver); [|set_solver].
    unfold status_of, SubmitJobLambda.marshall, SubmitJobLambda.jobItem. simpl.
    rewrite lookup_union_r by done.
    destruct (getUserId event); simpl; by simplify_map_eq.
  - apply (lambda_put_emitted _ _ _ _ _ _ "SUCCEEDED"); try done;
      try (intros v Hin; set_solver); [|set_solver].
    apply marshall_status. by simplify_map_eq.
  - apply (lambda_put_emitted _ _ _ _ _ _ "FAILED"); try done;
      try (intros v Hin; set_solver); [|set_solver].
    apply marshall_status. by simplify_map_eq.
Qed.

Lemma find_image_emitted bucket candidates :
  maintains (emitted (asks callback)) (Callback.find_image env bucket candidates).
Proof.
  induction candidates as [|k rest IH]; simpl; unfold get_object;
    maintain; first [silent|apply IH].
Qed.

Lemma failed_update_emitted jobId message :
  maintains (emitted (asks callback)) (Callback.failed_update env jobId message).
Proof.
  unfold Callback.failed_update, update_item_unconditional. maintain; try silent.
  apply send_emitted; [|intros; by repeat case_match].
  right. right. by eexists _, _, _.
Qed.

Lemma process_emitted bucket record :
  maintains (emitted (asks callback)) (Callback.process env bucket record).
Proof.
  unfold Callback.process, Callback.processSuccess, Callback.processError,
    get_object, copy_object, update_item_unconditional.
  maintain; try silent;
    try apply find_image_emitted; try apply failed_update_emitted.
  apply send_emitted; [|intros; by repeat case_match].
  right. left. eexists _, _, _, _. split; [reflexivity|].
  match goal with |- context [if ?b then _ else _] => destruct b end;
    [right; by eexists|by left].
Qed.

Lemma process_all_emitted bucket records :
  maintains (emitted (asks callback)) (Callback.process_all env bucket records).
Proof.
  induction records as [|record rest IH]; simpl; maintain;
    auto using process_emitted.
Qed.

End Asks.

(** The requests of an invocation are among those of its origin. *)
Lemma invocation_asks o w w' :
  invocation o w w' -> Forall (asks o) (issued w w').
Proof.
  intros [env event w0|env event w0|env event w0|env event w0
         |env bucket event w0|env jobId status updates w0];
    apply emitted_issued.
  - unfold SubmitJob.handler.
    destruct (SubmitJob.submit env event w0) as [r w1] eqn:E.
    apply submit_emitted in E. by destruct r.
  - unfold GetJob.handler.
    destruct (GetJob.get env event w0) as [r w1] eqn:E.
    apply get_emitted in E. by destruct r.
  - unfold SubmitJobLambda.handler.
    destruct (SubmitJobLambda.submit env event w0) as [r w1] eqn:E.
    apply lambda_submit_emitted in E. by destruct r.
  - unfold GetJobLambda.handler.
    destruct (GetJobLambda.get env event w0) as [r w1] eqn:E.
    apply lambda_get_emitted in E. by destruct r.
  - unfold Callback.handler. cbv zeta.
    destruct (Records event) as [records|].
    + destruct (Callback.process_all env bucket records w0) as [r w1] eqn:E.
      apply process_all_emitted in E. by destruct r.
    + by exists [].
  - destruct (DynamoDBService.updateJobStatus env jobId status updates w0)
      as [r w1] eqn:E.
    eapply updateJobStatus_emitted in E; [exact E|].
    intros n. right. exists env, jobId, status. by exists updates, n.
Qed.

(** The table at the end of an invocation run on its own is the table
    at its start after its requests landed. *)
Lemma invocation_replayed o w w' : invocation o w w' -> replayed w w'.
Proof.
  intros [env event w0|env event w0|env event w0|env event w0
         |env bucket event w0|env jobId status updates w0].
  - unfold SubmitJob.handler.
    destruct (SubmitJob.submit env event w0) as [r w1] eqn:E.
    apply submit_replayed in E. by destruct r.
  - unfold GetJob.handler.
    destruct (GetJob.get env event w0) as [r w1] eqn:E.
    apply get_replayed in E. by destruct r.
  - unfold SubmitJobLambda.handler.
    destruct (SubmitJobLambda.submit env event w0) as [r w1] eqn:E.
    apply lambda_submit_replayed in E. by destruct r.
  - unfold GetJobLambda.handler.
    destruct (GetJobLambda.get env event w0) as [r w1] eqn:E.
    apply lambda_get_replayed in E. by destruct r.
  - unfold Callback.handler. cbv zeta.
    destruct (Records event) as [records|].
    + destruct (Callback.process_all env bucket records w0) as [r w1] eqn:E.
      apply process_all_replayed in E. by destruct r.
    + reflexivity.
  - destruct (DynamoDBService.updateJobStatus env jobId status updates w0)
      as [r w1] eqn:E.
    by apply updateJobStatus_replayed in E.
Qed.

(** *** Where a request lands *)

(** The record a request writes to. *)
Definition target (r : request) : option string :=
  match r with
  | PutItem it _ => item_key it
  | UpdateItem k _ => Some k
  | UpdateItemUnconditional (JStr k) _ => Some k
  | _ => None
  end.

Lemma lands_elsewhere r d j : target r <> Some j -> lands r d !! j = d !! j.
Proof.
  destruct r as [it c|k|k sets|key body|l i|b|b k|c b k|key sets]; simpl; try done.
  - destruct (item_key it) as [k|]; [|done]. intros Hk.
    case_match; [done|]. apply lookup_insert_ne. congruence.
  - intros Hk. case_bool_decide; [|done].
    destruct (d !! k); [|done]. apply lookup_insert_ne. congruence.
  - destruct key; try done. intros Hk.
    case_match; [|done]. apply lookup_insert_ne. congruence.
Qed.

Lemma lands_reads_only r d : reads_only r -> lands r d = d.
Proof. by destruct r. Qed.

Lemma written_status_assignments env jobId status updates n :
  written_status (UpdateItem jobId (assignments env status updates n))
  = Some (status_name status).
Proof. unfold written_status, status_of. simpl. by rewrite lookup_insert_eq. Qed.

(** An update expression that the table accepts for a final status
    brings no completion time of its own. *)
Lemma assignments_accepted env status updates n :
  NoDup (assignments env status updates n).*1 ->
  is_final status = true -> updates !! "completedAt" = None.
Proof.
  intros Hnd Hf. destruct (updates !! "completedAt") as [v|] eqn:Hv; [|done].
  exfalso. revert Hnd. unfold assignments. rewrite Hf. simpl.
  intros Hnd. apply NoDup_cons in Hnd as [_ Hnd]. apply NoDup_cons in Hnd as [_ Hnd].
  apply NoDup_cons in Hnd as [Hnin _]. apply Hnin.
  apply list_elem_of_fmap. exists ("completedAt", v). split; [done|].
  unfold DynamoDBService.optional_updates.
  apply elem_of_map_to_list, map_lookup_filter_Some. by repeat split.
Qed.

(** The update of [updateJobStatus], landing on the record it names. *)
Lemma lands_update env j status updates n d it :
  d !! j = Some it ->
  lands (UpdateItem j (assignments env status updates n)) d !! j = Some it
  \/ lands (UpdateItem j (assignments env status updates n)) d !! j
     = Some (updated env status updates n it)
     /\ (is_final status = true -> updates !! "completedAt" = None).
Proof.
  intros Hit. cbn [lands]. case_bool_decide as Hnd; [|by left].
  rewrite Hit. right. split; [apply lookup_insert_eq|].
  intros Hf. exact (assignments_accepted _ _ _ _ Hnd Hf).
Qed.

Lemma upsert_status (changes base : item) s :
  changes !! "status" = Some (JStr s) ->
  status_of (Some (changes ∪ base)) = Some s.
Proof.
  intros H. unfold status_of. simpl. by rewrite (lookup_union_Some_l _ _ _ _ H).
Qed.

(** *** C3 (amended): which writes move a job back *)

(** The writes that can take a record out of a terminal status: the
    update of [updateJobStatus] to a status that is not final, which the
    submit handler of the service issues for RUNNING; and the first put of
    the inline submit handler. *)
Definition reverts (o : origin) (j : string) (r : request) : Prop :=
  (o = service_submit
   /\ exists sets, r = UpdateItem j sets /\ written_status r = Some "RUNNING")
  \/ (o = job_store
      /\ exists sets s, r = UpdateItem j sets /\ written_status r = Some s
                        /\ rank s < 2)
  \/ (o = inline_submit
      /\ exists it, r = PutItem it false /\ item_key it = Some j
                    /\ written_status r = Some "PENDING").

Lemma terminal_stays o r d j it :
  asks o r -> d !! j = Some it -> is_terminal it ->
  (exists it', lands r d !! j = Some it' /\ is_terminal it') \/ reverts o j r.
Proof.
  intros Hask Hit Hterm.
  destruct (decide (target r = Some j)) as [Ht|Ht];
    [|left; exists it; by rewrite lands_elsewhere].
  destruct Hask as [Hr|Ho]; [left; exists it; by rewrite lands_reads_only|].
  destruct o; simpl in Ho; try done.
  - destruct Ho as [env [(it0 & -> & Hk & _)|(status & Hs & updates & n & ->)]].
    + left. exists it. simpl in *. rewrite Ht, Hit.
      by rewrite bool_decide_eq_true_2 by by eexists.
    + simpl in Ht. injection Ht as Ht. rewrite Ht.
      destruct (lands_update env j status updates n d it Hit) as [H|[H _]];
        [left; by exists it|].
      destruct (is_final status) eqn:Hf.
      * left. eexists. split; [exact H|]. by apply updated_terminal.
      * right. left. split; [done|]. eexists. split; [done|].
        rewrite written_status_assignments. by destruct status.
  - destruct Ho as (env & s & Hs & it0 & -> & Hk & Hst & _).
    simpl in Ht. rewrite Hk in Ht. injection Ht as Ht. rewrite Ht in Hk.
    apply elem_of_cons in Hs as [->|Hs].
    { right. right. right. split; [done|]. by exists it0. }
    left. exists it0. simpl. rewrite Hk. simpl. split; [apply lookup_insert_eq|].
    unfold is_terminal. rewrite Hst. set_solver.
  - left. destruct Ho as [(key & u & c & more & -> & _)|(key & u & m & ->)];
      destruct key; try done; simpl in Ht; injection Ht as ->; simpl;
      (case_match; [|by exists it]);
      (eexists; split; [apply lookup_insert_eq|]).
    + left. apply upsert_status. apply lookup_insert_eq.
    + right. apply upsert_status. apply lookup_insert_eq.
  - destruct Ho as (env & k & status & updates & n & ->).
    simpl in Ht. injection Ht as ->.
    destruct (lands_update env j status updates n d it Hit) as [H|[H _]];
      [left; by exists it|].
    destruct (is_final status) eqn:Hf.
    + left. eexists. split; [exact H|]. by apply updated_terminal.
    + right. right. left. split; [done|]. eexists _, _. split; [done|].
      rewrite written_status_assignments. split; [done|].
      by destruct status; vm_compute; try lia.
Qed.

(** *** The order of the statuses of one invocation *)

Lemma forward_terminal l : Forall (fun s => rank s = 2) l -> forward l.
Proof.
  induction 1 as [|s l Hs Hl IH]; constructor; [done|].
  eapply Forall_impl; [exact Hl|]. simpl. lia.
Qed.

Lemma callback_statuses l :
  Forall (asks callback) l -> Forall (fun s => rank s = 2) (statuses l).
Proof.
  induction 1 as [|r l Hr _ IH]; [constructor|].
  unfold statuses in *. simpl.
  destruct Hr as [Hr|[(key & u & c & more & -> & _)|(key & u & m & ->)]].
  - by destruct r.
  - unfold written_status, status_of. simpl. rewrite lookup_insert_eq. simpl.
    by constructor.
  - unfold written_status, status_of. simpl. rewrite lookup_insert_eq. simpl.
    by constructor.
Qed.

(** The statuses an invocation asks the table to store are in forward
    order. *)
Lemma invocation_forward o w w' :
  invocation o w w' -> forward (statuses (issued w w')).
Proof.
  intros [env event w0|env event w0|env event w0|env event w0
         |env bucket event w0|env jobId status updates w0].
  - unfold SubmitJob.handler.
    destruct (SubmitJob.submit env event w0) as [r w1] eqn:E.
    eapply steps_submit in E; [|apply within_start].
    destruct r; eapply within_issued, E.
  - unfold GetJob.handler.
    destruct (GetJob.get env event w0) as [r w1] eqn:E.
    eapply steps_get in E; [|apply within_start].
    destruct r; eapply within_issued, E.
  - unfold SubmitJobLambda.handler.
    destruct (SubmitJobLambda.submit env event w0) as [r w1] eqn:E.
    eapply steps_lambda_submit in E; [|apply within_start].
    destruct r; eapply within_issued, E.
  - unfold GetJobLambda.handler.
    destruct (GetJobLambda.get env event w0) as [r w1] eqn:E.
    eapply steps_lambda_get in E; [|apply within_start].
    destruct r; eapply within_issued, E.
  - apply forward_terminal, callback_statuses.
    apply (invocation_asks callback). apply invoke_callback.
  - destruct (DynamoDBService.updateJobStatus env jobId status updates w0)
      as [r w1] eqn:E.
    eapply (steps_updateJobStatus env w0 _ _ _ 0) in E; [|lia|apply within_start].
    eapply within_issued, E.
Qed.

(** *** A submit that the callback overtakes *)

Definition no_such_key : error :=
  Error "NoSuchKey" "The specified key does not exist.".

(** Surroundings of the callback handler in which the output location
    holds no object: the requests that look for one, the first seven,
    fail. *)
Definition outputs_missing : Env :=
  {| clock := clock calm; epoch_millis := epoch_millis calm;
     date_millis := date_millis calm; fresh_id := fresh_id calm;
     random_seed := random_seed calm;
     fault := fun i => if decide (i < 7) then Some no_such_key else None;
     output_location := output_location calm; reply_body := reply_body calm;
     json_text := json_text calm; json_parse := json_parse calm;
     presigned_url := presigned_url calm; input_bucket := input_bucket calm;
     development := development calm |}.

(** The notification that the inference of a job succeeded. *)
Definition succeeded_notification (jobId : string) : SnsEvent :=
  {| Records :=
       Some [{| EventSource := "aws:sns";
                TopicArn := "arn:aws:sns:us-east-1:123456789012:inference-success";
                Message :=
                  Parsed (JObj [("inferenceId", JStr jobId);
                                ("outputLocation",
                                 JStr "s3://inference-output/results/abc.out")]) |}] |}.

(** The notification that the inference of a job failed. *)
Definition failed_notification (jobId : string) : SnsEvent :=
  {| Records :=
       Some [{| EventSource := "aws:sns";
                TopicArn := "arn:aws:sns:us-east-1:123456789012:inference-error";
                Message :=
                  Parsed (JObj [("inferenceId", JStr jobId);
                                ("errorMessage", JStr "CUDA out of memory")]) |}] |}.

(** The requests of a run that starts in [w], the earliest first. *)
Definition requests_of (w : World) (run : Response * World) : list request :=
  rev (issued w run.2).

(** [l] interleaves [l1] and [l2]: it keeps the order of each. *)
Inductive merges {A} : list A -> list A -> list A -> Prop :=
  | merges_nil : merges [] [] []
  | merges_left x l1 l2 l : merges l1 l2 l -> merges (x :: l1) l2 (x :: l)
  | merges_right x l1 l2 l : merges l1 l2 l -> merges l1 (x :: l2) (x :: l).

Lemma merges_left_only {A} (l : list A) : merges l [] l.
Proof. induction l; by constructor. Qed.

Lemma merges_right_only {A} (l : list A) : merges [] l l.
Proof. induction l; by constructor. Qed.

(** One list put into another as a block. *)
Lemma merges_block {A} n (l1 l2 : list A) :
  merges l1 l2 (take n l1 ++ l2 ++ drop n l1).
Proof.
  revert l1. induction n as [|n IH]; intros l1.
  - rewrite take_0, drop_0. simpl.
    induction l2 as [|x l2 IH2]; simpl; [apply merges_left_only|].
    by constructor.
  - destruct l1 as [|x l1]; simpl.
    + rewrite app_nil_r. apply merges_right_only.
    + constructor. apply IH.
Qed.

(** The table accepts a request: its condition holds and its values
    are in order. *)
Definition table_accepts (r : request) (d : gmap string item) : bool :=
  match r with
  | PutItem it conditional =>
      match item_key it with
      | Some k => negb (conditional && bool_decide (is_Some (d !! k)))
      | None => false
      end
  | UpdateItem k sets =>
      bool_decide (NoDup sets.*1) && bool_decide (is_Some (d !! k))
  | UpdateItemUnconditional key sets =>
      match key with
      | JStr k =>
          bool_decide (NoDup sets.*1)
          && forallb (fun kv => Js.is_string (Some kv.2)) sets
          && negb (bool_decide (k = ""))
      | _ => false
      end
  | _ => true
  end.

(** The table accepts each request of a history where it lands. *)
Fixpoint all_accepted (history : list request) (d : gmap string item) : bool :=
  match history with
  | [] => true
  | r :: rest => table_accepts r d && all_accepted rest (lands r d)
  end.

(** An asynchronous submit of the service by alice, run on its own:
    the put that creates the record, the staging write, the invocation of
    the endpoint, the update to RUNNING. *)
Definition submit_requests : list request :=
  requests_of empty_world
    (SubmitJob.handler calm (post_as "alice" async_sunset) empty_world).

(** The callback for the same job: eight requests, the last of which
    marks the job as succeeded. *)
Definition completion_requests : list request :=
  requests_of empty_world
    (Callback.handler outputs_missing "images"
       (succeeded_notification (fresh_id calm)) empty_world).

(** The callback runs between the invocation of the endpoint and the
    update to RUNNING. *)
Definition overtaken : list request :=
  take 3 submit_requests ++ completion_requests ++ drop 3 submit_requests.

(** C3 (amended).  The code keeps no order of the statuses of a job in
    the table: no write is conditional on the status that the record has.
    What holds:
    - the statuses that one invocation asks the table to store, whoever
      issues it, are in the order PENDING, RUNNING, then SUCCEEDED or
      FAILED;
    - a request of an invocation that lands on a table in which a job is
      terminal leaves the job terminal, whatever else the table holds by
      then, unless it is the update of [updateJobStatus] to a status that
      is not final (which the submit handler of the service issues for
      RUNNING) or the first put of the inline submit handler;
    - the first exception happens without any misuse of the job store:
      when the callback for a job runs between the invocation of the
      endpoint and the update to RUNNING of the submit that created the
      job, the table accepts every request and the job goes from SUCCEEDED
      back to RUNNING. *)
Theorem job_status_only_moves_forward :
  (forall o w w', invocation o w w' -> forward (statuses (issued w w')))
  /\ (forall o w w' r d j it,
         invocation o w w' ->
         r ∈ issued w w' ->
         d !! j = Some it ->
         is_terminal it ->
         (exists it', lands r d !! j = Some it' /\ is_terminal it')
         \/ reverts o j r)
  /\ (merges submit_requests completion_requests overtaken
      /\ all_accepted overtaken ∅ = true
      /\ status_of (table_after (take 3 submit_requests ++ completion_requests) ∅
                      !! fresh_id calm) = Some "SUCCEEDED"
      /\ status_of (table_after overtaken ∅ !! fresh_id calm) = Some "RUNNING").
Proof.
  split; [exact invocation_forward|]. split.
  - intros o w w' r d j it Hinv Hr Hit Hterm.
    apply (terminal_stays o r d j it); [|done|done].
    pose proof (invocation_asks o w w' Hinv) as Hall.
    rewrite Forall_forall in Hall. by apply Hall.
  - split; [apply merges_block|]. vm_compute. repeat split; reflexivity.
Qed.

Lemma job_status_only_moves_forward_witness :
  let j := fresh_id calm in
  let w' := (Callback.handler outputs_missing "images"
               (failed_notification j) empty_world).2 in
  let d : gmap string item := {[j := sample_job j "alice" SUCCEEDED]} in
  invocation callback empty_world w'
  /\ forward (statuses (issued empty_world w'))
  /\ match issued empty_world w' !! 0 with
     | Some r =>
         r ∈ issued empty_world w'
         /\ ((exists it', lands r d !! j = Some it' /\ is_terminal it')
             \/ reverts callback j r)
     | None => False
     end.
Proof.
  intros j w' d.
  destruct job_status_only_moves_forward as (Hforward & Hstays & _).
  assert (invocation callback empty_world w') as Hinv by apply invoke_callback.
  split; [exact Hinv|]. split; [by apply (Hforward callback)|].
  destruct (issued empty_world w' !! 0) as [r|] eqn:E;
    [|exfalso; revert E; by vm_compute].
  assert (r ∈ issued empty_world w') as Hin by by eapply list_elem_of_lookup_2.
  split; [exact Hin|].
  apply (Hstays callback empty_world w' r d j (sample_job j "alice" SUCCEEDED));
    [exact Hinv|exact Hin|apply lookup_singleton_eq|].
  left. by vm_compute.
Defined.

(** ** C2: creation is write-once *)

(** In the service, a submit under an identifier that is taken is
    refused with status 500 and writes nothing. *)
Lemma submit_taken_identifier env event w a :
  httpMethod event <> "OPTIONS" ->
  SubmitJob.validated event = Return a ->
  is_Some (db w !! fresh_id env) ->
  statusCode (SubmitJob.handler env event w).1 = 500%Z
  /\ db (SubmitJob.handler env event w).2 = db w.
Proof.
  intros Hm Ha Hex.
  assert (exists e w',
             SubmitJob.handler env event w
             = (errorResponse env (InternalError "Failed to create job" e), w')
             /\ db w' = db w) as (e & w' & -> & Hdb); [|by split].
  unfold SubmitJob.handler, SubmitJob.submit.
  rewrite decide_False by done. unfold bind at 1, lift. rewrite Ha.
  destruct (SubmitJob.create_and_dispatch _ _ _ _) as [r w'] eqn:E.
  apply create_and_dispatch_existing in E as [Hdb [e ->]]; [|done].
  eauto.
Qed.

(** C2 fails in the inline Lambda variant: its put carries no condition.
    Two submits for which the generator returns the same identifier both
    succeed, and the second record replaces the first. *)
Theorem lambda_submit_overwrites_job :
  let first := SubmitJobLambda.handler calm (post_as "alice" async_sunset) empty_world in
  let second := SubmitJobLambda.handler calm (post_as "bob" sync_sunset) first.2 in
  statusCode first.1 = 202%Z
  /\ db first.2 !! fresh_id calm ≫= (.!! "userId") = Some (JStr "alice")
  /\ statusCode second.1 = 200%Z
  /\ db second.2 !! fresh_id calm ≫= (.!! "userId") = Some (JStr "bob")
  /\ size (db second.2) = 1.
Proof. vm_compute. repeat split; reflexivity. Qed.

(** ** C4: a dispatch that fails *)

Definition access_denied : error := Error "AccessDenied" "Access Denied".
Definition unreachable : error :=
  Error "ServiceUnavailable" "SageMaker service unavailable".

(** The requests that ask the worker pool for an inference. *)
Definition is_inference (r : request) : bool :=
  match r with
  | InvokeEndpointAsync _ _ | InvokeEndpoint _ => true
  | _ => false
  end.

Definition attempts (l : list request) : nat :=
  length (List.filter is_inference l).

(** C4 fails in the inline Lambda variant: when the staging write (the
    second request of the invocation) throws, the caller gets status 500
    but the record stays PENDING and carries no error. *)
Theorem lambda_dispatch_failure_leaves_pending :
  let run := SubmitJobLambda.handler (failing 1 access_denied)
               (post_as "alice" async_sunset) empty_world in
  statusCode run.1 = 500%Z
  /\ status_of (db run.2 !! fresh_id calm) = Some "PENDING"
  /\ db run.2 !! fresh_id calm ≫= (.!! "error") = None
  /\ statuses (sent run.2) = ["PENDING"].
Proof. vm_compute. repeat split; reflexivity. Qed.

(** In the service, when the worker pool refuses the invocation (the
    third request), the record does become FAILED after that one
    attempt; the message recorded is the one of the wrapping
    [InternalError], not the one of the error underneath. *)
Lemma service_dispatch_failure_records_wrapper :
  let run := SubmitJob.handler (failing 2 unreachable)
               (post_as "alice" async_sunset) empty_world in
  statusCode run.1 = 500%Z
  /\ status_of (db run.2 !! fresh_id calm) = Some "FAILED"
  /\ db run.2 !! fresh_id calm ≫= (.!! "error")
     = Some (JStr "Failed to start inference")
  /\ statuses (sent run.2) = ["FAILED"; "PENDING"]
  /\ attempts (sent run.2) = 1.
Proof. vm_compute. repeat split; reflexivity. Qed.

(** ** C7: an asynchronous submit that is dispatched *)

(** C7 fails in the inline Lambda variant: the response is the one
    claimed, but the record is left PENDING. *)
Theorem lambda_async_submit_stays_pending :
  let run := SubmitJobLambda.handler calm (post_as "alice" async_sunset)
               empty_world in
  statusCode run.1 = 202%Z
  /\ payload_of run.1
     = Json (JObj [("jobId", JStr (fresh_id calm)); ("status", JStr "PENDING");
                   ("message", JStr "Job submitted successfully. First inference may take up to 60 seconds due to cold start.");
                   ("estimatedWaitTime", JStr "60-120 seconds")])
  /\ status_of (db run.2 !! fresh_id calm) = Some "PENDING"
  /\ statuses (sent run.2) = ["PENDING"].
Proof. vm_compute. repeat split; reflexivity. Qed.

(** ** C10: requests without an identity *)

(** The event carries claims with a user identifier: a [sub] or a
    [cognito:username] that is not empty. *)
Definition identified (event : Event) : Prop :=
  exists cl, claims event = Some cl
             /\ (Js.truthy (Js.assoc "sub" cl) = true
                 \/ Js.truthy (Js.assoc "cognito:username" cl) = true).

Lemma truthy_or a b :
  Js.truthy (Js.or a b) = true <-> Js.truthy a = true \/ Js.truthy b = true.
Proof.
  unfold Js.or. destruct (Js.truthy a) eqn:E; [rewrite E|]; naive_solver.
Qed.

Lemma extractUserContext_identified event :
  (exists ctx, extractUserContext event = Return ctx) <-> identified event.
Proof.
  unfold extractUserContext, identified.
  destruct (claims event) as [cl|]; [|split; [intros [? [=]]|intros (?&[=]&_)]].
  pose proof (truthy_or (Js.assoc "sub" cl) (Js.assoc "cognito:username" cl)) as Hor.
  destruct (Js.or (Js.assoc "sub" cl) (Js.assoc "cognito:username" cl)) as [id|] eqn:Eid.
  - destruct (Js.truthy (Some id)) eqn:Et.
    + split; [intros _; exists cl; naive_solver|eauto].
    + split; [intros [? [=]]|]. intros (cl' & [= <-] & H). apply Hor in H. done.
  - split; [intros [? [=]]|]. intros (cl' & [= <-] & H). apply Hor in H. done.
Qed.

Lemma extractUserContext_throws event :
  ~ identified event ->
  extractUserContext event = Throw (UnauthorizedError "Invalid authentication").
Proof.
  intros Hn. destruct (extractUserContext event) as [ctx|e] eqn:E.
  - destruct Hn. apply extractUserContext_identified. eauto.
  - revert E. unfold extractUserContext. repeat case_match; congruence.
Qed.

Lemma getUserId_truthy event : Js.truthy (getUserId event) = true.
Proof.
  unfold getUserId. destruct (claims event); [|done].
  apply truthy_or. by right.
Qed.

Lemma getUserId_anonymous event :
  ~ identified event -> getUserId event = Some (JStr "anonymous").
Proof.
  intros Hn. unfold getUserId. destruct (claims event) as [cl|] eqn:E; [|done].
  unfold Js.or at 1.
  destruct (Js.truthy (Js.or _ _)) eqn:Et; [|done].
  destruct Hn. exists cl. split; [done|]. by apply truthy_or.
Qed.

(** C10.  [extractUserContext] returns a user context exactly when the
    event carries a [sub] or [cognito:username] claim (one that is not
    empty); otherwise it throws [UnauthorizedError], which the handlers of
    the service answer with status 403, before any write.  [getUserId] of
    the inline Lambda variants never fails: it always returns an
    identifier, and without such a claim the identifier ['anonymous']. *)
Theorem missing_identity_rejected_or_anonymous env event w :
  ((exists ctx, extractUserContext event = Return ctx) <-> identified event)
  /\ (~ identified event ->
      extractUserContext event = Throw (UnauthorizedError "Invalid authentication")
      /\ (httpMethod event <> "OPTIONS" ->
          statusCode (SubmitJob.handler env event w).1 = 403%Z
          /\ (SubmitJob.handler env event w).2 = w)
      /\ (httpMethod event <> "OPTIONS" ->
          (exists jobId, pathId event = Some jobId /\ jobId <> "") ->
          statusCode (GetJob.handler env event w).1 = 403%Z
          /\ (GetJob.handler env event w).2 = w)
      /\ getUserId event = Some (JStr "anonymous"))
  /\ Js.truthy (getUserId event) = true.
Proof.
  split; [apply extractUserContext_identified|].
  split; [|apply getUserId_truthy].
  intros Hn. pose proof (extractUserContext_throws event Hn) as Hthrow.
  split; [done|]. split; [|split; [|by apply getUserId_anonymous]].
  - intros Hm. unfold SubmitJob.handler, SubmitJob.submit, SubmitJob.validated.
    rewrite decide_False by done. unfold bind, lift. by rewrite Hthrow.
  - intros Hm (jobId & Hp & Hne). unfold GetJob.handler, GetJob.get.
    rewrite decide_False by done. rewrite Hp.
    destruct jobId; [done|]. unfold bind, lift. by rewrite Hthrow.
Qed.

(** ** C6: who may read a job *)

Lemma strict_eq_strings a b :
  Js.strict_eq (Some (JStr a)) (Some (JStr b)) = true <-> a = b.
Proof. simpl. by rewrite bool_decide_eq_true. Qed.

(** The job is read when the request reaches the table. *)
Lemma getJob_found env jobId w job :
  fault env (length (sent w)) = None ->
  db w !! jobId = Some job ->
  DynamoDBService.getJob env jobId w
  = (Return (Some job),
     {| db := db w; staging := staging w; sent := GetItem jobId :: sent w;
        ticks := ticks w |}).
Proof.
  intros Hf Hj. unfold DynamoDBService.getJob, try_catch, get_item.
  rewrite send_ok by done. simpl. by rewrite Hj.
Qed.

(** The status with which the service answers a request for an
    existing job. *)
Lemma get_status env event w jobId job ctx :
  httpMethod event <> "OPTIONS" ->
  pathId event = Some jobId ->
  jobId <> "" ->
  db w !! jobId = Some job ->
  fault env (length (sent w)) = None ->
  extractUserContext event = Return ctx ->
  statusCode (GetJob.handler env event w).1
  = match validateResourceAccess ctx (job !! "userId") with
    | Return _ => 200%Z
    | Throw _ => 403%Z
    end.
Proof.
  intros Hm Hp Hne Hj Hf Hctx.
  unfold GetJob.handler, GetJob.get. rewrite decide_False by done.
  rewrite Hp. destruct jobId as [|c jobId']; [done|].
  unfold bind at 1, lift. rewrite Hctx. unfold bind at 1.
  rewrite (getJob_found _ _ _ job) by done.
  unfold bind, lift, validateResourceAccess.
  destruct (isAdmin ctx); [done|]. by destruct (negb _).
Qed.

(** The same for the inline Lambda variant. *)
Lemma lambda_get_status env event w jobId job :
  pathId event = Some jobId ->
  jobId <> "" ->
  db w !! jobId = Some job ->
  fault env (length (sent w)) = None ->
  statusCode (GetJobLambda.handler env event w).1
  = if GetJobLambda.denied job (getUserId event) then 403%Z else 200%Z.
Proof.
  intros Hp Hne Hj Hf. unfold GetJobLambda.handler, GetJobLambda.get.
  rewrite Hp. destruct jobId as [|c jobId']; [done|].
  unfold bind, get_item. rewrite send_ok by done. simpl.
  rewrite Hj. by destruct (GetJobLambda.denied _ _).
Qed.

(** A requester who holds the elevated role: a member of the group
    [admin]. *)
Definition get_as_admin (user jobId : string) : Event :=
  {| httpMethod := "GET"; requestId := "test-request-id";
     claims := Some [("sub", JStr user); ("cognito:groups", JArr [JStr "admin"])];
     body := NoBody; pathId := Some jobId |}.

(** C6 fails in the inline Lambda variant: it takes the user whose
    identifier is [admin] for the elevated one and never looks at the
    role.  On a job of alice's, a requester who holds the role [admin]
    is answered 200 by the service and 403 by the inline handler; a
    requester without the role whose identifier is [admin] is answered
    403 by the service and 200 by the inline handler. *)
Theorem lambda_get_takes_admin_for_a_user_id :
  let w := world_with (sample_job "J1" "alice" RUNNING) in
  let role_holder := get_as_admin "carol" "J1" in
  let namesake := get_as "admin" "J1" in
  match extractUserContext role_holder, extractUserContext namesake with
  | Return holder, Return other => isAdmin holder = true /\ isAdmin other = false
  | _, _ => False
  end
  /\ statusCode (GetJob.handler calm role_holder w).1 = 200%Z
  /\ statusCode (GetJobLambda.handler calm role_holder w).1 = 403%Z
  /\ statusCode (GetJob.handler calm namesake w).1 = 403%Z
  /\ statusCode (GetJobLambda.handler calm namesake w).1 = 200%Z.
Proof. vm_compute. repeat split; reflexivity. Qed.

(** In the service, a request for an existing job, once the job is
    read, is answered with status 200 exactly when the requester's user
    identifier is the one of the job's owner or the requester holds the
    elevated role (the [cognito:groups] include [admin]), and with status
    403 (not 404) otherwise. *)
Theorem service_get_allowed_for_owner_or_admin
    env event w jobId job ctx requester owner :
  httpMethod event <> "OPTIONS" ->
  pathId event = Some jobId ->
  jobId <> "" ->
  db w !! jobId = Some job ->
  job !! "userId" = Some (JStr owner) ->
  fault env (length (sent w)) = None ->
  extractUserContext event = Return ctx ->
  userId ctx = JStr requester ->
  let response := (GetJob.handler env event w).1 in
  (statusCode response = 200%Z <-> requester = owner \/ isAdmin ctx = true)
  /\ (~ (requester = owner \/ isAdmin ctx = true) -> statusCode response = 403%Z).
Proof.
  intros Hm Hp Hne Hj Ho Hf Hctx Hu response. subst response.
  rewrite (get_status env event w jobId job ctx) by done.
  unfold validateResourceAccess. rewrite Hu, Ho. simpl.
  destruct (isAdmin ctx); [naive_solver|].
  destruct (bool_decide_reflect (requester = owner)); simpl; naive_solver.
Qed.

Lemma service_get_allowed_for_owner_or_admin_witness :
  let w := world_with (sample_job "J1" "alice" RUNNING) in
  let bob := get_as "bob" "J1" in
  httpMethod bob <> "OPTIONS"
  /\ db w !! "J1" = Some (sample_job "J1" "alice" RUNNING)
  /\ statusCode (GetJob.handler calm bob w).1 = 403%Z.
Proof.
  intros w bob.
  assert (httpMethod bob <> "OPTIONS") as H1 by done.
  assert ("J1" <> "") as H3 by done.
  assert (db w !! "J1" = Some (sample_job "J1" "alice" RUNNING)) as H4
    by reflexivity.
  split; [exact H1|]. split; [exact H4|].
  destruct (service_get_allowed_for_owner_or_admin calm bob w "J1" _
              {| userId := JStr "bob"; email := None; username := None;
                 isAdmin := false |} "bob" "alice"
              H1 eq_refl H3 H4 eq_refl eq_refl eq_refl eq_refl) as [_ H403].
  apply H403. intros [|]; done.
Defined.

(** In the inline Lambda variant, a request for an existing job, once
    the job is read, is answered with status 200 exactly when the
    requester's user identifier is the one of the job's owner or is the
    string [admin], and with status 403 otherwise; the groups of the
    requester play no part. *)
Theorem lambda_get_allowed_for_owner_or_namesake
    env event w jobId job requester owner :
  pathId event = Some jobId ->
  jobId <> "" ->
  db w !! jobId = Some job ->
  job !! "userId" = Some (JStr owner) ->
  fault env (length (sent w)) = None ->
  getUserId event = Some (JStr requester) ->
  let response := (GetJobLambda.handler env event w).1 in
  (statusCode response = 200%Z <-> requester = owner \/ requester = "admin")
  /\ (~ (requester = owner \/ requester = "admin") -> statusCode response = 403%Z).
Proof.
  intros Hp Hne Hj Ho Hf Hu response. subst response.
  rewrite (lambda_get_status env event w jobId job) by done.
  unfold GetJobLambda.denied. rewrite Hu, Ho. simpl.
  destruct (bool_decide_reflect (owner = requester)) as [->|Hno];
    destruct (bool_decide_reflect (requester = "admin")) as [->|Hna]; simpl;
    naive_solver.
Qed.

Lemma lambda_get_allowed_for_owner_or_namesake_witness :
  let w := world_with (sample_job "J1" "alice" RUNNING) in
  let role_holder := get_as_admin "carol" "J1" in
  db w !! "J1" = Some (sample_job "J1" "alice" RUNNING)
  /\ statusCode (GetJobLambda.handler calm role_holder w).1 = 403%Z.
Proof.
  intros w role_holder.
  assert ("J1" <> "") as H3 by done.
  assert (db w !! "J1" = Some (sample_job "J1" "alice" RUNNING)) as H4
    by reflexivity.
  split; [exact H4|].
  destruct (lambda_get_allowed_for_owner_or_namesake calm role_holder w "J1" _
              "carol" "alice" eq_refl H3 H4 eq_refl eq_refl eq_refl)
    as [_ H403].
  apply H403. intros [|]; done.
Defined.

(** ** C9: a request that fails validation *)

Lemma safeParse_object_issues shape data found :
  Zod.safeParse (Zod.object shape) data = inl found -> found <> [].
Proof.
  unfold Zod.safeParse, Zod.object.
  destruct data; simpl; try (by intros [= <-]).
  destruct (Zod.fields shape [] fields) as [[stop out] issues].
  simpl. destruct issues; [done|]. by intros [= <-].
Qed.

(** C9.  A submit whose request fails validation is answered with
    status 400 and the list of violations, and the world is as it was:
    no record, no staged input, no request to any service.  In the
    service the violations are the issues of the schema, each with the
    path of its field; in the inline Lambda variant they are the messages
    of [validateInput]. *)
Theorem rejected_request_writes_nothing env event w :
  (forall ctx b found,
      httpMethod event <> "OPTIONS" ->
      extractUserContext event = Return ctx ->
      body event = Parsed b ->
      Zod.safeParse SubmitJobRequestSchema b = inl found ->
      found <> []
      /\ SubmitJob.handler env event w
         = ({| statusCode := 400; headers := CORS_HEADERS;
               payload_of := Failure "Validation failed"
                               "Invalid request parameters" (Some found) |}, w))
  /\ (forall b first rest,
         SubmitJobLambda.parsed_body event = Some b ->
         SubmitJobLambda.validateInput b = Return (first :: rest) ->
         SubmitJobLambda.handler env event w
         = (reply SubmitJobLambda.POST 400
              [("error", Some (JStr "Validation failed"));
               ("details", Some (JArr (JStr <$> first :: rest)))], w)).
Proof.
  split.
  - intros ctx b found Hm Hctx Hb Hparse.
    split; [by eapply safeParse_object_issues|].
    unfold SubmitJob.handler, SubmitJob.submit, SubmitJob.validated.
    rewrite decide_False by done. unfold bind, lift.
    by rewrite Hctx, Hb, Hparse.
  - intros b first rest Hb Hv.
    unfold SubmitJobLambda.handler, SubmitJobLambda.submit.
    rewrite Hb. unfold bind, lift. by rewrite Hv.
Qed.

(** ** C8: the completion time *)

(** The record carries a completion time exactly when it is terminal. *)
Definition completion_recorded (job : item) : Prop :=
  is_Some (job !! "completedAt") <-> is_terminal job.

(** C8 as stated fails: the job store moves a job that SUCCEEDED on to
    RUNNING and leaves its completion time in place, so that a record
    that is not terminal carries one. *)
Lemma running_job_with_completion_time :
  let w := world_with (sample_job "J1" "alice" PENDING) in
  let first := DynamoDBService.updateJobStatus calm "J1" SUCCEEDED success_signal w in
  let second := DynamoDBService.updateJobStatus calm "J1" RUNNING ∅ first.2 in
  first.1 = Return tt
  /\ second.1 = Return tt
  /\ status_of (db second.2 !! "J1") = Some "RUNNING"
  /\ db second.2 !! "J1" ≫= (.!! "completedAt")
     = Some (JStr "2024-01-01T00:00:00.001Z").
Proof. vm_compute. repeat split; done. Qed.

(** *** Which writes keep the completion time in step *)

(** The record under [j], if any, carries a completion time exactly
    when it is terminal. *)
Definition recorded_at (j : string) (d : gmap string item) : Prop :=
  forall it, d !! j = Some it -> completion_recorded it.

(** The writes that can leave a record with a completion time and no
    terminal status, or the other way round: the update of
    [updateJobStatus] to a status that is not final, which keeps the
    completion time there is; the update of the callback handler that
    marks a job as failed, and the puts of the inline submit handler that
    mark it as succeeded or failed, which bring none. *)
Definition unrecords (o : origin) (j : string) (r : request) : Prop :=
  (o = service_submit
   /\ exists sets, r = UpdateItem j sets /\ written_status r = Some "RUNNING")
  \/ (o = job_store
      /\ exists sets s, r = UpdateItem j sets /\ written_status r = Some s
                        /\ rank s < 2)
  \/ (o = callback
      /\ exists sets, r = UpdateItemUnconditional (JStr j) sets
                      /\ written_status r = Some "FAILED")
  \/ (o = inline_submit
      /\ exists it s, r = PutItem it false /\ item_key it = Some j
                      /\ written_status r = Some s
                      /\ (s = "SUCCEEDED" \/ s = "FAILED")).

Lemma pending_recorded it :
  status_of (Some it) = Some "PENDING" -> it !! "completedAt" = None ->
  completion_recorded it.
Proof.
  intros Hs Hc. unfold completion_recorded. rewrite Hc.
  split; [by intros [? [=]]|]. unfold is_terminal. rewrite Hs. by intros [[=]|[=]].
Qed.

Lemma updated_recorded env status updates n it :
  is_final status = true -> updates !! "completedAt" = None ->
  completion_recorded (updated env status updates n it).
Proof.
  intros Hf Hc. unfold completion_recorded.
  rewrite updated_completedAt by done.
  split; [intros _; by apply updated_terminal|by eauto].
Qed.

Lemma recorded_stays o r d j :
  asks o r -> recorded_at j d ->
  recorded_at j (lands r d) \/ unrecords o j r.
Proof.
  intros Hask Hrec.
  destruct (decide (target r = Some j)) as [Ht|Ht];
    [|left; intros it; rewrite lands_elsewhere by done; apply Hrec].
  destruct Hask as [Hr|Ho]; [left; by rewrite lands_reads_only|].
  destruct o; simpl in Ho; try done.
  - destruct Ho as [env [(it0 & -> & Hk & Hst & Hnc)|(status & Hs & updates & n & ->)]].
    + left. simpl in *. rewrite Ht. case_match; [done|].
      intros it. rewrite lookup_insert_eq. intros [= <-].
      by apply pending_recorded.
    + simpl in Ht. injection Ht as Ht. rewrite Ht.
      destruct (is_final status) eqn:Hf.
      * left. intros it'. destruct (d !! j) as [it|] eqn:Hit.
        -- destruct (lands_update env j status updates n d it Hit) as [H|[H Hc]];
             rewrite H; intros [= <-]; [by apply Hrec|].
           apply updated_recorded; auto.
        -- simpl. rewrite Hit. case_bool_decide; rewrite Hit; done.
      * right. left. split; [done|]. eexists. split; [done|].
        rewrite written_status_assignments. by destruct status.
  - destruct Ho as (env & s & Hs & it0 & -> & Hk & Hst & Hnc).
    simpl in Ht. rewrite Hk in Ht. injection Ht as Ht. rewrite Ht in Hk.
    apply elem_of_cons in Hs as [->|Hs].
    { left. simpl. rewrite Hk. simpl. intros it. rewrite lookup_insert_eq.
      intros [= <-]. by apply pending_recorded. }
    right. right. right. right. split; [done|]. exists it0, s.
    repeat split; try done. set_solver.
  - destruct Ho as [(key & u & c & more & -> & _)|(key & u & m & ->)];
      destruct key; try done; simpl in Ht; injection Ht as ->.
    + left. simpl. case_match; [|done].
      intros it. rewrite lookup_insert_eq. intros [= <-].
      unfold completion_recorded. split.
      * intros _. left. apply upsert_status. apply lookup_insert_eq.
      * intros _. exists (JStr c). apply lookup_union_Some_l.
        rewrite !lookup_insert_ne by done. apply lookup_insert_eq.
    + right. right. right. left. split; [done|]. eexists. split; [done|].
      unfold written_status, status_of. simpl. by rewrite lookup_insert_eq.
  - destruct Ho as (env & k & status & updates & n & ->).
    simpl in Ht. injection Ht as ->.
    destruct (is_final status) eqn:Hf.
    + left. intros it'. destruct (d !! j) as [it|] eqn:Hit.
      * destruct (lands_update env j status updates n d it Hit) as [H|[H Hc]];
          rewrite H; intros [= <-]; [by apply Hrec|].
        apply updated_recorded; auto.
      * simpl. rewrite Hit. case_bool_decide; rewrite Hit; done.
    + right. right. left. split; [done|]. eexists _, _. split; [done|].
      rewrite written_status_assignments. split; [done|].
      by destruct status; vm_compute; try lia.
Qed.

(** When [updateJobStatus] returns, the table accepted the update
    expression, the record was there and is updated. *)
Lemma updateJobStatus_returned env jobId status updates w w' :
  DynamoDBService.updateJobStatus env jobId status updates w = (Return tt, w') ->
  NoDup (assignments env status updates (ticks w)).*1
  /\ exists it, db w !! jobId = Some it
                /\ db w' = <[jobId := updated env status updates (ticks w) it]> (db w).
Proof.
  rewrite updateJobStatus_clock.
  unfold try_catch, update_item, send. cbn [sent db staging ticks].
  destruct (fault env _); simpl.
  { by case_decide. }
  case_bool_decide as Hnd; simpl; [|done].
  destruct (db w !! jobId) as [it|] eqn:Hit; simpl; [|done].
  intros [= <-]. eauto.
Qed.

(** A failure notification for a job that is RUNNING, handled by the
    callback on its own. *)
Definition failure_requests : list request :=
  requests_of empty_world
    (Callback.handler calm "images" (failed_notification (fresh_id calm))
       empty_world).

(** C8 (amended).  The completion time and the terminal statuses do
    not go together throughout the code.  What holds:
    - every move into a final status that [updateJobStatus] applies
      records the completion time, the second clock reading of the call;
    - a request of an invocation, whoever issues it, that lands on a
      table in which a record carries a completion time exactly when it
      is terminal leaves it so, whatever else the table holds by then,
      unless it is the update of [updateJobStatus] to a status that is
      not final (which the submit handler of the service issues for
      RUNNING), an update of the callback handler that marks the job as
      failed, or a put of the inline submit handler that marks it as
      succeeded or failed;
    - the exceptions happen: the submit that the callback overtakes
      leaves the job RUNNING with a completion time, and a failure
      notification leaves a job FAILED without one. *)
Theorem completion_time_iff_terminal :
  (forall env j status updates w w1,
      is_final status = true ->
      DynamoDBService.updateJobStatus env j status updates w = (Return tt, w1) ->
      exists it1,
        db w1 !! j = Some it1
        /\ it1 !! "completedAt" = Some (JStr (clock env (S (ticks w))))
        /\ is_terminal it1)
  /\ (forall o w w' r d j,
         invocation o w w' ->
         r ∈ issued w w' ->
         recorded_at j d ->
         recorded_at j (lands r d) \/ unrecords o j r)
  /\ (let after_race := table_after overtaken ∅ !! fresh_id calm in
      let running : gmap string item :=
        {[fresh_id calm := sample_job (fresh_id calm) "alice" RUNNING]} in
      let after_failure := table_after failure_requests running !! fresh_id calm in
      status_of after_race = Some "RUNNING"
      /\ is_Some (after_race ≫= (.!! "completedAt"))
      /\ all_accepted failure_requests running = true
      /\ status_of after_failure = Some "FAILED"
      /\ after_failure ≫= (.!! "completedAt") = None).
Proof.
  split; [|split].
  - intros env j status updates w w1 Hf E.
    apply updateJobStatus_returned in E as (Hnd & it & Hit & Hdb).
    exists (updated env status updates (ticks w) it).
    rewrite Hdb, lookup_insert_eq. split; [done|].
    split; [|by apply updated_terminal].
    apply updated_completedAt; [done|]. by eapply assignments_accepted.
  - intros o w w' r d j Hinv Hr Hrec.
    apply (recorded_stays o r d j); [|done].
    pose proof (invocation_asks o w w' Hinv) as Hall.
    rewrite Forall_forall in Hall. by apply Hall.
  - vm_compute. repeat split; try reflexivity. by eexists.
Qed.

Lemma completion_time_iff_terminal_witness :
  let j := fresh_id calm in
  let run := SubmitJob.handler calm (post_as "alice" sync_sunset) empty_world in
  let d : gmap string item := {[j := sample_job j "alice" PENDING]} in
  invocation service_submit empty_world run.2
  /\ recorded_at j d
  /\ match issued empty_world run.2 !! 0 with
     | Some r =>
         written_status r = Some "SUCCEEDED"
         /\ (recorded_at j (lands r d) \/ unrecords service_submit j r)
     | None => False
     end.
Proof.
  intros j run d.
  destruct completion_time_iff_terminal as (_ & Hstays & _).
  assert (invocation service_submit empty_world run.2) as Hinv
    by apply invoke_submit.
  assert (recorded_at j d) as Hrec.
  { intros it. unfold d. rewrite lookup_singleton_eq. intros [= <-].
    apply pending_recorded; reflexivity. }
  split; [exact Hinv|]. split; [exact Hrec|].
  destruct (issued empty_world run.2 !! 0) as [r|] eqn:E;
    [|exfalso; revert E; by vm_compute].
  assert (r ∈ issued empty_world run.2) as Hin by by eapply list_elem_of_lookup_2.
  split.
  - revert E. vm_compute. by intros [= <-].
  - by apply (Hstays service_submit empty_world run.2 r d j).
Defined.

(** ** C5: what the request schema accepts *)

Section Numbers.

Lemma is_integer_spec q :
  Js.is_integer q = true <-> exists z, (q == inject_Z z)%Q.
Proof.
  unfold Js.is_integer, Qeq. simpl. rewrite Z.eqb_eq, Z.rem_divide by done.
  split; intros [z Hz]; exists z; lia.
Qed.

Lemma rem_is_zero_spec q m :
  (0 < m)%Z ->
  Js.rem_is_zero q m = true <-> exists z, (q == inject_Z (m * z))%Q.
Proof.
  intros Hm. unfold Js.rem_is_zero, Qeq. simpl.
  rewrite Z.eqb_eq, Z.rem_divide by lia.
  split; intros [z Hz]; exists z; lia.
Qed.

Lemma not_lt_spec q limit : Js.lt q limit = false <-> (limit <= q)%Q.
Proof. unfold Js.lt. rewrite negb_false_iff. apply Qle_bool_iff. Qed.

Lemma not_gt_spec q limit : Js.gt q limit = false <-> (q <= limit)%Q.
Proof. unfold Js.gt. rewrite negb_false_iff. apply Qle_bool_iff. Qed.

End Numbers.

(** The requirements on the fields of a request. *)

Definition text (v : option json) : Prop := exists s, v = Some (JStr s).

Definition text_of_length (lower upper : nat) (v : option json) : Prop :=
  exists s, v = Some (JStr s) /\ lower <= String.length s <= upper.

Definition number_within (lower upper : Q) (v : option json) : Prop :=
  exists q, v = Some (JNum q) /\ (lower <= q)%Q /\ (q <= upper)%Q.

Definition whole (v : option json) : Prop :=
  exists q z, v = Some (JNum q) /\ (q == inject_Z z)%Q.

Definition multiple_of (m : Z) (v : option json) : Prop :=
  exists q z, v = Some (JNum q) /\ (q == inject_Z (m * z))%Q.

Definition one_of (values : list string) (v : option json) : Prop :=
  exists s, v = Some (JStr s) /\ s ∈ values.

Definition if_given (P : option json -> Prop) (v : option json) : Prop :=
  v = None \/ P v.

(** What the schema requires of each field. *)
Definition requirements : list (string * (option json -> Prop)) :=
  [("prompt", text_of_length 1 1000);
   ("modelId", if_given text);
   ("steps", if_given (fun v => whole v /\ number_within 1 50 v));
   ("guidanceScale", if_given (number_within 1 20));
   ("width", if_given (fun v => number_within 256 1024 v /\ multiple_of 64 v));
   ("height", if_given (fun v => number_within 256 1024 v /\ multiple_of 64 v));
   ("seed", if_given (fun v => whole v /\ number_within 0 2147483647 v));
   ("quality", if_given (one_of ["low"; "medium"; "high"]));
   ("mode", if_given (one_of ["async"; "sync"]));
   ("negativePrompt", if_given (text_of_length 0 500))].

(** The requirements that the specification lists: nothing on the model
    identifier and the negative prompt, and a seed within its bounds. *)
Definition stated_requirements : list (string * (option json -> Prop)) :=
  [("prompt", text_of_length 1 1000);
   ("steps", if_given (fun v => whole v /\ number_within 1 50 v));
   ("guidanceScale", if_given (number_within 1 20));
   ("width", if_given (fun v => number_within 256 1024 v /\ multiple_of 64 v));
   ("height", if_given (fun v => number_within 256 1024 v /\ multiple_of 64 v));
   ("seed", if_given (number_within 0 2147483647));
   ("quality", if_given (one_of ["low"; "medium"; "high"]));
   ("mode", if_given (one_of ["async"; "sync"]))].

Definition meets (reqs : list (string * (option json -> Prop)))
    (fields : list (string * json)) : Prop :=
  Forall (fun kP => kP.2 (Js.assoc kP.1 fields)) reqs.

Definition accepted (b : json) : Prop :=
  exists request, Zod.safeParse SubmitJobRequestSchema b = inr request.

(** A schema finds nothing wrong with a value. *)
Definition clean (s : Zod.schema) (p : list string) (v : option json) : Prop :=
  Zod.issues (s p v) = [].

(** The issues of a schema carry the path of the value. *)
Definition pathed (s : Zod.schema) : Prop :=
  forall p v i, i ∈ Zod.issues (s p v) -> path i = p.

Section Schemas.

Lemma clean_string_any p v : clean (Zod.string []) p v <-> text v.
Proof.
  unfold clean, text, Zod.string.
  destruct v as [[]|]; simpl; split; try done; try (by intros [? [=]]); eauto.
Qed.

Lemma clean_string_between a m1 b m2 p v :
  clean (Zod.string [Zod.str_min a m1; Zod.str_max b m2]) p v
  <-> text_of_length a b v.
Proof.
  unfold clean, text_of_length, Zod.string.
  destruct v as [[| | |s| |]|]; simpl;
    try (split; [done|by intros [? [[=] _]]]).
  destruct (Nat.ltb_spec (String.length s) a), (Nat.ltb_spec b (String.length s));
    simpl; split; try done; try (intros (s' & [= <-] & ?); lia);
    intros _; exists s; split; [done|lia].
Qed.

Lemma clean_string_most b m2 p v :
  clean (Zod.string [Zod.str_max b m2]) p v <-> text_of_length 0 b v.
Proof.
  unfold clean, text_of_length, Zod.string.
  destruct v as [[| | |s| |]|]; simpl;
    try (split; [done|by intros [? [[=] _]]]).
  destruct (Nat.ltb_spec b (String.length s));
    simpl; split; try done; try (intros (s' & [= <-] & ?); lia);
    intros _; exists s; split; [done|lia].
Qed.

Lemma clean_number_within lower m1 upper m2 p v :
  clean (Zod.number [Zod.num_min lower m1; Zod.num_max upper m2]) p v
  <-> number_within lower upper v.
Proof.
  unfold clean, number_within, Zod.number.
  destruct v as [[| |q| | |]|]; simpl;
    try (split; [done|by intros [? [[=] _]]]).
  pose proof (not_lt_spec q lower) as Hl. pose proof (not_gt_spec q upper) as Hu.
  destruct (Js.lt q lower), (Js.gt q upper); simpl; split; try done;
    try (intros (q' & [= <-] & ? & ?); naive_solver);
    intros _; exists q; naive_solver.
Qed.

Lemma clean_whole_number_within lower m1 upper m2 p v :
  clean (Zod.number [Zod.num_int; Zod.num_min lower m1; Zod.num_max upper m2]) p v
  <-> whole v /\ number_within lower upper v.
Proof.
  unfold clean, whole, number_within, Zod.number.
  destruct v as [[| |q| | |]|]; simpl;
    try (split; [done|by intros [(? & ? & [=] & _) _]]).
  pose proof (is_integer_spec q) as Hi.
  pose proof (not_lt_spec q lower) as Hl. pose proof (not_gt_spec q upper) as Hu.
  destruct (Js.is_integer q), (Js.lt q lower), (Js.gt q upper); simpl;
    split; try done;
    try (intros [(q' & z & [= <-] & ?) (q'' & [= <-] & ? & ?)]; naive_solver).
  intros _. destruct Hi as [[z Hz] _]; [done|].
  split; [exists q, z|exists q]; naive_solver.
Qed.

Lemma clean_dimension lower upper multiple p v :
  clean (dimension lower upper multiple) p v
  <-> if_given (fun v => number_within 256 1024 v /\ multiple_of 64 v) v.
Proof.
  unfold dimension, Zod.default, Zod.optional, if_given.
  destruct v as [j|]; [|split; [by left|done]].
  unfold clean, Zod.refine.
  pose proof (clean_whole_number_within 256 (Some lower) 1024 (Some upper) p (Some j))
    as Hn. unfold clean in Hn.
  destruct j as [| |q| | |]; simpl;
    try (split; [done|by intros [[=]|[(? & [=] & _) _]]]).
  simpl in Hn. unfold divisible_by_64.
  pose proof (rem_is_zero_spec q 64 eq_refl) as Hr.
  pose proof (is_integer_spec q) as Hi.
  destruct (Js.rem_is_zero q 64) eqn:Er.
  - rewrite Hn. split.
    + intros [_ Hw]. right. split; [done|].
      destruct Hr as [[z Hz] _]; [done|]. by exists q, z.
    + intros [[=]|[Hw _]]. split; [|done].
      destruct Hr as [[z Hz] _]; [done|]. by exists q, (64 * z)%Z.
  - simpl. split; [by intros [_ [=]]%app_eq_nil|].
    intros [[=]|[_ (q' & z & [= <-] & Hz)]].
    destruct Hr as [_ Hr]. discriminate Hr. by exists z.
Qed.

Lemma clean_enum values p v : clean (Zod.enum values) p v <-> one_of values v.
Proof.
  unfold clean, one_of, Zod.enum.
  destruct v as [[| | |s| |]|]; simpl;
    try (split; [done|by intros [? [[=] _]]]).
  case_bool_decide; simpl; split; try done; [eauto|].
  by intros (s' & [= <-] & ?).
Qed.

(** An optional field with a default that the inner schema accepts. *)
Lemma clean_default value inner p v P :
  clean inner p (Some value) ->
  (forall j, clean inner p (Some j) <-> P (Some j)) ->
  clean (Zod.default value (Zod.optional inner)) p v <-> if_given P v.
Proof.
  intros Hd Hinner. unfold if_given, Zod.default, Zod.optional, clean in *.
  destruct v as [j|]; [|by split; [left|]].
  rewrite Hinner. split; [by right|]. by intros [[=]|].
Qed.

Lemma clean_optional inner p v P :
  (forall j, clean inner p (Some j) <-> P (Some j)) ->
  clean (Zod.optional inner) p v <-> if_given P v.
Proof.
  intros Hinner. unfold if_given, Zod.optional, clean in *.
  destruct v as [j|]; [|by split; [left|]].
  rewrite Hinner. split; [by right|]. by intros [[=]|].
Qed.

End Schemas.

Section Objects.

Lemma fields_issues shape p input :
  (Zod.fields shape p input).2
  = concat (map (fun ks : string * Zod.schema =>
                   Zod.issues (ks.2 (p ++ [ks.1]) (Js.assoc ks.1 input))) shape).
Proof.
  induction shape as [|[k s] rest IH]; [done|]. simpl.
  destruct (Zod.fields rest p input) as [[stop out] found]. simpl in *.
  by rewrite IH.
Qed.

Lemma concat_nil {A} (ls : list (list A)) : concat ls = [] <-> Forall (.= []) ls.
Proof.
  induction ls as [|l ls IH]; simpl; [by split|].
  rewrite Forall_cons, <-IH. split; [by intros [-> ->]%app_eq_nil|by intros [-> ->]].
Qed.

Lemma elem_of_concat {A} (x : A) (ls : list (list A)) :
  x ∈ concat ls <-> exists l, x ∈ l /\ l ∈ ls.
Proof.
  induction ls as [|l ls IH]; simpl.
  - split; [by intros ?%elem_of_nil|by intros (? & _ & ?%elem_of_nil)].
  - rewrite elem_of_app, IH. split.
    + intros [?|(l' & ? & ?)]; [exists l|exists l']; split; try done;
        [by left|by right].
    + intros (l' & Hx & [->|?]%elem_of_cons); [by left|right; eauto].
Qed.

(** The issues found in an object are those of its fields. *)
Lemma safeParse_object_found shape input found :
  Zod.safeParse (Zod.object shape) (JObj input) = inl found ->
  found = concat (map (fun ks : string * Zod.schema =>
                         Zod.issues (ks.2 [ks.1] (Js.assoc ks.1 input))) shape).
Proof.
  unfold Zod.safeParse, Zod.object. simpl.
  pose proof (fields_issues shape [] input) as H.
  destruct (Zod.fields shape [] input) as [[stop out] issues]. simpl in *.
  destruct issues; [done|]. by intros [= <-].
Qed.

(** An object is accepted exactly when each of its fields is. *)
Lemma safeParse_object_accepts shape b :
  (exists request, Zod.safeParse (Zod.object shape) b = inr request)
  <-> exists input, b = JObj input
                    /\ Forall (fun ks : string * Zod.schema =>
                                 clean ks.2 [ks.1] (Js.assoc ks.1 input)) shape.
Proof.
  split.
  - intros [request H]. destruct b as [| | | | |input];
      try (by revert H; unfold Zod.safeParse, Zod.object).
    exists input. split; [done|]. revert H.
    unfold Zod.safeParse, Zod.object. simpl.
    pose proof (fields_issues shape [] input) as Hf.
    destruct (Zod.fields shape [] input) as [[stop out] issues]. simpl in *.
    destruct issues; [|done]. intros _. symmetry in Hf.
    apply concat_nil in Hf. rewrite Forall_fmap in Hf. exact Hf.
  - intros (input & -> & H). unfold Zod.safeParse, Zod.object. simpl.
    pose proof (fields_issues shape [] input) as Hf.
    destruct (Zod.fields shape [] input) as [[stop out] issues]. simpl in *.
    assert (issues = []) as ->; [|eauto].
    rewrite Hf. apply concat_nil. by rewrite Forall_fmap.
Qed.

(** [reqs] says in words what the schemas of [shape] check. *)
Definition describes (shape : list (string * Zod.schema))
    (reqs : list (string * (option json -> Prop))) : Prop :=
  Forall2 (fun (ks : string * Zod.schema) (kP : string * (option json -> Prop)) =>
             ks.1 = kP.1 /\ pathed ks.2
             /\ forall v, clean ks.2 [ks.1] v <-> kP.2 v) shape reqs.

Lemma described_accepts shape reqs b :
  describes shape reqs ->
  (exists request, Zod.safeParse (Zod.object shape) b = inr request)
  <-> exists input, b = JObj input /\ meets reqs input.
Proof.
  intros Hd. rewrite safeParse_object_accepts. unfold meets.
  split; intros (input & -> & H); exists input; (split; [done|]).
  - induction Hd as [|[k s] [k' P] shape reqs (Hk & _ & Hc) _ IH]; [done|].
    simpl in *. subst k'. apply Forall_cons in H as [H1 H2].
    constructor; [by apply Hc|by apply IH].
  - induction Hd as [|[k s] [k' P] shape reqs (Hk & _ & Hc) _ IH]; [done|].
    simpl in *. subst k'. apply Forall_cons in H as [H1 H2].
    constructor; [by apply Hc|by apply IH].
Qed.

(** The fields named by the issues found are the fields that fail their
    requirement. *)
Lemma described_issues shape reqs input found k :
  describes shape reqs ->
  Zod.safeParse (Zod.object shape) (JObj input) = inl found ->
  (exists i, i ∈ found /\ path i = [k])
  <-> exists P, (k, P) ∈ reqs /\ ~ P (Js.assoc k input).
Proof.
  intros Hd ->%safeParse_object_found. split.
  - intros (i & Hin & Hp).
    apply elem_of_concat in Hin as (l & Hi & Hl).
    apply list_elem_of_fmap in Hl as ([k' s] & -> & Hks). simpl in *.
    apply list_elem_of_lookup in Hks as [n Hn].
    destruct (Forall2_lookup_l _ _ _ _ _ Hd Hn) as ([k'' P] & HP & Hk & Hpath & Hc).
    simpl in *. subst k''.
    assert (k' = k) as -> by (apply Hpath in Hi; congruence).
    exists P. split; [by eapply list_elem_of_lookup_2|].
    intros HPv. apply Hc in HPv. unfold clean in HPv. rewrite HPv in Hi.
    by apply elem_of_nil in Hi.
  - intros (P & HP & Hn).
    apply list_elem_of_lookup in HP as [n HP].
    destruct (Forall2_lookup_r _ _ _ _ _ Hd HP) as ([k' s] & Hs & Hk & Hpath & Hc).
    simpl in *. subst k'.
    destruct (Zod.issues (s [k] (Js.assoc k input))) as [|i rest] eqn:Ei.
    { destruct Hn. by apply Hc. }
    exists i. split.
    + apply elem_of_concat. eexists. split; [|apply list_elem_of_fmap].
      2:{ exists (k, s). split; [reflexivity|by eapply list_elem_of_lookup_2]. }
      simpl. rewrite Ei. by left.
    + apply (Hpath [k] (Js.assoc k input)). rewrite Ei. by left.
Qed.

End Objects.

Section Paths.

Lemma pathed_string checks : pathed (Zod.string checks).
Proof.
  intros p v i. unfold Zod.string.
  destruct v as [[| | |s| |]|]; simpl; try (by intros ->%list_elem_of_singleton).
  intros (l & Hi & Hl)%elem_of_concat.
  apply list_elem_of_fmap in Hl as (c & -> & _).
  destruct c; simpl in Hi; case_match;
    by first [apply elem_of_nil in Hi|apply list_elem_of_singleton in Hi as ->].
Qed.

Lemma pathed_number checks : pathed (Zod.number checks).
Proof.
  intros p v i. unfold Zod.number.
  destruct v as [[| |q| | |]|]; simpl; try (by intros ->%list_elem_of_singleton).
  intros (l & Hi & Hl)%elem_of_concat.
  apply list_elem_of_fmap in Hl as (c & -> & _).
  destruct c; simpl in Hi; case_match;
    by first [apply elem_of_nil in Hi|apply list_elem_of_singleton in Hi as ->].
Qed.

Lemma pathed_enum values : pathed (Zod.enum values).
Proof.
  intros p v i. unfold Zod.enum.
  destruct v as [[| | |s| |]|]; simpl; try (by intros ->%list_elem_of_singleton).
  case_bool_decide; simpl; [by intros ?%elem_of_nil|].
  by intros ->%list_elem_of_singleton.
Qed.

Lemma pathed_refine test message inner :
  pathed inner -> pathed (Zod.refine test message inner).
Proof.
  intros Hin p v i. unfold Zod.refine.
  repeat case_match; simpl; try apply Hin.
  intros [?| ->%list_elem_of_singleton]%elem_of_app; [by eapply Hin|done].
Qed.

Lemma pathed_optional inner : pathed inner -> pathed (Zod.optional inner).
Proof.
  intros Hin p v i. unfold Zod.optional.
  destruct v; [apply Hin|by intros ?%elem_of_nil].
Qed.

Lemma pathed_default value inner : pathed inner -> pathed (Zod.default value inner).
Proof. intros Hin p v i. unfold Zod.default. destruct v; apply Hin. Qed.

Lemma pathed_dimension lower upper multiple :
  pathed (dimension lower upper multiple).
Proof.
  apply pathed_default, pathed_optional, pathed_refine, pathed_number.
Qed.

End Paths.

(** One field of the shape against its requirement. *)
Ltac field_described :=
  constructor; [split; [reflexivity|split; [simpl|simpl; intros v]]|].

Lemma schema_described : describes SubmitJobRequestShape requirements.
Proof.
  unfold describes, SubmitJobRequestShape, requirements.
  field_described.
  { apply pathed_string. }
  { apply clean_string_between. }
  field_described.
  { apply pathed_default, pathed_optional, pathed_string. }
  { apply clean_default; [done|intros j; apply clean_string_any]. }
  field_described.
  { apply pathed_default, pathed_optional, pathed_number. }
  { apply clean_default; [done|intros j; apply clean_whole_number_within]. }
  field_described.
  { apply pathed_default, pathed_optional, pathed_number. }
  { apply clean_default; [done|intros j; apply clean_number_within]. }
  field_described; [apply pathed_dimension|apply clean_dimension|].
  field_described; [apply pathed_dimension|apply clean_dimension|].
  field_described.
  { apply pathed_optional, pathed_number. }
  { apply clean_optional. intros j. apply clean_whole_number_within. }
  field_described.
  { apply pathed_default, pathed_optional, pathed_enum. }
  { apply clean_default; [done|intros j; apply clean_enum]. }
  field_described.
  { apply pathed_default, pathed_optional, pathed_enum. }
  { apply clean_default; [done|intros j; apply clean_enum]. }
  field_described.
  { apply pathed_optional, pathed_string. }
  { apply clean_optional. intros j. apply clean_string_most. }
  constructor.
Qed.

(** [n] copies of a character. *)
Fixpoint copies (n : nat) (c : ascii) : string :=
  match n with
  | O => EmptyString
  | S m => String c (copies m c)
  end.

Lemma copies_length n c : String.length (copies n c) = n.
Proof. induction n; simpl; congruence. Qed.

(** A request that is in order field by field, except for its negative
    prompt of 501 characters. *)
Definition long_negative_prompt : list (string * json) :=
  [("prompt", JStr "a beautiful sunset over mountains");
   ("steps", JNum 20%Q); ("guidanceScale", JNum 7.5%Q);
   ("width", JNum 512%Q); ("height", JNum 512%Q); ("seed", JNum 7%Q);
   ("quality", JStr "high"); ("mode", JStr "async");
   ("negativePrompt", JStr (copies 501 "x"))].

(** A request whose seed is within the bounds but not an integer. *)
Definition fractional_seed : list (string * json) :=
  [("prompt", JStr "a beautiful sunset over mountains"); ("seed", JNum 1.5%Q)].

Lemma whole_intro z : whole (Some (JNum (inject_Z z))).
Proof. by exists (inject_Z z), z. Qed.

Lemma multiple_of_intro m z : multiple_of m (Some (JNum (inject_Z (m * z)))).
Proof. by exists (inject_Z (m * z)), z. Qed.

Lemma number_within_intro lower upper q :
  Qle_bool lower q = true -> Qle_bool q upper = true ->
  number_within lower upper (Some (JNum q)).
Proof. intros ?%Qle_bool_iff ?%Qle_bool_iff. by exists q. Qed.

Lemma text_of_length_intro lower upper s :
  lower <= String.length s <= upper -> text_of_length lower upper (Some (JStr s)).
Proof. intros H. by exists s. Qed.

Lemma one_of_intro values s : s ∈ values -> one_of values (Some (JStr s)).
Proof. intros H. by exists s. Qed.

(** C5 as stated fails: the schema refuses requests that meet every
    requirement the specification lists. *)
Lemma stated_requirements_not_sufficient :
  (meets stated_requirements long_negative_prompt
   /\ ~ accepted (JObj long_negative_prompt))
  /\ (meets stated_requirements fractional_seed
      /\ ~ accepted (JObj fractional_seed)).
Proof.
  split; split.
  - unfold meets, stated_requirements, long_negative_prompt.
    repeat (apply Forall_cons; split); try (by apply List.Forall_nil); simpl.
    + apply text_of_length_intro. simpl. lia.
    + right. split; [apply (whole_intro 20)|by apply number_within_intro].
    + right. by apply number_within_intro.
    + right. split; [by apply number_within_intro|apply (multiple_of_intro 64 8)].
    + right. split; [by apply number_within_intro|apply (multiple_of_intro 64 8)].
    + right. by apply number_within_intro.
    + right. apply one_of_intro. set_solver.
    + right. apply one_of_intro. set_solver.
  - intros [request H]. vm_compute in H. discriminate.
  - unfold meets, stated_requirements, fractional_seed.
    repeat (apply Forall_cons; split); try (by apply List.Forall_nil); simpl;
      try (by left).
    + apply text_of_length_intro. simpl. lia.
    + right. by apply number_within_intro.
  - intros [request H]. vm_compute in H. discriminate.
Qed.

(** C5 (amended).  The request schema accepts a body exactly when the
    body is an object that meets [requirements]: a prompt of 1 to 1000
    characters and, for each of the other fields that is given, a model
    identifier that is a string, a whole number of steps in [1, 50], a
    guidance scale in [1, 20], a width and a height in [256, 1024] that
    are multiples of 64, a whole seed in [0, 2^31 - 1], a quality among
    low, medium, high, a mode among async, sync, and a negative prompt of
    at most 500 characters.  When an object is refused, the fields that
    the issues found name by their path are exactly the fields that fail
    their requirement. *)
Theorem schema_accepts_exactly b :
  (accepted b <-> exists fields, b = JObj fields /\ meets requirements fields)
  /\ (forall fields found k,
         b = JObj fields ->
         Zod.safeParse SubmitJobRequestSchema b = inl found ->
         (exists i, i ∈ found /\ path i = [k])
         <-> exists P, (k, P) ∈ requirements /\ ~ P (Js.assoc k fields)).
Proof.
  split.
  - apply described_accepts, schema_described.
  - intros fields found k -> H.
    by apply (described_issues SubmitJobRequestShape requirements fields found k
                schema_described).
Qed.

(** The bounds of the prompt: 1000 characters pass, 1001 do not. *)
Lemma prompt_length_boundary :
  accepted (JObj [("prompt", JStr (copies 1000 "a"))])
  /\ ~ accepted (JObj [("prompt", JStr (copies 1001 "a"))]).
Proof.
  split.
  - apply (described_accepts _ _ _ schema_described).
    eexists. split; [reflexivity|].
    unfold meets, requirements.
    repeat (apply Forall_cons; split); try (by apply List.Forall_nil); try (by left).
    eexists. split; [reflexivity|]. rewrite copies_length. lia.
  - intros (fields & [= <-] & Hm)%(described_accepts _ _ _ schema_described).
    apply Forall_cons in Hm as [(s & Hs & Hlen) _].
    assert (s = copies 1001 "a") as -> by (symmetry; by injection Hs).
    rewrite copies_length in Hlen. lia.
Qed.

(** * Further properties of the services and handlers *)

(** ** The job store *)

(** A record created under a free identifier is the record read back. *)
Theorem createJob_then_getJob env job k w :
  item_key job = Some k ->
  db w !! k = None ->
  fault env (length (sent w)) = None ->
  fault env (S (length (sent w))) = None ->
  exists w1 w2,
    DynamoDBService.createJob env job w = (Return tt, w1)
    /\ DynamoDBService.getJob env k w1 = (Return (Some job), w2)
    /\ db w2 = <[k := job]> (db w).
Proof.
  intros Hk Hfree Hf1 Hf2. eexists _, _.
  split; [by apply createJob_fresh|].
  split.
  - apply getJob_found; [done|]. simpl. apply lookup_insert_eq.
  - reflexivity.
Qed.

Lemma createJob_then_getJob_witness :
  let job := sample_job "J7" "alice" PENDING in
  item_key job = Some "J7"
  /\ db empty_world !! "J7" = None
  /\ fault calm (length (sent empty_world)) = None
  /\ fault calm (S (length (sent empty_world))) = None
  /\ exists w1 w2,
       DynamoDBService.createJob calm job empty_world = (Return tt, w1)
       /\ DynamoDBService.getJob calm "J7" w1 = (Return (Some job), w2)
       /\ db w2 = <["J7" := job]> (db empty_world).
Proof.
  intros job. split; [reflexivity|]. split; [reflexivity|].
  split; [reflexivity|]. split; [reflexivity|].
  exact (createJob_then_getJob calm job "J7" empty_world
           eq_refl eq_refl eq_refl eq_refl).
Defined.

(** Reading a job never fails for want of the job: an identifier under
    which nothing is stored gives [null]; only a failure of the request
    itself is thrown, as an [InternalError]; and the table is as before
    in every case. *)
Theorem getJob_outcomes env jobId w :
  let run := DynamoDBService.getJob env jobId w in
  db run.2 = db w
  /\ match fault env (length (sent w)) with
     | None => run.1 = Return (db w !! jobId)
     | Some e => run.1 = Throw (InternalError "Failed to retrieve job" e)
     end.
Proof.
  unfold DynamoDBService.getJob, try_catch, get_item, send.
  destruct (fault env _); by simpl.
Qed.

(** When [updateJobStatus] throws, it throws a [NotFoundError] or an
    [InternalError], and neither the table nor the staging bucket has
    changed. *)
Theorem updateJobStatus_failure_writes_nothing env jobId status updates w e w' :
  DynamoDBService.updateJobStatus env jobId status updates w = (Throw e, w') ->
  db w' = db w
  /\ staging w' = staging w
  /\ (e = NotFoundError ("Job " +:+ jobId +:+ " not found")
      \/ exists cause, e = InternalError "Failed to update job status" cause).
Proof.
  rewrite updateJobStatus_clock. unfold try_catch, update_item, send. simpl.
  destruct (fault env _) as [e0|]; simpl.
  { case_decide; intros [= <- <-]; eauto. }
  destruct (negb _); simpl.
  { intros [= <- <-]. eauto. }
  destruct (db w !! jobId); simpl; [done|].
  intros [= <- <-]. eauto.
Qed.

Lemma updateJobStatus_failure_writes_nothing_witness :
  exists w',
    DynamoDBService.updateJobStatus calm "J9" FAILED ∅ empty_world
    = (Throw (NotFoundError "Job J9 not found"), w')
    /\ db w' = db empty_world
    /\ staging w' = staging empty_world.
Proof.
  destruct (DynamoDBService.updateJobStatus calm "J9" FAILED ∅ empty_world)
    as [r w'] eqn:E.
  assert (r = Throw (NotFoundError "Job J9 not found")) as ->.
  { by apply (f_equal fst) in E. }
  exists w'. split; [reflexivity|].
  destruct (updateJobStatus_failure_writes_nothing calm "J9" FAILED ∅
              empty_world _ w' E) as (H1 & H2 & _).
  by split.
Defined.

(** An update leaves every other record alone, and on the record itself
    it cannot be made to change the key or to set a status or an update
    time other than its own: the keys [jobId], [status] and [updatedAt]
    of [updates] are ignored. *)
Theorem updateJobStatus_protected_attributes env jobId status updates w w' it :
  (is_final status = true -> updates !! "completedAt" = None) ->
  db w !! jobId = Some it ->
  DynamoDBService.updateJobStatus env jobId status updates w = (Return tt, w') ->
  (forall j, j <> jobId -> db w' !! j = db w !! j)
  /\ exists it',
       db w' !! jobId = Some it'
       /\ it' !! "jobId" = it !! "jobId"
       /\ it' !! "status" = Some (JStr (status_name status))
       /\ it' !! "updatedAt" = Some (JStr (clock env (ticks w))).
Proof.
  intros Hc Hit E. split.
  { intros j Hj. by eapply updateJobStatus_same_but. }
  apply updateJobStatus_returns in E as (it0 & Hit0 & ->); [|done].
  rewrite Hit in Hit0. injection Hit0 as <-.
  eexists. split; [apply lookup_insert_eq|].
  split; [by rewrite updated_other|]. split; [apply updated_status|].
  unfold updated, assignments. simpl.
  apply lookup_union_Some_l. by simplify_map_eq.
Qed.

Lemma updateJobStatus_protected_attributes_witness :
  let w := world_with (sample_job "J1" "alice" PENDING) in
  let sly : item := {["status" := JStr "SUCCEEDED"]} in
  exists w' it',
    DynamoDBService.updateJobStatus calm "J1" RUNNING sly w = (Return tt, w')
    /\ db w' !! "J1" = Some it'
    /\ it' !! "status" = Some (JStr "RUNNING").
Proof.
  intros w sly.
  destruct (DynamoDBService.updateJobStatus calm "J1" RUNNING sly w)
    as [r w'] eqn:E.
  assert (r = Return tt) as ->.
  { apply (f_equal fst) in E. simpl in E. rewrite <-E. by vm_compute. }
  destruct (updateJobStatus_protected_attributes calm "J1" RUNNING sly w w'
              (sample_job "J1" "alice" PENDING)
              (fun H : is_final RUNNING = true => False_ind _ (Bool.diff_false_true H))
              eq_refl E)
    as (_ & it' & H1 & _ & H3 & _).
  exists w', it'. by repeat split.
Defined.

(** ** Authentication *)

Lemma is_admin_string g :
  Js.strict_eq (Some g) (Some (JStr "admin")) = true <-> g = JStr "admin".
Proof.
  destruct g; simpl; try (split; [done|by intros [=]]).
  rewrite bool_decide_eq_true. split; [by intros ->|by intros [= ->]].
Qed.

Lemma groups_include_admin_spec groups :
  groups_include_admin groups = true
  <-> exists l, groups = Some (JArr l) /\ JStr "admin" ∈ l.
Proof.
  unfold groups_include_admin.
  destruct groups as [[| | | |l|]|]; try (split; [done|by intros (? & [=] & _)]).
  rewrite existsb_exists. split.
  - intros (g & Hin & ->%is_admin_string). exists l. split; [done|].
    by apply list_elem_of_In.
  - intros (l' & [= <-] & Hin). exists (JStr "admin").
    split; [by apply list_elem_of_In|by apply is_admin_string].
Qed.

(** What [extractUserContext] returns and throws.  Whatever goes wrong,
    the error thrown is [UnauthorizedError('Invalid authentication')]:
    the more specific messages never leave the function.  The user
    identifier is the [sub] claim when that is not empty and the
    [cognito:username] claim otherwise; the user is an administrator
    exactly when the [cognito:groups] claim is an array that holds the
    string [admin] (a claim that is the string [admin] does not count). *)
Theorem extractUserContext_outcomes event :
  match extractUserContext event with
  | Throw e => e = UnauthorizedError "Invalid authentication"
  | Return ctx =>
      exists cl,
        claims event = Some cl
        /\ Js.truthy (Some (userId ctx)) = true
        /\ (Js.truthy (Js.assoc "sub" cl) = true ->
            Js.assoc "sub" cl = Some (userId ctx))
        /\ (Js.truthy (Js.assoc "sub" cl) = false ->
            Js.assoc "cognito:username" cl = Some (userId ctx))
        /\ (isAdmin ctx = true
            <-> exists l, Js.assoc "cognito:groups" cl = Some (JArr l)
                          /\ JStr "admin" ∈ l)
  end.
Proof.
  unfold extractUserContext.
  destruct (claims event) as [cl|]; [|done].
  destruct (Js.or (Js.assoc "sub" cl) (Js.assoc "cognito:username" cl))
    as [id|] eqn:Eid; [|done].
  destruct (Js.truthy (Some id)) eqn:Et; [|done].
  exists cl. simpl. split; [done|]. split; [exact Et|].
  unfold Js.or in Eid.
  split; [intros Hs; by rewrite Hs in Eid|].
  split; [intros Hs; by rewrite Hs in Eid|].
  rewrite groups_include_admin_spec. unfold Js.or.
  destruct (Js.truthy (Js.assoc "cognito:groups" cl)) eqn:Eg.
  - done.
  - split.
    + intros (l & [= <-] & Hin). by apply elem_of_nil in Hin.
    + intros (l & Hl & _). rewrite Hl in Eg. done.
Qed.

(** ** Reading a job *)

(** The table and the staging bucket are as before. *)
Definition same_data (w w' : World) : Prop :=
  db w' = db w /\ staging w' = staging w.

Global Instance same_data_preorder : PreOrder same_data.
Proof.
  split; [by intros w|].
  intros a b c [? ?] [? ?]. split; congruence.
Qed.

Lemma get_item_same_data env k : maintains same_data (get_item env k).
Proof.
  intros w r w'. unfold get_item, send.
  destruct (fault env _); by intros [= _ <-].
Qed.

(** Both handlers that read a job are read-only: whatever the event and
    the surroundings, the table and the staging bucket are as before. *)
Theorem get_handlers_read_only env event w :
  same_data w (GetJob.handler env event w).2
  /\ same_data w (GetJobLambda.handler env event w).2.
Proof.
  split.
  - unfold GetJob.handler.
    destruct (GetJob.get env event w) as [r w'] eqn:E.
    assert (maintains same_data (GetJob.get env event)) as H.
    { unfold GetJob.get, DynamoDBService.getJob. maintain.
      apply get_item_same_data. }
    apply H in E. by destruct r.
  - unfold GetJobLambda.handler.
    destruct (GetJobLambda.get env event w) as [r w'] eqn:E.
    assert (maintains same_data (GetJobLambda.get env event)) as H.
    { unfold GetJobLambda.get. maintain. apply get_item_same_data. }
    apply H in E. by destruct r.
Qed.

(** The order of the checks in the service: a request without a job
    identifier is answered 400 whoever asks; with an identifier, a
    requester who is identified is answered 404 when no job is stored
    under it. *)
Theorem get_without_identifier_or_job env event w :
  httpMethod event <> "OPTIONS" ->
  (pathId event = None \/ pathId event = Some "" ->
   statusCode (GetJob.handler env event w).1 = 400%Z)
  /\ (forall jobId ctx,
         pathId event = Some jobId -> jobId <> "" ->
         extractUserContext event = Return ctx ->
         fault env (length (sent w)) = None ->
         db w !! jobId = None ->
         statusCode (GetJob.handler env event w).1 = 404%Z).
Proof.
  intros Hm. split.
  - intros Hp. unfold GetJob.handler, GetJob.get.
    rewrite decide_False by done. by destruct Hp as [-> | ->].
  - intros jobId ctx Hp Hne Hctx Hf Hj.
    unfold GetJob.handler, GetJob.get. rewrite decide_False by done.
    rewrite Hp. destruct jobId; [done|].
    unfold bind at 1, lift. rewrite Hctx. unfold bind.
    unfold DynamoDBService.getJob, try_catch, get_item.
    rewrite send_ok by done. simpl. by rewrite Hj.
Qed.

Lemma get_without_identifier_or_job_witness :
  let event := get_as "bob" "J404" in
  httpMethod event <> "OPTIONS"
  /\ statusCode (GetJob.handler calm event empty_world).1 = 404%Z.
Proof.
  intros event. assert (httpMethod event <> "OPTIONS") as Hm by done.
  split; [exact Hm|].
  destruct (get_without_identifier_or_job calm event empty_world Hm) as [_ H].
  apply (H "J404" {| userId := JStr "bob"; email := None; username := None;
                     isAdmin := false |}); done.
Defined.

(** The inline variant: 400 without an identifier, 404 without a job,
    in both cases whoever asks. *)
Theorem lambda_get_without_identifier_or_job env event w :
  (pathId event = None \/ pathId event = Some "" ->
   statusCode (GetJobLambda.handler env event w).1 = 400%Z)
  /\ (forall jobId,
         pathId event = Some jobId -> jobId <> "" ->
         fault env (length (sent w)) = None ->
         db w !! jobId = None ->
         statusCode (GetJobLambda.handler env event w).1 = 404%Z)
  /\ (forall jobId e,
         pathId event = Some jobId -> jobId <> "" ->
         fault env (length (sent w)) = Some e ->
         statusCode (GetJobLambda.handler env event w).1 = 500%Z).
Proof.
  split; [|split].
  - intros Hp. unfold GetJobLambda.handler, GetJobLambda.get.
    by destruct Hp as [-> | ->].
  - intros jobId Hp Hne Hf Hj.
    unfold GetJobLambda.handler, GetJobLambda.get.
    rewrite Hp. destruct jobId; [done|].
    unfold bind, get_item. rewrite send_ok by done. simpl. by rewrite Hj.
  - intros jobId e Hp Hne Hf.
    unfold GetJobLambda.handler, GetJobLambda.get.
    rewrite Hp. destruct jobId; [done|].
    unfold bind, get_item. by rewrite (send_fault _ _ _ _ e).
Qed.

(** Jobs submitted without an identity all belong to the one user
    [anonymous], and the inline handler lets every requester without an
    identity read them. *)
Theorem anonymous_jobs_are_shared env event w jobId job :
  ~ identified event ->
  pathId event = Some jobId ->
  jobId <> "" ->
  db w !! jobId = Some job ->
  job !! "userId" = Some (JStr "anonymous") ->
  fault env (length (sent w)) = None ->
  statusCode (GetJobLambda.handler env event w).1 = 200%Z.
Proof.
  intros Hn Hp Hne Hj Hu Hf.
  rewrite (lambda_get_status env event w jobId job) by done.
  unfold GetJobLambda.denied. by rewrite (getUserId_anonymous event Hn), Hu.
Qed.

Definition stranger (jobId : string) : Event :=
  {| httpMethod := "GET"; requestId := "r"; claims := None; body := NoBody;
     pathId := Some jobId |}.

Lemma anonymous_jobs_are_shared_witness :
  let w := world_with (sample_job "J1" "anonymous" RUNNING) in
  ~ identified (stranger "J1")
  /\ statusCode (GetJobLambda.handler calm (stranger "J1") w).1 = 200%Z.
Proof.
  intros w.
  assert (~ identified (stranger "J1")) as Hn by (by intros (cl & [=] & _)).
  split; [exact Hn|].
  apply (anonymous_jobs_are_shared calm (stranger "J1") w "J1"
           (sample_job "J1" "anonymous" RUNNING) Hn eq_refl);
    [done|reflexivity|reflexivity|reflexivity].
Defined.

(** ** The worker pool *)

(** The key under which the input of a job is staged. *)
Definition input_key (jobId : string) : string := "jobs/" +:+ jobId +:+ "/input.json".

Definition input_location env (jobId : string) : string :=
  "s3://" +:+ input_bucket env +:+ "/" +:+ input_key jobId.

(** What a call of [invokeAsync] does.  It never touches the jobs
    table.  When the staging write fails, the bucket is as before and
    the endpoint is not invoked; otherwise the input is staged and the
    endpoint invoked once.  What it throws is an [InternalError] with the
    message ['Failed to start inference'], and a location it returns is
    not empty. *)
Theorem invokeAsync_outcomes env jobId request w r w' :
  SageMakerService.invokeAsync env jobId request w = (r, w') ->
  db w' = db w
  /\ match fault env (length (sent w)) with
     | Some _ =>
         staging w' = staging w
         /\ sent w' = PutObject (input_key jobId)
                        (SageMakerService.createInferenceInput request) :: sent w
     | None =>
         staging w' = <[input_key jobId :=
                          SageMakerService.createInferenceInput request]> (staging w)
         /\ sent w' = InvokeEndpointAsync (input_location env jobId) jobId
                        :: PutObject (input_key jobId)
                             (SageMakerService.createInferenceInput request)
                        :: sent w
     end
  /\ match r with
     | Return location =>
         location <> ""
         /\ fault env (length (sent w)) = None
         /\ fault env (S (length (sent w))) = None
         /\ output_location env (S (length (sent w))) = Some location
     | Throw e => exists cause, e = InternalError "Failed to start inference" cause
     end.
Proof.
  unfold SageMakerService.invokeAsync, try_catch, bind, now, put_object,
    SageMakerService.invoke_endpoint_async, send, input_key, input_location.
  simpl. destruct (fault env (length (sent w))) as [e1|]; simpl.
  { intros [= <- <-]. simpl. eauto 10. }
  destruct (fault env (S (length (sent w)))) as [e2|]; simpl.
  { intros [= <- <-]. simpl. eauto 10. }
  destruct (output_location env (S (length (sent w)))) as [l|]; simpl.
  - case_decide; intros [= <- <-]; simpl; eauto 10.
  - intros [= <- <-]. simpl. eauto 10.
Qed.

Lemma invokeAsync_outcomes_witness :
  exists w',
    SageMakerService.invokeAsync calm "J1" sync_sunset empty_world
    = (Return "s3://output/location", w')
    /\ db w' = db empty_world
    /\ staging w' !! "jobs/J1/input.json"
       = Some (SageMakerService.createInferenceInput sync_sunset).
Proof.
  destruct (SageMakerService.invokeAsync calm "J1" sync_sunset empty_world)
    as [r w'] eqn:E.
  assert (r = Return "s3://output/location") as ->.
  { apply (f_equal fst) in E. simpl in E. rewrite <-E. by vm_compute. }
  exists w'. split; [reflexivity|].
  destruct (invokeAsync_outcomes calm "J1" sync_sunset empty_world _ w' E)
    as (Hdb & [Hs _] & _).
  split; [exact Hdb|]. rewrite Hs. apply lookup_insert_eq.
Defined.

(** What a call of [invokeSync] does.  It issues one request to the
    endpoint and writes nothing.  It returns the parsed body of the reply,
    which is then not [null]; a request that fails, a reply without a
    body, a body that is not JSON and the body [null] all end in an
    [InternalError] with the message ['Failed to complete inference']. *)
Theorem invokeSync_outcomes env request w r w' :
  SageMakerService.invokeSync env request w = (r, w') ->
  db w' = db w
  /\ staging w' = staging w
  /\ sent w' = InvokeEndpoint (SageMakerService.createInferenceInput request)
                 :: sent w
  /\ match r with
     | Return response =>
         fault env (length (sent w)) = None
         /\ reply_body env (length (sent w)) = Parsed response
         /\ response <> JNull
     | Throw e => exists cause, e = InternalError "Failed to complete inference" cause
     end.
Proof.
  unfold SageMakerService.invokeSync, try_catch, bind,
    SageMakerService.invoke_endpoint, send, lift. simpl.
  destruct (fault env (length (sent w))) as [e1|]; simpl.
  { intros [= <- <-]. simpl. eauto 10. }
  destruct (reply_body env (length (sent w))) as [| |response]; simpl;
    try (intros [= <- <-]; simpl; by eauto 10).
  destruct response; simpl; intros [= <- <-]; simpl; eauto 10.
Qed.

Lemma invokeSync_outcomes_witness :
  exists response w',
    SageMakerService.invokeSync calm sync_sunset empty_world = (Return response, w')
    /\ response <> JNull
    /\ staging w' = staging empty_world.
Proof.
  destruct (SageMakerService.invokeSync calm sync_sunset empty_world)
    as [r w'] eqn:E.
  destruct r as [response|e].
  - exists response, w'. split; [reflexivity|].
    destruct (invokeSync_outcomes calm sync_sunset empty_world _ w' E)
      as (_ & Hs & _ & _ & _ & Hn).
    by split.
  - apply (f_equal fst) in E. simpl in E. exfalso. revert E. by vm_compute.
Defined.

(** The health check never throws: it answers [true] exactly when the
    request to the endpoint goes through, whatever the reply holds, and
    it writes nothing. *)
Theorem checkEndpointHealth_never_throws env w :
  exists healthy w',
    SageMakerService.checkEndpointHealth env w = (Return healthy, w')
    /\ (healthy = true <-> fault env (length (sent w)) = None)
    /\ db w' = db w
    /\ staging w' = staging w.
Proof.
  unfold SageMakerService.checkEndpointHealth, try_catch, bind, SageMakerService.invoke_endpoint,
    send, ret.
  destruct (fault env (length (sent w))); simpl; eexists _, _;
    (split; [reflexivity|]); simpl; naive_solver.
Qed.

(** ** A submit from end to end *)

Lemma status_of_Some (it : item) :
  status_of (Some it)
  = match it !! "status" with Some (JStr s) => Some s | _ => None end.
Proof. reflexivity. Qed.

Lemma attribute_of_Some (it : item) (k : string) :
  Some it ≫= (.!! k) = it !! k.
Proof. reflexivity. Qed.

Section SubmitRuns.

Context (env : Env).

Lemma invokeAsync_ok jobId request w location :
  fault env (length (sent w)) = None ->
  fault env (S (length (sent w))) = None ->
  output_location env (S (length (sent w))) = Some location ->
  location <> "" ->
  SageMakerService.invokeAsync env jobId request w
  = (Return location,
     {| db := db w;
        staging := <[input_key jobId :=
                       SageMakerService.createInferenceInput request]> (staging w);
        sent := InvokeEndpointAsync (input_location env jobId) jobId
                  :: PutObject (input_key jobId)
                       (SageMakerService.createInferenceInput request)
                  :: sent w;
        ticks := S (ticks w) |}).
Proof.
  intros H1 H2 H3 H4.
  unfold SageMakerService.invokeAsync, try_catch, bind, now, put_object,
    SageMakerService.invoke_endpoint_async, send. simpl.
  rewrite H1. simpl. rewrite H2, H3. simpl. by rewrite decide_False.
Qed.

Lemma invokeAsync_staging_fails jobId request w e :
  fault env (length (sent w)) = Some e ->
  SageMakerService.invokeAsync env jobId request w
  = (Throw (InternalError "Failed to start inference" e),
     {| db := db w; staging := staging w;
        sent := PutObject (input_key jobId)
                  (SageMakerService.createInferenceInput request) :: sent w;
        ticks := S (ticks w) |}).
Proof.
  intros H1.
  unfold SageMakerService.invokeAsync, try_catch, bind, now, put_object, send.
  simpl. by rewrite H1.
Qed.

Lemma invokeSync_ok request w response :
  fault env (length (sent w)) = None ->
  reply_body env (length (sent w)) = Parsed response ->
  response <> JNull ->
  SageMakerService.invokeSync env request w
  = (Return response,
     {| db := db w; staging := staging w;
        sent := InvokeEndpoint (SageMakerService.createInferenceInput request)
                  :: sent w;
        ticks := ticks w |}).
Proof.
  intros H1 H2 H3.
  unfold SageMakerService.invokeSync, try_catch, bind,
    SageMakerService.invoke_endpoint, send, lift. simpl.
  rewrite H1. simpl. rewrite H2. by destruct response.
Qed.

Lemma jobItem_userId jobId userContext timestamp request :
  SubmitJob.jobItem env jobId userContext timestamp request !! "userId"
  = Some (userId userContext).
Proof.
  unfold SubmitJob.jobItem. apply lookup_union_Some_l. by simplify_map_eq.
Qed.

(** The handler from the point where the request is validated. *)
Lemma handler_validated event w ctx request :
  httpMethod event <> "OPTIONS" ->
  SubmitJob.validated event = Return (ctx, request) ->
  SubmitJob.handler env event w
  = match SubmitJob.create_and_dispatch env ctx request w with
    | (Return response, w') => (response, w')
    | (Throw error, w') => (errorResponse env error, w')
    end.
Proof.
  intros Hm Hv. unfold SubmitJob.handler, SubmitJob.submit.
  rewrite decide_False by done. unfold bind at 1, lift. by rewrite Hv.
Qed.

(** The record is created and the branch entered. *)
Lemma create_and_dispatch_created ctx request w :
  db w !! fresh_id env = None ->
  fault env (length (sent w)) = None ->
  SubmitJob.create_and_dispatch env ctx request w
  = (if Js.strict_eq (Js.field request "mode") (Some (JStr "sync"))
     then SubmitJob.synchronous env (fresh_id env) request
     else SubmitJob.asynchronous env (fresh_id env) request)
      {| db := <[fresh_id env :=
                   SubmitJob.jobItem env (fresh_id env) ctx (clock env (ticks w))
                     request]> (db w);
         staging := staging w;
         sent := PutItem (SubmitJob.jobItem env (fresh_id env) ctx
                            (clock env (ticks w)) request) true :: sent w;
         ticks := S (ticks w) |}.
Proof.
  intros Hfree Hf. unfold SubmitJob.create_and_dispatch, bind at 1, now.
  unfold bind at 1.
  rewrite (createJob_fresh env _ (fresh_id env)); [done|apply jobItem_key|done|done].
Qed.

End SubmitRuns.

(** An asynchronous submit in the service, when every request goes
    through: the caller gets status 202 with the job identifier, the
    status PENDING and the wait estimate; the record, owned by the
    requester, is RUNNING; the input is staged under the job's key; and
    the endpoint was invoked once. *)
Theorem submit_async_dispatched env event w ctx request location :
  httpMethod event <> "OPTIONS" ->
  SubmitJob.validated event = Return (ctx, request) ->
  Js.strict_eq (Js.field request "mode") (Some (JStr "sync")) = false ->
  db w !! fresh_id env = None ->
  (forall i, i < 4 -> fault env (i + length (sent w)) = None) ->
  output_location env (2 + length (sent w)) = Some location ->
  location <> "" ->
  let run := SubmitJob.handler env event w in
  run.1 = successResponse (SubmitJob.async_response (fresh_id env)) 202
  /\ status_of (db run.2 !! fresh_id env) = Some "RUNNING"
  /\ db run.2 !! fresh_id env ≫= (.!! "userId") = Some (userId ctx)
  /\ staging run.2 !! input_key (fresh_id env)
     = Some (SageMakerService.createInferenceInput request)
  /\ attempts (sent run.2) = S (attempts (sent w)).
Proof.
  intros Hm Hv Hmode Hfree Hfault Hloc Hne run.
  assert (exists wf,
             run = (successResponse (SubmitJob.async_response (fresh_id env)) 202, wf)
             /\ (exists n, db wf !! fresh_id env
                = Some (updated env RUNNING ∅ n
                          (SubmitJob.jobItem env (fresh_id env) ctx
                             (clock env (ticks w)) request)))
             /\ staging wf !! input_key (fresh_id env)
                = Some (SageMakerService.createInferenceInput request)
             /\ attempts (sent wf) = S (attempts (sent w)))
    as (wf & -> & [n Hdb] & Hst & Hat).
  { subst run. rewrite (handler_validated env event w ctx request) by done.
    rewrite create_and_dispatch_created by (done || apply (Hfault 0); lia).
    rewrite Hmode. unfold SubmitJob.asynchronous, try_catch, bind at 1.
    rewrite (invokeAsync_ok env _ _ _ location);
      [|apply (Hfault 1); lia|apply (Hfault 2); lia|done|done].
    unfold bind.
    erewrite updateJobStatus_existing;
      [|apply (Hfault 3); lia|done|simpl; apply lookup_insert_eq].
    eexists. split; [reflexivity|]. unfold after_update. cbn [db staging sent ticks].
    split; [eexists; apply lookup_insert_eq|].
    split; [apply lookup_insert_eq|done]. }
  cbn [fst snd]. rewrite Hdb, Hst.
  split; [done|]. split; [by rewrite status_of_Some, updated_status|].
  split; [by rewrite attribute_of_Some, updated_other, lookup_empty, jobItem_userId|].
  done.
Qed.

Lemma submit_async_dispatched_witness :
  let event := post_as "alice" async_sunset in
  let run := SubmitJob.handler calm event empty_world in
  httpMethod event <> "OPTIONS"
  /\ (exists ctx request, SubmitJob.validated event = Return (ctx, request))
  /\ statusCode run.1 = 202%Z
  /\ status_of (db run.2 !! fresh_id calm) = Some "RUNNING".
Proof.
  intros event run.
  assert (httpMethod event <> "OPTIONS") as Hm by done.
  assert (match SubmitJob.validated event with
          | Return a =>
              Js.strict_eq (Js.field a.2 "mode") (Some (JStr "sync")) = false
          | Throw _ => False
          end) as Hmode by (vm_compute; reflexivity).
  destruct (SubmitJob.validated event) as [[ctx request]|e] eqn:Hv;
    [simpl in Hmode|contradiction].
  destruct (submit_async_dispatched calm event empty_world ctx request
              "s3://output/location" Hm Hv Hmode eq_refl
              (fun _ _ => eq_refl) eq_refl ltac:(done))
    as (H1 & H2 & _).
  split; [exact Hm|]. split; [by eexists _, _|].
  split; [subst run; by rewrite H1|exact H2].
Defined.

(** An asynchronous submit in the service whose staging write fails:
    the caller gets status 500, the record is FAILED with a completion
    time and the message of the wrapping error, and the endpoint was not
    invoked. *)
Theorem submit_async_staging_failure env event w ctx request e :
  httpMethod event <> "OPTIONS" ->
  SubmitJob.validated event = Return (ctx, request) ->
  Js.strict_eq (Js.field request "mode") (Some (JStr "sync")) = false ->
  db w !! fresh_id env = None ->
  fault env (length (sent w)) = None ->
  fault env (1 + length (sent w)) = Some e ->
  fault env (2 + length (sent w)) = None ->
  let run := SubmitJob.handler env event w in
  statusCode run.1 = 500%Z
  /\ status_of (db run.2 !! fresh_id env) = Some "FAILED"
  /\ db run.2 !! fresh_id env ≫= (.!! "error")
     = Some (JStr "Failed to start inference")
  /\ is_Some (db run.2 !! fresh_id env ≫= (.!! "completedAt"))
  /\ staging run.2 = staging w
  /\ attempts (sent run.2) = attempts (sent w).
Proof.
  intros Hm Hv Hmode Hfree Hf0 Hf1 Hf2 run.
  assert (exists wf,
             run = (errorResponse env (InternalError "Failed to start inference" e), wf)
             /\ (exists n, db wf !! fresh_id env
                = Some (updated env FAILED
                          (SubmitJob.error_update
                             (InternalError "Failed to start inference" e))
                          n
                          (SubmitJob.jobItem env (fresh_id env) ctx
                             (clock env (ticks w)) request)))
             /\ staging wf = staging w
             /\ attempts (sent wf) = attempts (sent w))
    as (wf & -> & [n Hdb] & Hst & Hat).
  { subst run. rewrite (handler_validated env event w ctx request) by done.
    rewrite create_and_dispatch_created by done.
    rewrite Hmode. unfold SubmitJob.asynchronous, try_catch, bind at 1.
    rewrite (invokeAsync_staging_fails env _ _ _ e) by done.
    unfold bind.
    erewrite updateJobStatus_existing;
      [|done|intros _; by apply lookup_singleton_ne|simpl; apply lookup_insert_eq].
    eexists. split; [reflexivity|]. unfold after_update. cbn [db staging sent ticks].
    split; [eexists; apply lookup_insert_eq|done]. }
  cbn [fst snd]. rewrite Hdb.
  split; [done|]. split; [by rewrite status_of_Some, updated_status|].
  rewrite !attribute_of_Some. split.
  { rewrite updated_other by done. unfold SubmitJob.error_update.
    rewrite decide_False by done. by rewrite lookup_singleton_eq. }
  split; [|done].
  rewrite updated_completedAt; [by eexists|done|by apply lookup_singleton_ne].
Qed.

Lemma submit_async_staging_failure_witness :
  let event := post_as "alice" async_sunset in
  let run := SubmitJob.handler (failing 1 access_denied) event empty_world in
  httpMethod event <> "OPTIONS"
  /\ statusCode run.1 = 500%Z
  /\ status_of (db run.2 !! fresh_id calm) = Some "FAILED".
Proof.
  intros event run.
  assert (httpMethod event <> "OPTIONS") as Hm by done.
  assert (match SubmitJob.validated event with
          | Return a =>
              Js.strict_eq (Js.field a.2 "mode") (Some (JStr "sync")) = false
          | Throw _ => False
          end) as Hmode by (vm_compute; reflexivity).
  destruct (SubmitJob.validated event) as [[ctx request]|e] eqn:Hv;
    [simpl in Hmode|contradiction].
  destruct (submit_async_staging_failure (failing 1 access_denied) event
              empty_world ctx request access_denied Hm Hv Hmode
              eq_refl eq_refl eq_refl eq_refl)
    as (H1 & H2 & _).
  split; [exact Hm|]. split; [exact H1|exact H2].
Defined.

Lemma statuses_cons_update jobId s sets l :
  statuses (UpdateItem jobId (("status", JStr s) :: sets) :: l) = s :: statuses l.
Proof.
  unfold statuses. cbn. unfold status_of. cbn.
  by rewrite lookup_insert_eq.
Qed.

Lemma statuses_cons_put it conditional s l :
  status_of (Some it) = Some s ->
  statuses (PutItem it conditional :: l) = s :: statuses l.
Proof. intros H. unfold statuses. cbn. by rewrite H. Qed.

Lemma statuses_cons_invoke input l :
  statuses (InvokeEndpoint input :: l) = statuses l.
Proof. reflexivity. Qed.

(** A synchronous submit in the service whose reply carries metadata:
    the caller gets status 200 with the result, and the record is
    SUCCEEDED with a completion time and the metadata as JSON text. *)
Theorem submit_sync_succeeded env event w ctx request response metadata :
  httpMethod event <> "OPTIONS" ->
  SubmitJob.validated event = Return (ctx, request) ->
  Js.strict_eq (Js.field request "mode") (Some (JStr "sync")) = true ->
  db w !! fresh_id env = None ->
  (forall i, i < 3 -> fault env (i + length (sent w)) = None) ->
  reply_body env (1 + length (sent w)) = Parsed response ->
  Js.field response "metadata" = Some metadata ->
  metadata <> JNull ->
  let run := SubmitJob.handler env event w in
  run.1 = successResponse (SubmitJob.sync_response (fresh_id env) response) 200
  /\ status_of (db run.2 !! fresh_id env) = Some "SUCCEEDED"
  /\ db run.2 !! fresh_id env ≫= (.!! "metadata")
     = Some (JStr (json_text env metadata))
  /\ is_Some (db run.2 !! fresh_id env ≫= (.!! "completedAt"))
  /\ attempts (sent run.2) = S (attempts (sent w)).
Proof.
  intros Hm Hv Hmode Hfree Hfault Hreply Hmeta Hnull run.
  assert (response <> JNull) as Hresp by (by intros ->).
  assert (SubmitJob.metadata_update env response
          = {["metadata" := JStr (json_text env metadata)]}) as Hupd
    by (unfold SubmitJob.metadata_update; by rewrite Hmeta).
  assert (exists wf n,
             run = (successResponse
                      (SubmitJob.sync_response (fresh_id env) response) 200, wf)
             /\ db wf !! fresh_id env
                = Some (updated env SUCCEEDED
                          {["metadata" := JStr (json_text env metadata)]} n
                          (SubmitJob.jobItem env (fresh_id env) ctx
                             (clock env (ticks w)) request))
             /\ attempts (sent wf) = S (attempts (sent w)))
    as (wf & n & -> & Hdb & Hat).
  { subst run. rewrite (handler_validated env event w ctx request) by done.
    rewrite create_and_dispatch_created by (done || apply (Hfault 0); lia).
    rewrite Hmode. unfold SubmitJob.synchronous, try_catch, bind at 1.
    rewrite (invokeSync_ok env _ _ response); [|apply (Hfault 1); lia|done|done].
    unfold bind at 1. rewrite Hupd.
    erewrite updateJobStatus_existing;
      [|apply (Hfault 2); lia|intros _; by apply lookup_singleton_ne
       |cbn [db]; apply lookup_insert_eq].
    unfold bind, lift, SubmitJob.generation_time. rewrite Hmeta.
    assert (exists v, Js.get metadata "generation_time_seconds" = Return v)
      as [v ->] by (destruct metadata; simpl; eauto; done).
    eexists _, _. split; [reflexivity|].
    unfold after_update. cbn [db staging sent ticks].
    split; [apply lookup_insert_eq|done]. }
  cbn [fst snd]. rewrite Hdb, status_of_Some, !attribute_of_Some, updated_status.
  split; [done|]. split; [done|]. split.
  { rewrite updated_other by done. rewrite decide_False by done.
    by rewrite lookup_singleton_eq. }
  split; [|done].
  rewrite updated_completedAt; [by eexists|done|by apply lookup_singleton_ne].
Qed.

Lemma submit_sync_succeeded_witness :
  let event := post_as "alice" sync_sunset in
  let run := SubmitJob.handler calm event empty_world in
  httpMethod event <> "OPTIONS"
  /\ statusCode run.1 = 200%Z
  /\ status_of (db run.2 !! fresh_id calm) = Some "SUCCEEDED".
Proof.
  intros event run.
  assert (httpMethod event <> "OPTIONS") as Hm by done.
  assert (match SubmitJob.validated event with
          | Return a =>
              Js.strict_eq (Js.field a.2 "mode") (Some (JStr "sync")) = true
          | Throw _ => False
          end) as Hmode by (vm_compute; reflexivity).
  destruct (SubmitJob.validated event) as [[ctx request]|e] eqn:Hv;
    [simpl in Hmode|contradiction].
  destruct (submit_sync_succeeded calm event empty_world ctx request
              (JObj [("generated_image", JStr "base64-encoded-image");
                     ("metadata", JObj [("generation_time_seconds", JNum 15.5%Q)])])
              (JObj [("generation_time_seconds", JNum 15.5%Q)])
              Hm Hv Hmode eq_refl (fun _ _ => eq_refl) eq_refl eq_refl
              ltac:(done))
    as (H1 & H2 & _).
  split; [exact Hm|]. split; [subst run; by rewrite H1|exact H2].
Defined.

(** A synchronous submit in the service whose reply carries no
    metadata: the inference went through and the record was marked
    SUCCEEDED, but the log line that reads the generation time throws; the
    record ends FAILED and the caller gets status 500. *)
Theorem submit_sync_without_metadata_fails env event w ctx request response :
  httpMethod event <> "OPTIONS" ->
  SubmitJob.validated event = Return (ctx, request) ->
  Js.strict_eq (Js.field request "mode") (Some (JStr "sync")) = true ->
  db w !! fresh_id env = None ->
  (forall i, i < 4 -> fault env (i + length (sent w)) = None) ->
  reply_body env (1 + length (sent w)) = Parsed response ->
  response <> JNull ->
  Js.field response "metadata" = None ->
  let run := SubmitJob.handler env event w in
  statusCode run.1 = 500%Z
  /\ status_of (db run.2 !! fresh_id env) = Some "FAILED"
  /\ statuses (issued w run.2) = ["FAILED"; "SUCCEEDED"; "PENDING"]
  /\ attempts (sent run.2) = S (attempts (sent w)).
Proof.
  intros Hm Hv Hmode Hfree Hfault Hreply Hresp Hmeta run.
  assert (SubmitJob.metadata_update env response = ∅) as Hupd
    by (unfold SubmitJob.metadata_update; by rewrite Hmeta).
  assert (exists wf n it e u1 u2 job,
             run = (errorResponse env (Error "TypeError" e), wf)
             /\ db wf !! fresh_id env
                = Some (updated env FAILED
                          (SubmitJob.error_update (Error "TypeError" e)) n it)
             /\ sent wf = UpdateItem (fresh_id env)
                            (("status", JStr "FAILED") :: u2)
                          :: UpdateItem (fresh_id env)
                               (("status", JStr "SUCCEEDED") :: u1)
                          :: InvokeEndpoint
                               (SageMakerService.createInferenceInput request)
                          :: PutItem job true :: sent w
             /\ status_of (Some job) = Some "PENDING")
    as (wf & n & it & e & u1 & u2 & job & -> & Hdb & Hsent & Hjob).
  { subst run. rewrite (handler_validated env event w ctx request) by done.
    rewrite create_and_dispatch_created by (done || apply (Hfault 0); lia).
    rewrite Hmode. unfold SubmitJob.synchronous, try_catch, bind at 1.
    rewrite (invokeSync_ok env _ _ response); [|apply (Hfault 1); lia|done|done].
    unfold bind at 1. rewrite Hupd.
    erewrite updateJobStatus_existing;
      [|apply (Hfault 2); lia|done|cbn [db]; apply lookup_insert_eq].
    unfold bind at 1, lift, SubmitJob.generation_time. rewrite Hmeta.
    unfold bind.
    erewrite updateJobStatus_existing;
      [|apply (Hfault 3); lia|intros _; by apply lookup_singleton_ne
       |unfold after_update; cbn [db]; apply lookup_insert_eq].
    eexists _, _, _, _, _, _, _. split; [reflexivity|].
    unfold after_update. cbn [db staging sent ticks].
    split; [apply lookup_insert_eq|]. split; [reflexivity|].
    apply jobItem_status. }
  cbn [fst snd]. rewrite Hdb, status_of_Some, updated_status.
  split; [done|]. split; [done|]. split.
  - unfold issued. rewrite Hsent. cbn [length].
    replace (S (S (S (S (length (sent w))))) - length (sent w)) with 4 by lia.
    cbn [take].
    by rewrite !statuses_cons_update, statuses_cons_invoke,
      (statuses_cons_put _ _ "PENDING") by done.
  - rewrite Hsent. done.
Qed.

Lemma submit_sync_without_metadata_fails_witness :
  let event := post_as "alice" sync_sunset in
  let bare : Env :=
    {| clock := clock calm; epoch_millis := epoch_millis calm;
       date_millis := date_millis calm; fresh_id := fresh_id calm;
       random_seed := random_seed calm; fault := fault calm;
       output_location := output_location calm;
       reply_body := fun _ => Parsed (JObj [("generated_image", JStr "aGk=")]);
       json_text := json_text calm; json_parse := json_parse calm;
       presigned_url := presigned_url calm; input_bucket := input_bucket calm;
       development := false |} in
  let run := SubmitJob.handler bare event empty_world in
  httpMethod event <> "OPTIONS"
  /\ statusCode run.1 = 500%Z
  /\ status_of (db run.2 !! fresh_id calm) = Some "FAILED".
Proof.
  intros event bare run.
  assert (httpMethod event <> "OPTIONS") as Hm by done.
  assert (match SubmitJob.validated event with
          | Return a =>
              Js.strict_eq (Js.field a.2 "mode") (Some (JStr "sync")) = true
          | Throw _ => False
          end) as Hmode by (vm_compute; reflexivity).
  destruct (SubmitJob.validated event) as [[ctx request]|e] eqn:Hv;
    [simpl in Hmode|contradiction].
  destruct (submit_sync_without_metadata_fails bare event empty_world ctx request
              (JObj [("generated_image", JStr "aGk=")])
              Hm Hv Hmode eq_refl (fun _ _ => eq_refl) eq_refl
              ltac:(done) eq_refl)
    as (H1 & H2 & _).
  split; [exact Hm|]. split; [exact H1|exact H2].
Defined.

(** ** The responses of the service handlers *)

(** What a run returns, when it returns. *)
Definition answers {A} (P : A -> Prop) (m : M A) : Prop :=
  forall w a w', m w = (Return a, w') -> P a.

Section Answers.

Context {A : Type} (P : A -> Prop).

Lemma answers_ret a : P a -> answers P (ret a).
Proof. by intros H w a' w' [= <- _]. Qed.

Lemma answers_throw e : answers P (throw e).
Proof. by intros w a w'. Qed.

Lemma answers_lift_throw e : answers P (lift (Throw e)).
Proof. by intros w a w'. Qed.

Lemma answers_bind {B} (m : M B) (k : B -> M A) :
  (forall b, answers P (k b)) -> answers P (bind m k).
Proof.
  intros Hk w a w'. unfold bind. destruct (m w) as [[b|e] w1]; [|done].
  apply Hk.
Qed.

Lemma answers_try_catch (m : M A) (h : error -> M A) :
  answers P m -> (forall e, answers P (h e)) -> answers P (try_catch m h).
Proof.
  intros Hm Hh w a w'. unfold try_catch.
  destruct (m w) as [[b|e] w1] eqn:E.
  - intros [= <- <-]. by eapply Hm.
  - apply Hh.
Qed.

End Answers.

Ltac answer :=
  repeat match goal with
    | |- answers _ (ret _) => apply answers_ret
    | |- answers _ (throw _) => apply answers_throw
    | |- answers _ (bind _ _) => apply answers_bind; intros ?
    | |- answers _ (try_catch _ _) => apply answers_try_catch; [|intros ?]
    | |- answers _ (match _ with _ => _ end) => case_match
    end.

(** A response a caller may see: a status among those of the
    interface, the header that lets any origin read it, and, outside
    development, nothing of an internal error but a fixed message. *)
Definition presentable (env : Env) (r : Response) : Prop :=
  statusCode r ∈ [200; 202; 400; 403; 404; 500]%Z
  /\ ("Access-Control-Allow-Origin", "*") ∈ headers r
  /\ (statusCode r = 500%Z -> development env = false ->
      payload_of r
      = Failure "Internal server error" "An unexpected error occurred" None).

Lemma presentable_success env data code :
  code ∈ [200; 202]%Z -> presentable env (successResponse data code).
Proof.
  intros Hc. split; [|split].
  - simpl. set_solver.
  - simpl. unfold CORS_HEADERS. set_solver.
  - simpl. intros ->. set_solver.
Qed.

Lemma presentable_options env : presentable env optionsResponse.
Proof.
  split; [|split]; simpl; [set_solver|unfold CORS_HEADERS; set_solver|done].
Qed.

Lemma presentable_error env e : presentable env (errorResponse env e).
Proof.
  destruct e; (split; [|split]); simpl;
    try set_solver; try (unfold CORS_HEADERS; set_solver);
    by intros _ ->.
Qed.

(** Whatever the event and the state of the services, the two handlers
    of the service answer with a status among 200, 202, 400, 403, 404
    and 500 and with the cross-origin header; outside development a
    response of status 500 carries a fixed message and not the message
    of the error behind it. *)
Theorem service_responses_presentable env event w :
  presentable env (SubmitJob.handler env event w).1
  /\ presentable env (GetJob.handler env event w).1.
Proof.
  split.
  - unfold SubmitJob.handler.
    destruct (SubmitJob.submit env event w) as [[r|e] w'] eqn:E; simpl;
      [|apply presentable_error].
    revert E. generalize w r w'. change (answers (presentable env)
                                           (SubmitJob.submit env event)).
    unfold SubmitJob.submit. case_decide.
    { apply answers_ret, presentable_options. }
    apply answers_bind. intros [ctx request].
    unfold SubmitJob.create_and_dispatch. simpl.
    apply answers_bind. intros timestamp. apply answers_bind. intros _.
    destruct (Js.strict_eq _ _).
    + unfold SubmitJob.synchronous. answer.
      apply presentable_success. set_solver.
    + unfold SubmitJob.asynchronous. answer.
      apply presentable_success. set_solver.
  - unfold GetJob.handler.
    destruct (GetJob.get env event w) as [[r|e] w'] eqn:E; simpl;
      [|apply presentable_error].
    revert E. generalize w r w'. change (answers (presentable env)
                                           (GetJob.get env event)).
    unfold GetJob.get. case_decide.
    { apply answers_ret, presentable_options. }
    destruct (pathId event) as [[|c jobId]|]; try apply answers_throw.
    apply answers_bind. intros ctx. apply answers_bind. intros [job|];
      [|apply answers_throw].
    apply answers_bind. intros _.
    apply answers_ret, presentable_success. set_solver.
Qed.

(** ** The view of a job *)

Lemma assoc_absent key (fields : list (string * json)) :
  key ∉ fields.*1 -> Js.assoc key fields = None.
Proof.
  induction fields as [|[k v] rest IH]; [done|]. simpl.
  intros [Hk Hrest]%not_elem_of_cons. rewrite IH by done.
  by rewrite decide_False.
Qed.

Lemma obj_keys (properties : list (string * option json)) key :
  key ∉ properties.*1 -> Js.field (Js.obj properties) key = None.
Proof.
  intros Hk. unfold Js.obj. simpl. apply assoc_absent. intros Hin. apply Hk.
  apply list_elem_of_fmap in Hin as ([k v] & -> & Hin).
  apply list_elem_of_omap in Hin as ([k' [v'|]] & Hin & [=]). subst.
  apply list_elem_of_fmap. by exists (k, Some v).
Qed.

Lemma status_fields_keys env job :
  (GetJob.status_fields env job).*1
  ⊆ ["imageUrl"; "metadata"; "timings"; "error"; "estimatedCompletion"].
Proof.
  unfold GetJob.status_fields. repeat case_match; simpl; set_solver.
Qed.

(** The view of a job that [get-job] answers with holds the job's
    identifier, status, times and input, and according to the status the
    result, the error or an estimate, and nothing else: not the owner,
    the expiry time, the mode or the key of the stored output. *)
Theorem job_view_fields env job key :
  key ∉ ["jobId"; "status"; "createdAt"; "updatedAt"; "inputParams";
         "imageUrl"; "metadata"; "timings"; "error"; "estimatedCompletion"] ->
  Js.field (GetJob.job_view env job) key = None.
Proof.
  intros Hkey. unfold GetJob.job_view. apply obj_keys.
  rewrite fmap_app. intros [Hin|Hin]%elem_of_app.
  - simpl in Hin. set_solver.
  - apply status_fields_keys in Hin. set_solver.
Qed.

Lemma job_view_fields_witness :
  Js.field (GetJob.job_view calm (sample_job "J1" "alice" SUCCEEDED)) "userId"
  = None.
Proof. apply job_view_fields. by apply (bool_decide_unpack _). Defined.

(** ** The parsed request *)

(** The values that the schema fills in for fields left out. *)
Definition request_defaults : list (string * json) :=
  [("modelId", JStr "stable-diffusion-xl"); ("steps", JNum 20%Q);
   ("guidanceScale", JNum 7.5%Q); ("width", JNum 1024%Q);
   ("height", JNum 1024%Q); ("quality", JStr "medium");
   ("mode", JStr "async")].

(** A schema hands on the value it accepts, and [d] for none. *)
Definition hands_on (d : option json) (s : Zod.schema) : Prop :=
  forall p v, clean s p v ->
              Zod.output (s p v) = match v with Some j => Some j | None => d end.

Section Outputs.

Lemma hands_on_string checks : hands_on None (Zod.string checks).
Proof. intros p v. unfold clean, Zod.string. by destruct v as [[]|]. Qed.

Lemma hands_on_number checks : hands_on None (Zod.number checks).
Proof. intros p v. unfold clean, Zod.number. by destruct v as [[]|]. Qed.

Lemma hands_on_enum values : hands_on None (Zod.enum values).
Proof.
  intros p v. unfold clean, Zod.enum.
  destruct v as [[| | |s| |]|]; try done. by case_bool_decide.
Qed.

Lemma hands_on_refine test message inner :
  hands_on None inner -> hands_on None (Zod.refine test message inner).
Proof.
  intros Hin p v. unfold clean, Zod.refine.
  pose proof (Hin p v) as H. unfold clean in H. cbv zeta.
  destruct (Zod.aborted (inner p v)); [exact H|].
  destruct (Zod.output (inner p v)) as [[| |q| | |]|] eqn:Eo;
    try (by intros Hi; rewrite Eo; apply H).
  destruct (test q); [by intros Hi; rewrite Eo; apply H|].
  simpl. by intros [_ [=]]%app_eq_nil.
Qed.

Lemma hands_on_optional inner :
  hands_on None inner -> hands_on None (Zod.optional inner).
Proof. intros Hin p v. unfold clean, Zod.optional. destruct v; [apply Hin|done]. Qed.

Lemma hands_on_default value inner :
  hands_on None inner -> hands_on (Some value) (Zod.default value inner).
Proof.
  intros Hin p v. unfold clean, Zod.default.
  destruct v; apply (Hin p (Some _)).
Qed.

(** The output of an object whose fields are all accepted. *)
Lemma fields_output shape defaults p input key :
  NoDup shape.*1 ->
  Forall (fun ks : string * Zod.schema =>
            hands_on (Js.assoc ks.1 defaults) ks.2) shape ->
  Forall (fun ks : string * Zod.schema =>
            clean ks.2 (p ++ [ks.1]) (Js.assoc ks.1 input)) shape ->
  Js.assoc key (Zod.fields shape p input).1.2
  = if bool_decide (key ∈ shape.*1)
    then match Js.assoc key input with
         | Some v => Some v
         | None => Js.assoc key defaults
         end
    else None.
Proof.
  induction shape as [|[k s] rest IH]; [done|].
  rewrite fmap_cons. cbn [fst snd].
  intros [Hk Hnd]%NoDup_cons [Hs Hrest]%Forall_cons [Hc Hcs]%Forall_cons.
  specialize (IH Hnd Hrest Hcs). cbn [fst snd] in Hs, Hc. cbn [Zod.fields].
  destruct (Zod.fields rest p input) as [[stop out] found]. cbn [fst snd] in *.
  rewrite (Hs _ _ Hc).
  destruct (decide (k = key)) as [->|Hne].
  - rewrite (bool_decide_eq_false_2 (key ∈ rest.*1)) in IH by done.
    rewrite bool_decide_eq_true_2 by (by left).
    destruct (Js.assoc key input) as [v|]; simpl.
    + by rewrite IH, decide_True.
    + destruct (Js.assoc key defaults); simpl; [by rewrite IH, decide_True|done].
  - assert (bool_decide (key ∈ k :: rest.*1) = bool_decide (key ∈ rest.*1)) as ->.
    { apply bool_decide_ext. rewrite elem_of_cons. naive_solver. }
    assert (forall v, Js.assoc key ((k, v) :: out) = Js.assoc key out) as Hskip.
    { intros v. simpl. destruct (Js.assoc key out); [done|by rewrite decide_False]. }
    destruct (Js.assoc k input) as [v|]; [by rewrite Hskip|].
    destruct (Js.assoc k defaults); [by rewrite Hskip|done].
Qed.

End Outputs.

Lemma schema_hands_on :
  Forall (fun ks : string * Zod.schema =>
            hands_on (Js.assoc ks.1 request_defaults) ks.2) SubmitJobRequestShape.
Proof.
  unfold SubmitJobRequestShape, dimension.
  repeat (constructor; simpl;
          [first [apply hands_on_default|idtac];
           first [apply hands_on_optional|idtac];
           first [apply hands_on_refine|idtac];
           first [apply hands_on_string|apply hands_on_number|apply hands_on_enum]|]).
  constructor.
Qed.

(** The request that the schema hands to the handler, for a body it
    accepts: each field of the schema holds the value given in the body,
    or the schema's default when the body leaves it out (none for the
    prompt, the seed and the negative prompt); what else the body holds
    is dropped. *)
Theorem accepted_request_fields data request :
  Zod.safeParse SubmitJobRequestSchema data = inr request ->
  exists input,
    data = JObj input
    /\ forall key,
         Js.field request key
         = if bool_decide (key ∈ ["prompt"; "modelId"; "steps"; "guidanceScale";
                                  "width"; "height"; "seed"; "quality"; "mode";
                                  "negativePrompt"])
           then match Js.assoc key input with
                | Some v => Some v
                | None => Js.assoc key request_defaults
                end
           else None.
Proof.
  intros Hp.
  destruct (proj1 (safeParse_object_accepts SubmitJobRequestShape data))
    as (input & -> & Hclean); [by exists request|].
  exists input. split; [done|]. intros key.
  pose proof (fields_output SubmitJobRequestShape request_defaults [] input key)
    as Hout.
  revert Hp. unfold Zod.safeParse, SubmitJobRequestSchema, Zod.object.
  cbn [Zod.issues Zod.output].
  destruct (Zod.fields SubmitJobRequestShape [] input) as [[stop out] found].
  cbn [Zod.issues Zod.output]. destruct found; [|done]. intros [= <-].
  cbn [Js.field]. apply Hout.
  - by apply (bool_decide_unpack _).
  - apply schema_hands_on.
  - exact Hclean.
Qed.

Lemma accepted_request_fields_witness :
  let data := JObj [("prompt", JStr "a red fox"); ("steps", JNum 30%Q);
                    ("priority", JStr "high")] in
  exists request,
    Zod.safeParse SubmitJobRequestSchema data = inr request
    /\ Js.field request "steps" = Some (JNum 30%Q)
    /\ Js.field request "mode" = Some (JStr "async")
    /\ Js.field request "priority" = None.
Proof.
  intros data.
  destruct (Zod.safeParse SubmitJobRequestSchema data) as [found|request] eqn:E;
    [exfalso; revert E; by vm_compute|].
  exists request. split; [done|].
  destruct (accepted_request_fields data request E) as (input & [= <-] & H).
  by rewrite !H.
Defined.

(** ** The two variants of the submit handler *)

Section Variants.

Lemma out_of_range_within v lower upper :
  if_given (number_within lower upper) v ->
  SubmitJobLambda.out_of_range v lower upper = false.
Proof.
  unfold SubmitJobLambda.out_of_range.
  intros [->|(q & -> & Hl & Hu)]; [done|].
  apply not_lt_spec in Hl. apply not_gt_spec in Hu.
  rewrite Hl, Hu. apply andb_false_r.
Qed.

Lemma bad_dimension_within v :
  if_given (fun v => number_within 256 1024 v /\ multiple_of 64 v) v ->
  SubmitJobLambda.bad_dimension v = false.
Proof.
  unfold SubmitJobLambda.bad_dimension.
  intros [->|[(q & -> & Hl & Hu) (q' & z & [= <-] & Hz)]]; [done|].
  apply not_lt_spec in Hl. apply not_gt_spec in Hu.
  assert (Js.rem_is_zero q 64 = true) as Hr
    by (apply rem_is_zero_spec; [done|by exists z]).
  rewrite Hl, Hu, Hr. apply andb_false_r.
Qed.

Lemma includes_one_of values v :
  if_given (one_of values) v ->
  Js.truthy v && negb (Js.includes values v) = false.
Proof.
  intros [->|(s & -> & Hs)]; [done|]. unfold Js.includes.
  rewrite bool_decide_eq_true_2 by done. apply andb_false_r.
Qed.

Lemma prompt_in_order s :
  1 <= String.length s <= 1000 ->
  Js.trim s <> "" ->
  SubmitJobLambda.blank_prompt (Some (JStr s)) = false
  /\ Js.truthy (Some (JStr s))
     && Js.exceeds (Js.length_of (Some (JStr s))) 1000%Q = false.
Proof.
  intros [Hlo Hhi] Ht. split.
  - unfold SubmitJobLambda.blank_prompt. cbn [Js.truthy].
    rewrite (bool_decide_eq_false_2 (s = "")) by (intros ->; simpl in Hlo; lia).
    rewrite (bool_decide_eq_false_2 (String.length (Js.trim s) = 0)); [done|].
    by destruct (Js.trim s).
  - assert (Js.exceeds (Js.length_of (Some (JStr s))) 1000%Q = false) as ->;
      [|apply andb_false_r].
    unfold Js.exceeds, Js.length_of, Js.to_number, Js.of_nat.
    apply not_gt_spec. change 1000%Q with (inject_Z 1000).
    rewrite <-Zle_Qle. lia.
Qed.

End Variants.

(** The inline Lambda variant refuses no request that the service
    accepts, unless the prompt is white space only: a body that passes
    the schema of the service and whose prompt is not blank once trimmed
    passes [validateInput] with no error. *)
Theorem accepted_by_service_accepted_by_lambda b :
  accepted b ->
  (forall s, Js.field b "prompt" = Some (JStr s) -> Js.trim s <> "") ->
  SubmitJobLambda.validateInput b = Return [].
Proof.
  intros Hacc Hprompt.
  apply (described_accepts _ _ _ schema_described) in Hacc
    as (input & -> & Hmeets).
  unfold meets, requirements in Hmeets.
  repeat (apply Forall_cons in Hmeets as [? Hmeets]). cbn [fst snd] in *.
  unfold SubmitJobLambda.validateInput. cbn [Js.get Js.field].
  match goal with H : text_of_length 1 1000 _ |- _ =>
    destruct H as (s & Hs & Hlen) end.
  rewrite Hs. destruct (prompt_in_order s Hlen) as [-> ->].
  { apply Hprompt. exact Hs. }
  rewrite !out_of_range_within, !bad_dimension_within, !includes_one_of; try done.
  all: match goal with H : if_given _ ?v |- if_given _ ?v =>
         destruct H as [H|H]; [by left|right; apply H] end.
Qed.

Lemma accepted_by_service_accepted_by_lambda_witness :
  accepted async_sunset
  /\ SubmitJobLambda.validateInput async_sunset = Return [].
Proof.
  assert (accepted async_sunset) as Hacc.
  { unfold accepted.
    destruct (Zod.safeParse SubmitJobRequestSchema async_sunset) as [f|r] eqn:E;
      [exfalso; revert E; by vm_compute|by exists r]. }
  split; [exact Hacc|].
  apply accepted_by_service_accepted_by_lambda; [exact Hacc|].
  intros s [= <-]. by vm_compute.
Defined.

(** ** The inline Lambda variant of the submit handler *)

Section LambdaRuns.

Context (env : Env).

Lemma put_item_unconditional it k w :
  item_key it = Some k ->
  fault env (length (sent w)) = None ->
  put_item env it false w
  = (Return tt, {| db := <[k := it]> (db w); staging := staging w;
                   sent := PutItem it false :: sent w; ticks := ticks w |}).
Proof. intros Hk Hf. unfold put_item, send. by rewrite Hf, Hk. Qed.

Lemma marshall_change job changes k v :
  (list_to_map (omap (fun kv : string * option json => pair kv.1 <$> kv.2) changes)
     : item) !! k = Some v ->
  SubmitJobLambda.marshall job changes !! k = Some v.
Proof. intros H. unfold SubmitJobLambda.marshall. by apply lookup_union_Some_l. Qed.

Lemma marshall_check_safe changes :
  Forall (fun kv : string * option json =>
            kv.2 ≫= SubmitJobLambda.unsafe_number = None) changes ->
  SubmitJobLambda.marshall_check env changes = Return tt.
Proof.
  intros H. unfold SubmitJobLambda.marshall_check.
  assert (omap (fun kv : string * option json =>
                  kv.2 ≫= SubmitJobLambda.unsafe_number) changes = []) as ->; [|done].
  induction H as [|kv rest Hkv _ IH]; [done|]. simpl. by rewrite Hkv.
Qed.


Lemma validateInput_prompt body :
  SubmitJobLambda.validateInput body = Return [] ->
  exists s, SubmitJobLambda.trimmed_prompt body = Return (JStr (Js.trim s)).
Proof.
  unfold SubmitJobLambda.validateInput, SubmitJobLambda.trimmed_prompt.
  destruct (Js.get body "prompt") as [prompt|e] eqn:Eg; [|discriminate].
  intros [= H]. apply app_eq_nil in H as [H _].
  unfold SubmitJobLambda.when in H.
  destruct (SubmitJobLambda.blank_prompt prompt) eqn:Eb; [discriminate|].
  clear H. unfold SubmitJobLambda.blank_prompt in Eb.
  assert (exists s, prompt = Some (JStr s)) as [s ->].
  { destruct prompt as [[| | |s| |]|]; try (rewrite orb_true_r in Eb; discriminate).
    by exists s. }
  exists s. destruct body; cbn [Js.get Js.field] in *; try discriminate.
  injection Eg as ->. reflexivity.
Qed.

(** A synchronous submit gets as far as the endpoint. *)
Lemma lambda_sync_dispatched event body w :
  SubmitJobLambda.parsed_body event = Some body ->
  SubmitJobLambda.validateInput body = Return [] ->
  Js.field body "mode" = Some (JStr "sync") ->
  fault env (length (sent w)) = None ->
  exists prompt,
    let params := SubmitJobLambda.inferenceParams env body prompt in
    let job := SubmitJobLambda.jobItem env (fresh_id env) (getUserId event)
                 (clock env (ticks w)) params (Some (JStr "sync")) in
    SubmitJobLambda.submit env event w
    = SubmitJobLambda.synchronous env (fresh_id env) job
        (SubmitJobLambda.inputData params)
        {| db := <[fresh_id env := SubmitJobLambda.marshall job []]> (db w);
           staging := staging w;
           sent := PutItem (SubmitJobLambda.marshall job []) false :: sent w;
           ticks := S (ticks w) |}.
Proof.
  intros Hbody Hval Hmode Hf.
  destruct (validateInput_prompt body Hval) as [s Hs].
  exists (JStr (Js.trim s)). cbv zeta.
  unfold SubmitJobLambda.submit. rewrite Hbody. unfold bind at 1, lift.
  rewrite Hval. unfold SubmitJobLambda.create_and_dispatch.
  unfold bind at 1, now. unfold bind at 1, lift. rewrite Hs. cbv zeta.
  rewrite Hmode. change (Js.or (Some (JStr "sync")) (Some (JStr "async")))
    with (Some (JStr "sync")).
  unfold bind at 1.
  erewrite put_item_unconditional;
    [|apply marshall_key; intros v Hin; by apply elem_of_nil in Hin|exact Hf].
  reflexivity.
Qed.

End LambdaRuns.

(** A synchronous submit in the inline Lambda variant whose inference
    fails: the caller gets status 500 with the message of the underlying
    error, and the record is rewritten as FAILED with that message; no
    completion time is written. *)
Theorem lambda_sync_failure_recorded env event w body e :
  SubmitJobLambda.parsed_body event = Some body ->
  SubmitJobLambda.validateInput body = Return [] ->
  Js.field body "mode" = Some (JStr "sync") ->
  fault env (length (sent w)) = None ->
  fault env (1 + length (sent w)) = Some e ->
  fault env (2 + length (sent w)) = None ->
  let run := SubmitJobLambda.handler env event w in
  run.1 = reply SubmitJobLambda.POST 500
            [("error", Some (JStr "Inference failed"));
             ("details", Some (JStr (error_message e)))]
  /\ status_of (db run.2 !! fresh_id env) = Some "FAILED"
  /\ db run.2 !! fresh_id env ≫= (.!! "error") = Some (JStr (error_message e))
  /\ db run.2 !! fresh_id env ≫= (.!! "completedAt") = None.
Proof.
  intros Hbody Hval Hmode Hf0 Hf1 Hf2 run. simpl in Hf1, Hf2.
  assert (exists wf userId timestamp params mode updatedAt,
             run = (reply SubmitJobLambda.POST 500
                      [("error", Some (JStr "Inference failed"));
                       ("details", Some (JStr (error_message e)))], wf)
             /\ db wf !! fresh_id env
                = Some (SubmitJobLambda.marshall
                          (SubmitJobLambda.jobItem env (fresh_id env) userId
                             timestamp params mode)
                          [("status", Some (JStr "FAILED"));
                           ("updatedAt", Some (JStr updatedAt));
                           ("error", Some (JStr (error_message e)))]))
    as (wf & userId & timestamp & params & mode & updatedAt & -> & Hdb).
  { destruct (lambda_sync_dispatched env event body w Hbody Hval Hmode Hf0)
      as [prompt Hrun]. cbv zeta in Hrun.
    subst run. unfold SubmitJobLambda.handler. rewrite Hrun. clear Hrun.
    unfold SubmitJobLambda.synchronous, try_catch, bind at 1.
    unfold SageMakerService.invoke_endpoint, send. cbn [sent length].
    rewrite Hf1. unfold bind at 1, now. cbn [db staging sent ticks].
    unfold bind at 1, lift.
    rewrite marshall_check_safe by (by repeat constructor).
    unfold bind.
    erewrite put_item_unconditional;
      [|apply marshall_key; intros v Hin; set_solver|cbn [sent length]; exact Hf2].
    unfold ret. eexists _, _, _, _, _, _. split; [reflexivity|].
    cbn [db]. apply lookup_insert_eq. }
  cbn [fst snd]. rewrite Hdb. split; [done|]. split; [|split].
  - apply marshall_status. by simplify_map_eq.
  - rewrite attribute_of_Some. apply marshall_change. by simplify_map_eq.
  - rewrite attribute_of_Some. apply marshall_no_completion.
    intros v Hin. set_solver.
Qed.

Lemma lambda_sync_failure_recorded_witness :
  let event := post_as "alice" sync_sunset in
  let run := SubmitJobLambda.handler (failing 1 unreachable) event empty_world in
  statusCode run.1 = 500%Z
  /\ status_of (db run.2 !! fresh_id calm) = Some "FAILED".
Proof.
  intros event run.
  destruct (lambda_sync_failure_recorded (failing 1 unreachable) event empty_world
              sync_sunset unreachable eq_refl eq_refl eq_refl eq_refl eq_refl
              eq_refl)
    as (H1 & H2 & _).
  split; [subst run; by rewrite H1|exact H2].
Defined.



(** Bodies that the inline Lambda variant of the submit handler cannot
    use.  Text that is not JSON is answered with status 400; no body at
    all is read as an empty object and answered with status 400 for the
    missing prompt; the JSON text [null] is answered with status 500,
    for [validateInput] throws on it.  None of them reaches a service. *)
Theorem lambda_submit_unusable_body env event w :
  (body event = Malformed ->
   SubmitJobLambda.handler env event w
   = (reply SubmitJobLambda.POST 400
        [("error", Some (JStr "Invalid JSON in request body"))], w))
  /\ (body event = NoBody ->
      SubmitJobLambda.handler env event w
      = (reply SubmitJobLambda.POST 400
           [("error", Some (JStr "Validation failed"));
            ("details",
             Some (JArr [JStr "prompt is required and must be a non-empty string"]))],
         w))
  /\ (body event = Parsed JNull ->
      SubmitJobLambda.handler env event w
      = (reply SubmitJobLambda.POST 500
           [("error", Some (JStr "Internal server error"));
            ("details",
             Some (JStr "Cannot read properties of null (reading 'prompt')"))],
         w)).
Proof.
  unfold SubmitJobLambda.handler, SubmitJobLambda.submit,
    SubmitJobLambda.parsed_body.
  split; [|split]; intros ->; reflexivity.
Qed.

(** ** Failures in the middle of a submit *)

Section SubmitFailures.

Context (env : Env).

Lemma invokeSync_request_fails request w e :
  fault env (length (sent w)) = Some e ->
  SageMakerService.invokeSync env request w
  = (Throw (InternalError "Failed to complete inference" e),
     {| db := db w; staging := staging w;
        sent := InvokeEndpoint (SageMakerService.createInferenceInput request)
                  :: sent w;
        ticks := ticks w |}).
Proof.
  intros H1.
  unfold SageMakerService.invokeSync, try_catch, bind,
    SageMakerService.invoke_endpoint, send. simpl. by rewrite H1.
Qed.

Lemma updateJobStatus_request_fails jobId status updates w e :
  fault env (length (sent w)) = Some e ->
  error_name e <> "ConditionalCheckFailedException" ->
  DynamoDBService.updateJobStatus env jobId status updates w
  = (Throw (InternalError "Failed to update job status" e),
     after_update env jobId status updates w (db w)).
Proof.
  intros Hf Hn. rewrite updateJobStatus_clock.
  unfold try_catch, update_item, send. cbn [sent]. rewrite Hf.
  by rewrite decide_False.
Qed.

End SubmitFailures.

(** A synchronous submit in the service whose request to the endpoint
    fails: the caller gets status 500; the record is FAILED with a
    completion time, and its error is the message of the wrapping error,
    not of the failure behind it. *)
Theorem submit_sync_inference_failure env event w ctx request e :
  httpMethod event <> "OPTIONS" ->
  SubmitJob.validated event = Return (ctx, request) ->
  Js.strict_eq (Js.field request "mode") (Some (JStr "sync")) = true ->
  db w !! fresh_id env = None ->
  fault env (length (sent w)) = None ->
  fault env (1 + length (sent w)) = Some e ->
  fault env (2 + length (sent w)) = None ->
  let run := SubmitJob.handler env event w in
  statusCode run.1 = 500%Z
  /\ status_of (db run.2 !! fresh_id env) = Some "FAILED"
  /\ db run.2 !! fresh_id env ≫= (.!! "error")
     = Some (JStr "Failed to complete inference")
  /\ is_Some (db run.2 !! fresh_id env ≫= (.!! "completedAt"))
  /\ attempts (sent run.2) = S (attempts (sent w)).
Proof.
  intros Hm Hv Hmode Hfree Hf0 Hf1 Hf2 run.
  assert (exists wf,
             run = (errorResponse env
                      (InternalError "Failed to complete inference" e), wf)
             /\ (exists n, db wf !! fresh_id env
                = Some (updated env FAILED
                          (SubmitJob.error_update
                             (InternalError "Failed to complete inference" e))
                          n
                          (SubmitJob.jobItem env (fresh_id env) ctx
                             (clock env (ticks w)) request)))
             /\ attempts (sent wf) = S (attempts (sent w)))
    as (wf & -> & [n Hdb] & Hat).
  { subst run. rewrite (handler_validated env event w ctx request) by done.
    rewrite create_and_dispatch_created by done.
    rewrite Hmode. unfold SubmitJob.synchronous, try_catch, bind at 1.
    rewrite (invokeSync_request_fails env _ _ e) by done.
    unfold bind.
    erewrite updateJobStatus_existing;
      [|done|intros _; by apply lookup_singleton_ne|simpl; apply lookup_insert_eq].
    eexists. split; [reflexivity|]. unfold after_update. cbn [db staging sent ticks].
    split; [eexists; apply lookup_insert_eq|done]. }
  cbn [fst snd]. rewrite Hdb.
  split; [done|]. split; [by rewrite status_of_Some, updated_status|].
  rewrite !attribute_of_Some. split.
  { rewrite updated_other by done. unfold SubmitJob.error_update.
    rewrite decide_False by done. by rewrite lookup_singleton_eq. }
  split; [|done].
  rewrite updated_completedAt; [by eexists|done|by apply lookup_singleton_ne].
Qed.

Lemma submit_sync_inference_failure_witness :
  let event := post_as "alice" sync_sunset in
  let run := SubmitJob.handler (failing 1 unreachable) event empty_world in
  httpMethod event <> "OPTIONS"
  /\ statusCode run.1 = 500%Z
  /\ status_of (db run.2 !! fresh_id calm) = Some "FAILED".
Proof.
  intros event run.
  assert (httpMethod event <> "OPTIONS") as Hm by done.
  assert (match SubmitJob.validated event with
          | Return a =>
              Js.strict_eq (Js.field a.2 "mode") (Some (JStr "sync")) = true
          | Throw _ => False
          end) as Hmode by (vm_compute; reflexivity).
  destruct (SubmitJob.validated event) as [[ctx request]|e] eqn:Hv;
    [simpl in Hmode|contradiction].
  destruct (submit_sync_inference_failure (failing 1 unreachable) event
              empty_world ctx request unreachable Hm Hv Hmode
              eq_refl eq_refl eq_refl eq_refl)
    as (H1 & H2 & _).
  split; [exact Hm|]. split; [exact H1|exact H2].
Defined.

(** An asynchronous submit in the service whose inference is started
    but whose write of the status RUNNING fails: the caller gets status
    500 and the record is FAILED, although the input is staged and the
    endpoint was invoked. *)
Theorem submit_async_confirmation_failure env event w ctx request location e :
  httpMethod event <> "OPTIONS" ->
  SubmitJob.validated event = Return (ctx, request) ->
  Js.strict_eq (Js.field request "mode") (Some (JStr "sync")) = false ->
  db w !! fresh_id env = None ->
  (forall i, i < 3 -> fault env (i + length (sent w)) = None) ->
  output_location env (2 + length (sent w)) = Some location ->
  location <> "" ->
  fault env (3 + length (sent w)) = Some e ->
  error_name e <> "ConditionalCheckFailedException" ->
  fault env (4 + length (sent w)) = None ->
  let run := SubmitJob.handler env event w in
  statusCode run.1 = 500%Z
  /\ status_of (db run.2 !! fresh_id env) = Some "FAILED"
  /\ db run.2 !! fresh_id env ≫= (.!! "error")
     = Some (JStr "Failed to update job status")
  /\ staging run.2 !! input_key (fresh_id env)
     = Some (SageMakerService.createInferenceInput request)
  /\ attempts (sent run.2) = S (attempts (sent w)).
Proof.
  intros Hm Hv Hmode Hfree Hfault Hloc Hne Hf3 Hname Hf4 run.
  assert (exists wf,
             run = (errorResponse env
                      (InternalError "Failed to update job status" e), wf)
             /\ (exists n, db wf !! fresh_id env
                = Some (updated env FAILED
                          (SubmitJob.error_update
                             (InternalError "Failed to update job status" e))
                          n
                          (SubmitJob.jobItem env (fresh_id env) ctx
                             (clock env (ticks w)) request)))
             /\ staging wf !! input_key (fresh_id env)
                = Some (SageMakerService.createInferenceInput request)
             /\ attempts (sent wf) = S (attempts (sent w)))
    as (wf & -> & [n Hdb] & Hst & Hat).
  { subst run. rewrite (handler_validated env event w ctx request) by done.
    rewrite create_and_dispatch_created by (done || apply (Hfault 0); lia).
    rewrite Hmode. unfold SubmitJob.asynchronous, try_catch, bind at 1.
    rewrite (invokeAsync_ok env _ _ _ location);
      [|apply (Hfault 1); lia|apply (Hfault 2); lia|exact Hloc|exact Hne].
    unfold bind at 1.
    rewrite (updateJobStatus_request_fails env _ _ _ _ e); [|exact Hf3|exact Hname].
    unfold bind.
    erewrite updateJobStatus_existing;
      [|exact Hf4|intros _; by apply lookup_singleton_ne
       |unfold after_update; cbn [db]; apply lookup_insert_eq].
    eexists. split; [reflexivity|]. unfold after_update. cbn [db staging sent ticks].
    split; [eexists; apply lookup_insert_eq|].
    split; [apply lookup_insert_eq|done]. }
  cbn [fst snd]. rewrite Hdb.
  split; [done|]. split; [by rewrite status_of_Some, updated_status|].
  rewrite !attribute_of_Some. split; [|done].
  rewrite updated_other by done. unfold SubmitJob.error_update.
  rewrite decide_False by done. by rewrite lookup_singleton_eq.
Qed.

Lemma submit_async_confirmation_failure_witness :
  let event := post_as "alice" async_sunset in
  let run := SubmitJob.handler (failing 3 access_denied) event empty_world in
  httpMethod event <> "OPTIONS"
  /\ statusCode run.1 = 500%Z
  /\ status_of (db run.2 !! fresh_id calm) = Some "FAILED"
  /\ attempts (sent run.2) = 1.
Proof.
  intros event run.
  assert (httpMethod event <> "OPTIONS") as Hm by done.
  assert (match SubmitJob.validated event with
          | Return a =>
              Js.strict_eq (Js.field a.2 "mode") (Some (JStr "sync")) = false
          | Throw _ => False
          end) as Hmode by (vm_compute; reflexivity).
  destruct (SubmitJob.validated event) as [[ctx request]|e] eqn:Hv;
    [simpl in Hmode|contradiction].
  assert (forall i, i < 3 ->
            fault (failing 3 access_denied) (i + length (sent empty_world)) = None)
    as Hfault.
  { intros i Hi. simpl. rewrite decide_False by lia. done. }
  destruct (submit_async_confirmation_failure (failing 3 access_denied) event
              empty_world ctx request "s3://output/location" access_denied
              Hm Hv Hmode eq_refl Hfault eq_refl ltac:(done) eq_refl
              ltac:(done) eq_refl)
    as (H1 & H2 & _ & _ & H5).
  split; [exact Hm|]. split; [exact H1|]. split; [exact H2|exact H5].
Defined.

(** ** The callback handler *)


